(** * cozy-desktop: the Merge reconciler and the local watcher

    A shallow embedding of [src/merge.js] and [src/local/watcher.js].

    - [JS]: the few ECMAScript string primitives the code relies on
      ([String.prototype.replace] with a string pattern, [slice], truthiness).
    - [PathModule]: Node's [path] module, an interface with a POSIX instance.
    - [Metadata], [World]: the documents and the PouchDB journal.
    - [Merge]: the reconciler, written in a state-and-exception monad.
    - [Watcher]: the chokidar event handlers as transitions of a state
      machine whose timers and callbacks are explicit. *)

From Stdlib Require Import ZArith String Ascii List Bool Lia.
From stdpp Require Import gmap strings list fin_maps sorting.

Local Open Scope string_scope.

(* ===================================================================== *)
(** ** ECMAScript primitives *)
(* ===================================================================== *)

Module JS.

(** A string is held as the bytes of its UTF-8 form; a surrogate that has
    lost its pair is held as the three bytes of its code (as in WTF-8).
    A position in a string that the code finds by scanning it ([indexOf],
    the loops of [path]) is kept as a count of bytes; [length] and [slice]
    below count as JavaScript does, in UTF-16 code units. *)

(** [s.slice(0, n)], for a position [n] found by scanning [s] *)
Definition slice0 (n : nat) (s : string) : string := substring 0 n s.

(** A byte [10xxxxxx], which continues a character. *)
Definition is_continuation (c : ascii) : bool :=
  (128 <=? N_of_ascii c)%N && (N_of_ascii c <? 192)%N.

(** A byte [11110xxx], the first of four: a character outside the Basic
    Multilingual Plane, which UTF-16 holds as a pair of surrogates. *)
Definition is_lead4 (c : ascii) : bool := (240 <=? N_of_ascii c)%N.

(** The code units of the character that begins with the byte [c]. *)
Definition units (c : ascii) : nat :=
  if is_continuation c then 0 else if is_lead4 c then 2 else 1.

(** [s.length] *)
Fixpoint length (s : string) : nat :=
  match s with
  | EmptyString => 0
  | String c s' => units c + length s'
  end.

(** The high surrogate of the character of four bytes that begins with
    [c] and goes on in [rest], as the three bytes of its code. *)
Definition high_surrogate (c : ascii) (rest : string) : string :=
  let b (i : nat) : N := from_option N_of_ascii 0%N (String.get i rest) in
  let hi := (55232 + (N_of_ascii c mod 8) * 256 + (b 0%nat mod 64) * 4 + (b 1%nat mod 64) / 16)%N in
  String (ascii_of_N 237)
    (String (ascii_of_N (128 + (hi / 64) mod 64))
       (String (ascii_of_N (128 + hi mod 64)) EmptyString)).

(** [s.slice(0, n)], for a count [n] of code units. Where the cut falls
    between the two surrogates of a character, its high surrogate stays. *)
Fixpoint slice (n : nat) (s : string) : string :=
  match s with
  | EmptyString => EmptyString
  | String c s' =>
      if is_continuation c then String c (slice n s')
      else if is_lead4 c then
        match n with
        | 0 => EmptyString
        | 1 => high_surrogate c s'
        | S (S n') => String c (slice n' s')
        end
      else
        match n with
        | 0 => EmptyString
        | S n' => String c (slice n' s')
        end
  end.

(** [s.slice(n)], for a position [n] found by scanning [s] *)
Fixpoint sliceFrom (n : nat) (s : string) : string :=
  match n, s with
  | 0, _ => s
  | S n', String _ s' => sliceFrom n' s'
  | S _, EmptyString => EmptyString
  end.

(** [s.indexOf(pat)]: position of the first occurrence, [None] for -1. *)
Fixpoint indexOf (pat s : string) : option nat :=
  if String.prefix pat s then Some 0
  else match s with
       | EmptyString => None
       | String _ s' => S <$> indexOf pat s'
       end.

(** GetSubstitution (ECMA-262, 22.1.3.19.1) for a pattern without capture
    groups: in the replacement text [$$] stands for a dollar sign, [$&] for
    the matched text, [$`] for the text before the match and [$'] for the
    text after it; any other dollar sign is literal. *)
Fixpoint getSubstitution (matched before after repl : string) : string :=
  match repl with
  | EmptyString => EmptyString
  | String a tail =>
      if Ascii.eqb a "$" then
        match tail with
        | String c rest =>
            if Ascii.eqb c "$" then String "$" (getSubstitution matched before after rest)
            else if Ascii.eqb c "&" then matched +:+ getSubstitution matched before after rest
            else if Ascii.eqb c "`" then before +:+ getSubstitution matched before after rest
            else if Ascii.eqb c "'" then after +:+ getSubstitution matched before after rest
            else String a (getSubstitution matched before after tail)
        | EmptyString => String a EmptyString
        end
      else String a (getSubstitution matched before after tail)
  end.

(** [s.replace(pat, repl)] where [pat] is a string: only the first
    occurrence is replaced, and [repl] goes through [getSubstitution]. *)
Definition replace (s pat repl : string) : string :=
  match indexOf pat s with
  | None => s
  | Some i =>
      let before := slice0 i s in
      let after := sliceFrom (i + String.length pat) s in
      before +:+ getSubstitution pat before after repl +:+ after
  end.

(** Truthiness of an optional number: [undefined] and [0] are falsy. *)
Definition truthy (o : option nat) : bool :=
  match o with
  | Some (S _) => true
  | _ => false
  end.

(** [a === b] on optional values of a type with decidable equality. *)
Definition strictEq {A} `{EqDecision A} (a b : A) : bool := bool_decide (a = b).

(** The text contains no dollar sign. *)
Fixpoint dollarFree (s : string) : bool :=
  match s with
  | EmptyString => true
  | String a s' => negb (Ascii.eqb a "$") && dollarFree s'
  end.

End JS.

(* ===================================================================== *)
(** ** Node's [path] module *)
(* ===================================================================== *)

(** The code goes through [path.dirname], [path.basename], [path.extname] and
    [path.join]; which implementation it gets depends on the platform. *)
Class PathModule := {
  path_dirname : string → string;
  path_basename : string → string → string;
  path_extname : string → string;
  path_join : string → string → string
}.

Module Posix.

Definition is_slash (c : ascii) : bool := Ascii.eqb c "/".
Definition is_dot (c : ascii) : bool := Ascii.eqb c ".".

(** [cs] holds the characters at indices [i], [i-1], ..., 0 in that order;
    the loop of [posix.dirname] visits the indices down to 1. *)
Fixpoint dirname_loop (cs : list ascii) (i : nat) (matchedSlash : bool) : option nat :=
  match cs, i with
  | c :: cs', S i' =>
      if is_slash c then
        if matchedSlash then dirname_loop cs' i' true else Some i
      else dirname_loop cs' i' false
  | _, _ => None
  end.

Definition dirname (p : string) : string :=
  match p with
  | EmptyString => "."
  | String c0 _ =>
      let hasRoot := is_slash c0 in
      let cs := rev (list_ascii_of_string p) in
      match dirname_loop cs (String.length p - 1) true with
      | None => if hasRoot then "/" else "."
      | Some e => if hasRoot && Nat.eqb e 1 then "//" else JS.slice0 e p
      end
  end.

(** State of the loop of [posix.extname]. *)
Record ExtState := {
  startDot : option nat;
  startPart : nat;
  endIdx : option nat;
  matchedSlash : bool;
  preDotState : Z
}.

Fixpoint extname_loop (cs : list ascii) (i : nat) (st : ExtState) : ExtState :=
  match cs with
  | [] => st
  | c :: cs' =>
      if is_slash c then
        if negb (matchedSlash st) then
          {| startDot := startDot st; startPart := S i; endIdx := endIdx st;
             matchedSlash := matchedSlash st; preDotState := preDotState st |}
        else extname_loop cs' (pred i) st
      else
        let st1 :=
          match endIdx st with
          | None => {| startDot := startDot st; startPart := startPart st;
                       endIdx := Some (S i); matchedSlash := false;
                       preDotState := preDotState st |}
          | Some _ => st
          end in
        let st2 :=
          if is_dot c then
            match startDot st1 with
            | None => {| startDot := Some i; startPart := startPart st1;
                         endIdx := endIdx st1; matchedSlash := matchedSlash st1;
                         preDotState := preDotState st1 |}
            | Some _ => {| startDot := startDot st1; startPart := startPart st1;
                           endIdx := endIdx st1; matchedSlash := matchedSlash st1;
                           preDotState := 1 |}
            end
          else
            match startDot st1 with
            | Some _ => {| startDot := startDot st1; startPart := startPart st1;
                           endIdx := endIdx st1; matchedSlash := matchedSlash st1;
                           preDotState := (-1) |}
            | None => st1
            end in
        extname_loop cs' (pred i) st2
  end.

Definition extname (p : string) : string :=
  let st := extname_loop (rev (list_ascii_of_string p)) (String.length p - 1)
              {| startDot := None; startPart := 0; endIdx := None;
                 matchedSlash := true; preDotState := 0 |} in
  match startDot st, endIdx st with
  | Some sd, Some e =>
      if Z.eqb (preDotState st) 0
         || (Z.eqb (preDotState st) 1 && Nat.eqb sd (e - 1) && Nat.eqb sd (S (startPart st)))
      then EmptyString
      else substring sd (e - sd) p
  | _, _ => EmptyString
  end.

(** The last path component, trailing slashes dropped ([posix.basename]
    without suffix). *)
Fixpoint base_loop (cs : list ascii) (i : nat) (e : option nat) : nat * option nat :=
  match cs with
  | [] => (0, e)
  | c :: cs' =>
      if is_slash c then
        match e with
        | Some _ => (S i, e)
        | None => base_loop cs' (pred i) e
        end
      else
        match e with
        | None => base_loop cs' (pred i) (Some (S i))
        | Some _ => base_loop cs' (pred i) e
        end
  end.

Definition basename1 (p : string) : string :=
  match base_loop (rev (list_ascii_of_string p)) (String.length p - 1) None with
  | (s, Some e) => substring s (e - s) p
  | (_, None) => EmptyString
  end.

Fixpoint is_suffix_list (suf l : list ascii) : bool :=
  if bool_decide (suf = l) then true
  else match l with
       | [] => false
       | _ :: l' => is_suffix_list suf l'
       end.

(** [posix.basename(p, ext)]: the last component with [ext] removed from
    its end, unless the component is [ext] itself. *)
Definition basename (p ext : string) : string :=
  if bool_decide (ext = EmptyString) || Nat.ltb (String.length p) (String.length ext) then basename1 p
  else if bool_decide (ext = p) then EmptyString
  else
    let b := basename1 p in
    if is_suffix_list (list_ascii_of_string ext) (list_ascii_of_string b)
       && negb (bool_decide (ext = b))
    then JS.slice0 (String.length b - String.length ext) b
    else b.

(** Split at slashes. *)
Fixpoint split_go (cur : string) (s : string) : list string :=
  match s with
  | EmptyString => [String.rev cur]
  | String c s' =>
      if is_slash c then String.rev cur :: split_go EmptyString s'
      else split_go (String c cur) s'
  end.
Definition split (s : string) : list string := split_go EmptyString s.

(** [normalizeString]: the segments kept so far are in [acc], last first. *)
Fixpoint normalize_segments (allowAboveRoot : bool) (acc segs : list string) : list string :=
  match segs with
  | [] => rev acc
  | seg :: segs' =>
      if bool_decide (seg = EmptyString) || bool_decide (seg = ".") then
        normalize_segments allowAboveRoot acc segs'
      else if bool_decide (seg = "..") then
        match acc with
        | top :: acc' =>
            if bool_decide (top = "..") then normalize_segments allowAboveRoot (seg :: acc) segs'
            else normalize_segments allowAboveRoot acc' segs'
        | [] =>
            if allowAboveRoot then normalize_segments allowAboveRoot [seg] segs'
            else normalize_segments allowAboveRoot [] segs'
        end
      else normalize_segments allowAboveRoot (seg :: acc) segs'
  end.

Definition last_is_slash (p : string) : bool :=
  match rev (list_ascii_of_string p) with
  | c :: _ => is_slash c
  | [] => false
  end.

Definition normalize (p : string) : string :=
  match p with
  | EmptyString => "."
  | String c0 _ =>
      let isAbsolute := is_slash c0 in
      let trailing := last_is_slash p in
      let body := String.concat "/" (normalize_segments (negb isAbsolute) [] (split p)) in
      if bool_decide (body = EmptyString) then
        if isAbsolute then "/" else if trailing then "./" else "."
      else
        let body := if trailing then body +:+ "/" else body in
        if isAbsolute then "/" +:+ body else body
  end.

Definition join (a b : string) : string :=
  match a, b with
  | EmptyString, EmptyString => "."
  | EmptyString, _ => normalize b
  | _, EmptyString => normalize a
  | _, _ => normalize (a +:+ "/" +:+ b)
  end.

End Posix.

#[export] Instance posix : PathModule := {|
  path_dirname := Posix.dirname;
  path_basename := Posix.basename;
  path_extname := Posix.extname;
  path_join := Posix.join
|}.

(* ===================================================================== *)
(** ** Documents *)
(* ===================================================================== *)

Inductive SideName := LocalSide | RemoteSide.

Inductive DocType := File | Folder.

(** [doc.sides]: for each side the short revision it has seen. *)
Record Sides := mkSides {
  sides_local : option nat;
  sides_remote : option nat
}.

Record MetadataRemoteInfo := mkRemoteInfo {
  remote_id : string;
  remote_rev : string
}.

(** The [Metadata] objects kept in PouchDB. A property that a JavaScript
    object may lack is an [option]; [_deleted] is absent or [true]; [sides]
    is the object the Flow type requires, possibly with no entry. *)
Record Metadata := mkMetadata {
  _id : string;
  _rev : option nat;
  path : string;
  docType : DocType;
  md5sum : option string;
  doc_size : option nat;
  class : option string;
  mime : option string;
  tags : option (list string);
  sides : Sides;
  remote : option MetadataRemoteInfo;
  _deleted : bool;
  moveTo : option string;
  trashed : option bool;
  errors : option nat;
  updated_at : option string;
  creationDate : option string;
  lastModification : option string;
  executable : bool
}.

#[export] Instance SideName_eq_dec : EqDecision SideName.
Proof. solve_decision. Defined.
#[export] Instance DocType_eq_dec : EqDecision DocType.
Proof. solve_decision. Defined.
#[export] Instance Sides_eq_dec : EqDecision Sides.
Proof. solve_decision. Defined.
#[export] Instance MetadataRemoteInfo_eq_dec : EqDecision MetadataRemoteInfo.
Proof. solve_decision. Defined.
#[export] Instance Metadata_eq_dec : EqDecision Metadata.
Proof. solve_decision. Defined.

Definition set_id (v : string) (d : Metadata) : Metadata :=
  let '(mkMetadata _ b c d0 e f g h i j k l m n o p q r s) := d in
  mkMetadata v b c d0 e f g h i j k l m n o p q r s.
Definition set_rev (v : option nat) (d : Metadata) : Metadata :=
  let '(mkMetadata a _ c d0 e f g h i j k l m n o p q r s) := d in
  mkMetadata a v c d0 e f g h i j k l m n o p q r s.
Definition set_path (v : string) (d : Metadata) : Metadata :=
  let '(mkMetadata a b _ d0 e f g h i j k l m n o p q r s) := d in
  mkMetadata a b v d0 e f g h i j k l m n o p q r s.
Definition set_size (v : option nat) (d : Metadata) : Metadata :=
  let '(mkMetadata a b c d0 e _ g h i j k l m n o p q r s) := d in
  mkMetadata a b c d0 e v g h i j k l m n o p q r s.
Definition set_class (v : option string) (d : Metadata) : Metadata :=
  let '(mkMetadata a b c d0 e f _ h i j k l m n o p q r s) := d in
  mkMetadata a b c d0 e f v h i j k l m n o p q r s.
Definition set_mime (v : option string) (d : Metadata) : Metadata :=
  let '(mkMetadata a b c d0 e f g _ i j k l m n o p q r s) := d in
  mkMetadata a b c d0 e f g v i j k l m n o p q r s.
Definition set_tags (v : option (list string)) (d : Metadata) : Metadata :=
  let '(mkMetadata a b c d0 e f g h _ j k l m n o p q r s) := d in
  mkMetadata a b c d0 e f g h v j k l m n o p q r s.
Definition set_sides (v : Sides) (d : Metadata) : Metadata :=
  let '(mkMetadata a b c d0 e f g h i _ k l m n o p q r s) := d in
  mkMetadata a b c d0 e f g h i v k l m n o p q r s.
Definition set_remote (v : option MetadataRemoteInfo) (d : Metadata) : Metadata :=
  let '(mkMetadata a b c d0 e f g h i j _ l m n o p q r s) := d in
  mkMetadata a b c d0 e f g h i j v l m n o p q r s.
Definition set_deleted (v : bool) (d : Metadata) : Metadata :=
  let '(mkMetadata a b c d0 e f g h i j k _ m n o p q r s) := d in
  mkMetadata a b c d0 e f g h i j k v m n o p q r s.
Definition set_moveTo (v : option string) (d : Metadata) : Metadata :=
  let '(mkMetadata a b c d0 e f g h i j k l _ n o p q r s) := d in
  mkMetadata a b c d0 e f g h i j k l v n o p q r s.
Definition set_trashed (v : option bool) (d : Metadata) : Metadata :=
  let '(mkMetadata a b c d0 e f g h i j k l m _ o p q r s) := d in
  mkMetadata a b c d0 e f g h i j k l m v o p q r s.
Definition set_errors (v : option nat) (d : Metadata) : Metadata :=
  let '(mkMetadata a b c d0 e f g h i j k l m n _ p q r s) := d in
  mkMetadata a b c d0 e f g h i j k l m n v p q r s.

(** [x == null ? y : x] as used for [if (doc.f == null) { doc.f = file.f }]. *)
Definition orElse {A} (x y : option A) : option A :=
  match x with
  | Some _ => x
  | None => y
  end.

Definition side_get (side : SideName) (s : Sides) : option nat :=
  match side with
  | LocalSide => sides_local s
  | RemoteSide => sides_remote s
  end.

Definition side_set (side : SideName) (v : option nat) (s : Sides) : Sides :=
  match side with
  | LocalSide => mkSides v (sides_remote s)
  | RemoteSide => mkSides (sides_local s) v
  end.

Definition noSides : Sides := mkSides None None.


(** The largest short revision recorded in [sides], 0 when there is none. *)
Definition maxSides (s : Sides) : nat :=
  Nat.max (default 0 (sides_local s)) (default 0 (sides_remote s)).

(** Modelled from the spec: [markSide] of [src/metadata.js], which is not
    among the sources. "[markSide(side, doc, existing)] sets
    [doc.sides[side] := max(existing.sides || 0) + 1]". The assignment goes
    into the [sides] object of [doc]; [markSides] is that object afterwards. *)
Definition markSides (side : SideName) (s : Sides) (prev : option Sides) : Sides :=
  side_set side (Some (S (from_option maxSides 0 prev))) s.

Definition markSide (side : SideName) (doc : Metadata) (prev : option Metadata) : Metadata :=
  set_sides (markSides side (sides doc) (sides <$> prev)) doc.

(** Modelled from the spec: [isUpToDate] of [src/metadata.js], which is not
    among the sources. "Up-to-date on side S: [sides[S] == max(sides.values())]". *)
Definition isUpToDate (side : SideName) (doc : Metadata) : bool :=
  match side_get side (sides doc) with
  | Some n => Nat.eqb n (maxSides (sides doc))
  | None => false
  end.

(* ===================================================================== *)
(** ** The world: PouchDB journal, the two sides, the clock *)
(* ===================================================================== *)

Inductive Error :=
  | PouchError (status : nat)      (* an error object with a [status] *)
  | TypeError                      (* property access on [undefined] *)
  | Failure (msg : string)         (* [new Error(msg)] *)
  | SideError (msg : string)       (* raised by [Local] or [Remote] *)
  | OutOfFuel.                     (* the bound of a recursion of the model is spent *)

#[export] Instance Error_eq_dec : EqDecision Error.
Proof. solve_decision. Defined.

(** A call [this[side].resolveConflictAsync(dst, src)]. *)
Record ConflictCall := mkConflictCall {
  call_side : SideName;
  call_dst : Metadata;
  call_src : Metadata
}.

#[export] Instance ConflictCall_eq_dec : EqDecision ConflictCall.
Proof. solve_decision. Defined.

Record World := mkWorld {
  journal : gmap string (list Metadata);  (* per id, its revisions, newest first *)
  calls : list ConflictCall;              (* calls made to the sides, oldest first *)
  now : string                            (* [new Date().toISOString()] *)
}.

Inductive Result (A : Type) :=
  | Ok (a : A)
  | Throw (e : Error).
Arguments Ok {A} a.
Arguments Throw {A} e.

(** Computations of the reconciler: they read and write the world and may
    throw; what was written before a throw stays written. *)
Definition M (A : Type) : Type := World → Result A * World.

Definition ret {A} (a : A) : M A := λ w, (Ok a, w).

Definition bind {A B} (m : M A) (f : A → M B) : M B :=
  λ w, match m w with
       | (Ok a, w') => f a w'
       | (Throw e, w') => (Throw e, w')
       end.

Definition throw {A} (e : Error) : M A := λ w, (Throw e, w).

(** [try { m } catch (err) { h err }] *)
Definition catch {A} (m : M A) (h : Error → M A) : M A :=
  λ w, match m w with
       | (Ok a, w') => (Ok a, w')
       | (Throw e, w') => h e w'
       end.

Declare Scope merge_scope.
Delimit Scope merge_scope with merge.
Notation "x <- m ;; k" := (bind m (λ x, k))
  (at level 100, m at next level, right associativity) : merge_scope.
Notation "m ;;; k" := (bind m (λ _, k))
  (at level 100, right associativity) : merge_scope.

Module Pouch.

(** Modelled from the spec: the MetadataStore ([src/pouch.js] is not among
    the sources). "A persistent ordered key-value journal with
    multi-version concurrency (documents carry revisions)"; tombstones
    "remain in the journal"; reads of a missing or deleted document answer
    NotFound (status 404). *)
Definition head_live (hist : list Metadata) : option Metadata :=
  match hist with
  | d :: _ => if _deleted d then None else Some d
  | [] => None
  end.

Definition current (w : World) (id : string) : option Metadata :=
  journal w !! id ≫= head_live.

(** "[get(id) → Document | NotFound]" *)
Definition get (id : string) : M Metadata :=
  λ w, match current w id with
       | Some d => (Ok d, w)
       | None => (Throw (PouchError 404), w)
       end.

(** "fails with Conflict if [doc.rev] does not match current": the
    revision must be the one of the newest entry; over a tombstone, or
    where the id was never written, a document without revision is
    accepted as well. *)
Definition rev_matches (hist : list Metadata) (doc : Metadata) : bool :=
  match hist with
  | [] => bool_decide (_rev doc = None)
  | d :: _ => bool_decide (_rev doc = _rev d)
              || (_deleted d && bool_decide (_rev doc = None))
  end.

(** The revision token handed out for the next write at this id. *)
Definition next_rev (hist : list Metadata) : option nat := Some (S (length hist)).

Definition stored (hist : list Metadata) (doc : Metadata) : Metadata :=
  set_rev (next_rev hist) doc.

Definition put_journal (j : gmap string (list Metadata)) (doc : Metadata)
  : option (gmap string (list Metadata)) :=
  let hist := default [] (j !! _id doc) in
  if rev_matches hist doc then Some (<[_id doc := stored hist doc :: hist]> j)
  else None.

Definition with_journal (j : gmap string (list Metadata)) (w : World) : World :=
  mkWorld j (calls w) (now w).

(** "[put(doc) → Document with new rev]" *)
Definition put (doc : Metadata) : M Metadata :=
  λ w, match put_journal (journal w) doc with
       | Some j => (Ok (stored (default [] (journal w !! _id doc)) doc), with_journal j w)
       | None => (Throw (PouchError 409), w)
       end.

Fixpoint bulk_journal (j : gmap string (list Metadata)) (docs : list Metadata)
  : option (gmap string (list Metadata)) :=
  match docs with
  | [] => Some j
  | d :: docs' =>
      match put_journal j d with
      | Some j' => bulk_journal j' docs'
      | None => None
      end
  end.

(** "[bulkPut(docs[])]: atomic multi-write; all or nothing" *)
Definition bulkDocs (docs : list Metadata) : M unit :=
  λ w, match bulk_journal (journal w) docs with
       | Some j => (Ok tt, with_journal j w)
       | None => (Throw (PouchError 409), w)
       end.

(** The live document of each id. *)
Definition lives (w : World) : gmap string Metadata := omap head_live (journal w).

(** [id] begins with [prefix + "/"]. *)
Definition under (prefix id : string) : bool := String.prefix (prefix +:+ "/") id.

Definition descendants (w : World) (prefix : string) : gmap string Metadata :=
  filter (λ kv, under prefix kv.1 = true) (lives w).

Definition id_le (a b : Metadata) : Prop := String.le (_id a) (_id b).
#[export] Instance id_le_dec : RelDecision id_le.
Proof. intros a b. unfold id_le. apply _. Defined.

(** "[byRecursivePath(prefix)] → ordered sequence of Documents whose [id]
    begins with [prefix + "/"], sorted by [id] ascending" *)
Definition docs_under (w : World) (prefix : string) : list Metadata :=
  merge_sort id_le (map snd (map_to_list (descendants w prefix))).

Definition byRecursivePath (prefix : string) : M (list Metadata) :=
  λ w, (Ok (docs_under w prefix), w).

Definition has_shortRev (n : nat) (d : Metadata) : Prop :=
  sides_local (sides d) = Some n ∨ sides_remote (sides d) = Some n.
#[export] Instance has_shortRev_dec n d : Decision (has_shortRev n d).
Proof. unfold has_shortRev. apply _. Defined.

(** "[previousRev(id, shortRev) → Document] from the revision history
    matching the given short-rev on some side"; where several revisions
    match, the earliest of them. *)
Definition getPreviousRev (id : string) (shortRev : option nat) : M Metadata :=
  λ w, match shortRev with
       | None => (Throw (PouchError 404), w)
       | Some n =>
           match list_find (has_shortRev n) (rev (default [] (journal w !! id))) with
           | Some (_, d) => (Ok d, w)
           | None => (Throw (PouchError 404), w)
           end
       end.

End Pouch.

(* ===================================================================== *)
(** ** Merge ([src/merge.js]) *)
(* ===================================================================== *)

(** [sameBinary], [sameFile] and [sameFolder] of [src/metadata.js], which is
    not among the sources: the comparisons of two documents. *)
Class MetadataModule := {
  sameBinary : Metadata → Metadata → bool;
  sameFile : Metadata → Metadata → bool;
  sameFolder : Metadata → Metadata → bool
}.

(** [validName] of [src/utils/fs.js], which is not among the sources. *)
Class FsUtils := {
  validName : string → string
}.

(** [Local] and [Remote], the collaborators of the reconciler: whether
    [this[side].resolveConflictAsync(dst, src)] fails, and how. The call
    renames on its side and leaves the objects [dst] and [src] as they are. *)
Class Collaborators := {
  sideResolveConflict : SideName → Metadata → Metadata → option Error
}.

(** What a method of [Merge] resolves to. *)
Inductive Response :=
  | RNull                              (* [return null] *)
  | RUndefined                         (* [return] *)
  | RDoc (dst : Metadata)              (* the document renamed by a conflict *)
  | RPut (stored : Metadata)           (* the answer of [pouch.put] *)
  | RBulk (docs : list Metadata).      (* the answer of [pouch.bulkDocs] to [docs] *)

#[export] Instance Response_eq_dec : EqDecision Response.
Proof. solve_decision. Defined.

Module Merge.
Section Merge.

Local Open Scope merge_scope.

Context `{PathModule} `{MetadataModule} `{FsUtils} `{Collaborators}.

(** [this[side].resolveConflictAsync(dst, src)] *)
Definition side_resolveConflictAsync (side : SideName) (dst src : Metadata) : M unit :=
  λ w, let w' := mkWorld (journal w) (calls w ++ [mkConflictCall side dst src]) (now w) in
       match sideResolveConflict side dst src with
       | None => (Ok tt, w')
       | Some e => (Throw e, w')
       end.

Definition date_now : M string := λ w, (Ok (now w), w).

(** [try { x = await this.pouch.db.get(id) } catch (err) { ...log... }]:
    whatever the error, [x] stays [undefined]. *)
Definition try_get (id : string) : M (option Metadata) :=
  catch (d <- Pouch.get id ;; ret (Some d)) (λ _, ret None).

(** The path a conflict renames [p] to, at the date [date]. *)
Definition conflict_base (p : string) : string :=
  let ext := path_extname p in
  let base := path_basename p ext in
  if Nat.ltb 180 (JS.length base) then JS.slice 180 base else base.

Definition conflict_path (date p : string) : string :=
  let ext := path_extname p in
  let dir := path_dirname p in
  path_join dir (conflict_base p) +:+ "-conflict-" +:+ date +:+ ext.

(** Resolve a conflict by renaming a file/folder *)
Definition resolveConflictAsync (side : SideName) (doc : Metadata) : M Metadata :=
  iso <- date_now ;;
  let date := validName iso in
  let dst := set_path (conflict_path date (path doc)) doc in
  side_resolveConflictAsync side dst doc ;;;
  ret dst.

(** [putFolderAsync], given the function that ensures the parents. *)
Definition putFolder_with (ensure : SideName → Metadata → M unit)
    (side : SideName) (doc : Metadata) : M Response :=
  folder <- try_get (_id doc) ;;
  let doc := markSide side doc folder in
  match folder with
  | Some folder =>
      match docType folder with
      | File => dst <- resolveConflictAsync side doc ;; ret (RDoc dst)
      | Folder =>
          let doc := set_rev (_rev folder) doc in
          let doc := set_tags (orElse (tags doc) (Some (default [] (tags folder)))) doc in
          let doc := set_remote (orElse (remote doc) (remote folder)) doc in
          if sameFolder folder doc then ret RNull
          else r <- Pouch.put doc ;; ret (RPut r)
      end
  | None =>
      let doc := set_tags (orElse (tags doc) (Some [])) doc in
      ensure side doc ;;;
      r <- Pouch.put doc ;; ret (RPut r)
  end.

Definition parentDoc (iso : string) (doc : Metadata) : Metadata :=
  {| _id := path_dirname (_id doc); _rev := None; path := path_dirname (path doc);
     docType := Folder; md5sum := None; doc_size := None; class := None;
     mime := None; tags := None; sides := noSides; remote := None;
     _deleted := false; moveTo := None; trashed := None; errors := None;
     updated_at := Some iso; creationDate := None; lastModification := None;
     executable := false |}.

(** Be sure that the tree structure for the given path exists. The
    recursion follows [path.dirname] upwards; [fuel] bounds its depth. *)
Fixpoint ensureParentExistAsync (fuel : nat) (side : SideName) (doc : Metadata) : M unit :=
  let parentId := path_dirname (_id doc) in
  if bool_decide (parentId = ".") then ret tt
  else
    folder <- try_get parentId ;;
    match folder with
    | Some _ => ret tt
    | None =>
        match fuel with
        | 0 => throw OutOfFuel
        | S fuel' =>
            iso <- date_now ;;
            let parent := parentDoc iso doc in
            ensureParentExistAsync fuel' side parent ;;;
            putFolder_with (ensureParentExistAsync fuel') side parent ;;;
            ret tt
        end
    end.

(** Create or update a folder *)
Definition putFolderAsync (fuel : nat) : SideName → Metadata → M Response :=
  putFolder_with (ensureParentExistAsync fuel).

(** Update a file, when its metadata or its content has changed *)
Definition updateFileAsync (fuel : nat) (side : SideName) (doc : Metadata) : M Response :=
  file <- try_get (_id doc) ;;
  let doc := markSide side doc file in
  match file with
  | Some file =>
      match docType file with
      | Folder => throw (Failure "Can't resolve this conflict!")
      | File =>
          let doc := set_rev (_rev file) doc in
          let doc := set_tags (orElse (tags doc) (Some (default [] (tags file)))) doc in
          let doc := set_remote (orElse (remote doc) (remote file)) doc in
          let finish (doc : Metadata) : M Response :=
            if sameFile file doc then ret RNull
            else r <- Pouch.put doc ;; ret (RPut r) in
          if sameBinary file doc then
            let doc := set_size (orElse (doc_size doc) (doc_size file)) doc in
            let doc := set_class (orElse (class doc) (class file)) doc in
            let doc := set_mime (orElse (mime doc) (mime file)) doc in
            finish doc
          else if negb (isUpToDate side file) then
            dst <- resolveConflictAsync side doc ;; ret (RDoc dst)
          else finish doc
      end
  | None =>
      let doc := set_tags (orElse (tags doc) (Some [])) doc in
      ensureParentExistAsync fuel side doc ;;;
      r <- Pouch.put doc ;; ret (RPut r)
  end.

(** When a file is modified when cozy-desktop is not running,
    it is detected as a new file when cozy-desktop is started. *)
Definition resolveInitialAddAsync (fuel : nat) (side : SideName) (doc file : Metadata)
  : M Response :=
  if negb (JS.truthy (sides_remote (sides file))) then
    updateFileAsync fuel side doc
  else if JS.strictEq (sides_remote (sides file)) (sides_local (sides file)) then
    updateFileAsync fuel side doc
  else
    let shortRev := sides_local (sides file) in
    unchanged <- catch (prev <- Pouch.getPreviousRev (_id doc) shortRev ;;
                        ret (JS.strictEq (md5sum prev) (md5sum doc)))
                       (λ _, ret false) ;;
    if unchanged : bool then ret RNull
    else
      let doc := set_remote (orElse (remote doc) (remote file)) doc in
      dst <- resolveConflictAsync RemoteSide doc ;; ret (RDoc dst).

(** Add a file, if it doesn't already exist,
    and create the tree structure if needed *)
Definition addFileAsync (fuel : nat) (side : SideName) (doc : Metadata) : M Response :=
  file <- try_get (_id doc) ;;
  let doc := markSide side doc file in
  match file with
  | Some file =>
      match docType file with
      | Folder => dst <- resolveConflictAsync side doc ;; ret (RDoc dst)
      | File =>
          if sameBinary file doc then
            let doc := set_rev (_rev file) doc in
            let doc := set_size (orElse (doc_size doc) (doc_size file)) doc in
            let doc := set_class (orElse (class doc) (class file)) doc in
            let doc := set_mime (orElse (mime doc) (mime file)) doc in
            let doc := set_tags (orElse (tags doc) (Some (default [] (tags file)))) doc in
            let doc := set_remote (orElse (remote doc) (remote file)) doc in
            if sameFile file doc then ret RNull
            else r <- Pouch.put doc ;; ret (RPut r)
          else if bool_decide (side = LocalSide)
                  && bool_decide (sides_local (sides file) ≠ None) then
            resolveInitialAddAsync fuel side doc file
          else dst <- resolveConflictAsync side doc ;; ret (RDoc dst)
      end
  | None =>
      let doc := set_tags (orElse (tags doc) (Some [])) doc in
      ensureParentExistAsync fuel side doc ;;;
      r <- Pouch.put doc ;; ret (RPut r)
  end.

(** What [moveFileAsync] does to [doc] and [was] before it looks at the
    destination: [markSide], the fields carried over from [was], the
    tombstone marks on [was]. *)
Definition move_doc (side : SideName) (doc was : Metadata) (file : option Metadata)
  : Metadata :=
  let doc := markSide side doc file in
  let doc := set_size (orElse (doc_size doc) (doc_size was)) doc in
  let doc := set_class (orElse (class doc) (class was)) doc in
  let doc := set_mime (orElse (mime doc) (mime was)) doc in
  let doc := set_tags (orElse (tags doc) (Some (default [] (tags was)))) doc in
  set_trashed None doc.

Definition move_was (side : SideName) (doc was : Metadata) : Metadata :=
  let was := markSide side was (Some was) in
  let was := set_moveTo (Some (_id doc)) was in
  let was := set_deleted true was in
  set_errors None was.

(** Rename or move a file *)
Definition moveFileAsync (fuel : nat) (side : SideName) (doc was : Metadata) : M Response :=
  if JS.truthy (side_get side (sides was)) then
    file <- try_get (_id doc) ;;
    let doc := move_doc side doc was file in
    let was := move_was side doc was in
    match file with
    | Some file =>
        if sameFile file doc then ret RNull
        else
          dst <- resolveConflictAsync side doc ;;
          let was := set_moveTo (Some (_id dst)) was in
          let dst := set_sides (side_set side (Some 1) noSides) dst in
          Pouch.bulkDocs [was; dst] ;;; ret (RBulk [was; dst])
    | None =>
        ensureParentExistAsync fuel side doc ;;;
        Pouch.bulkDocs [was; doc] ;;; ret (RBulk [was; doc])
    end
  else addFileAsync fuel side doc.

(** One turn of the loop of [moveFolderRecursivelyAsync]: the tombstone
    [src] and the moved document [dst] made from the descendant [doc].
    [clone] is shallow, so [doc], [src] and [dst] hold one and the same
    [sides] object, and [markSide(side, dst, src)] writes into it. *)
Definition move_child (side : SideName) (folder was doc : Metadata)
  : Metadata * Metadata :=
  let doc := set_trashed None doc in
  let newId := JS.replace (_id doc) (_id was) (_id folder) in
  let shared := markSides side (sides doc) (Some (sides doc)) in
  let src := set_errors None (set_moveTo (Some newId) (set_deleted true doc)) in
  let dst := set_id newId doc in
  let dst := set_path (JS.replace (path doc) (path was) (path folder)) dst in
  let dst := set_errors None (set_rev None dst) in
  (set_sides shared src, set_sides shared dst).

Definition move_bulk (side : SideName) (folder was : Metadata) (docs : list Metadata)
  : list Metadata :=
  let was := set_moveTo (Some (_id folder)) (set_deleted true was) in
  [was; folder] ++ flat_map (λ doc, let '(src, dst) := move_child side folder was doc in
                                    [src; dst]) docs.

(** Move a folder and all the things inside it *)
Definition moveFolderRecursivelyAsync (side : SideName) (folder was : Metadata)
  : M Response :=
  docs <- Pouch.byRecursivePath (_id was) ;;
  let bulk := move_bulk side folder was docs in
  Pouch.bulkDocs bulk ;;; ret (RBulk bulk).

(** Rename or move a folder (and every file and folder inside it) *)
Definition moveFolderAsync (fuel : nat) (side : SideName) (doc was : Metadata) : M Response :=
  if JS.truthy (side_get side (sides was)) then
    folder <- try_get (_id doc) ;;
    let doc := markSide side doc folder in
    let was := markSide side was (Some was) in
    let doc := set_tags (orElse (tags doc) (Some (default [] (tags was)))) doc in
    let doc := set_trashed None doc in
    match folder with
    | Some _ =>
        dst <- resolveConflictAsync side doc ;;
        let dst := set_sides (side_set side (Some 1) noSides) dst in
        moveFolderRecursivelyAsync side dst was
    | None =>
        ensureParentExistAsync fuel side doc ;;;
        moveFolderRecursivelyAsync side doc was
    end
  else putFolderAsync fuel side doc.

(** [trashFileAsync]. [newMetadata] is a shallow clone of [oldMetadata]:
    both hold the same [sides] object, so each [markSide] shows in both,
    and the test on [oldMetadata.sides[side]] comes after the first one. *)
Definition trashFileAsync (side : SideName) (was doc : Metadata) : M Response :=
  found <- catch (d <- Pouch.get (_id was) ;; ret (Some d))
                 (λ err, if bool_decide (err = PouchError 404) then ret None
                         else throw err) ;;
  match found with
  | None => ret RUndefined
  | Some oldMetadata =>
      if bool_decide (docType doc ≠ docType oldMetadata) then
        resolveConflictAsync side doc ;;; ret RUndefined
      else
        let oldMetadata := set_errors None oldMetadata in
        let newMetadata := set_trashed (Some true) oldMetadata in
        let shared := markSides side (sides oldMetadata) (Some (sides oldMetadata)) in
        if JS.truthy (side_get side shared) then
          let shared := markSides side shared (Some shared) in
          let oldMetadata := set_deleted true (set_sides shared oldMetadata) in
          catch (Pouch.put oldMetadata ;;; ret tt) (λ _, ret tt) ;;;
          r <- Pouch.put (set_sides shared newMetadata) ;; ret (RPut r)
        else
          r <- Pouch.put (set_sides shared newMetadata) ;; ret (RPut r)
  end.

(** The second loop of [trashFolderAsync]: remove the sub-folders. *)
Fixpoint trash_subfolders (children : list Metadata) : M unit :=
  match children with
  | [] => ret tt
  | child :: rest =>
      match docType child with
      | Folder => catch (Pouch.put (set_deleted true child) ;;; ret tt) (λ _, ret tt)
      | File => ret tt
      end ;;;
      trash_subfolders rest
  end.

Definition trashFolderAsync (side : SideName) (was doc : Metadata) : M Response :=
  children <- Pouch.byRecursivePath (_id was) ;;
  let children := rev children in
  (* Don't trash a folder if the other side has added a new file in it *)
  match find (λ child, bool_decide (docType child = File) && negb (isUpToDate side child))
             children with
  | Some _ =>
      let was := set_errors None was in
      let was := set_sides (side_set side None (sides was)) was in
      r <- Pouch.put was ;; ret (RPut r)
  | None =>
      trash_subfolders children ;;;
      trashFileAsync side was doc
  end.

(** Remove a file from PouchDB *)
Definition deleteFileAsync (side : SideName) (doc : Metadata) : M Response :=
  found <- catch (d <- Pouch.get (_id doc) ;; ret (Some d))
                 (λ err, if bool_decide (err = PouchError 404) then ret None
                         else throw err) ;;
  match found with
  | None => ret RNull
  | Some file =>
      if JS.truthy (side_get side (sides file)) then
        let file := markSide side file (Some file) in
        let file := set_deleted true file in
        let file := set_errors None file in
        r <- Pouch.put file ;; ret (RPut r)
      else ret RNull
  end.

(** [restoreFileAsync]: what the deletion of [was] throws is logged and
    dropped. *)
Definition restoreFileAsync (fuel : nat) (side : SideName) (was doc : Metadata)
  : M Response :=
  catch (deleteFileAsync side was ;;; ret tt) (λ _, ret tt) ;;;
  updateFileAsync fuel side doc.

(** One turn of the loop of [deleteFolderRecursivelyAsync] on [doc], with
    the paths in [toPreserve]: whether [doc] is kept, and [doc] afterwards. *)
Definition preserves (side : SideName) (toPreserve : gset string) (doc : Metadata) : bool :=
  bool_decide (path doc ∈ toPreserve) || negb (isUpToDate side doc).

(** [delete doc.remote; if (doc.sides) delete doc.sides.remote] *)
Definition dissociated (doc : Metadata) : Metadata :=
  set_sides (side_set RemoteSide None (sides doc)) (set_remote None doc).

(** [markSide(side, doc, doc); doc._deleted = true; delete doc.errors] *)
Definition erased (side : SideName) (doc : Metadata) : Metadata :=
  set_errors None (set_deleted true (markSide side doc (Some doc))).

Fixpoint delete_loop (side : SideName) (toPreserve : gset string) (docs : list Metadata)
  : list Metadata :=
  match docs with
  | [] => []
  | doc :: rest =>
      if preserves side toPreserve doc then
        dissociated doc
        :: delete_loop side ({[path_dirname (path doc)]} ∪ toPreserve) rest
      else erased side doc :: delete_loop side toPreserve rest
  end.

(** Remove a folder and every thing inside it *)
Definition deleteFolderRecursivelyAsync (side : SideName) (folder : Metadata)
  : M Response :=
  docs <- Pouch.byRecursivePath (_id folder) ;;
  (* In the changes feed, nested subfolder must be deleted
     before their parents, hence the reverse order. *)
  let docs := (rev docs ++ [folder])%list in
  let docs := delete_loop side ∅ docs in
  Pouch.bulkDocs docs ;;; ret (RBulk docs).

(** Remove a folder *)
Definition deleteFolderAsync (side : SideName) (doc : Metadata) : M Response :=
  found <- catch (d <- Pouch.get (_id doc) ;; ret (Some d))
                 (λ err, if bool_decide (err = PouchError 404) then ret None
                         else throw err) ;;
  match found with
  | None => ret RNull
  | Some folder =>
      if JS.truthy (side_get side (sides folder)) then
        deleteFolderRecursivelyAsync side folder
      else ret RNull
  end.

(** [restoreFolderAsync]: what the deletion of [was] throws is logged and
    dropped. *)
Definition restoreFolderAsync (fuel : nat) (side : SideName) (was doc : Metadata)
  : M Response :=
  catch (deleteFolderAsync side was ;;; ret tt) (λ _, ret tt) ;;;
  putFolderAsync fuel side doc.

End Merge.
End Merge.

(* ===================================================================== *)
(** ** The local watcher ([src/local/watcher.js]) *)
(* ===================================================================== *)

Module Watcher.

(** [fs.Stats], as far as the watcher reads it. *)
Record Stats := mkStats {
  mode : Z;
  size : nat;
  birthtime : option string;
  ctime : string;
  mtime : string
}.

(** The documents the watcher builds for [Prep]. *)
Record LocalDoc := mkLocalDoc {
  l_path : string;
  l_docType : DocType;
  l_checksum : option string;
  l_creationDate : string;
  l_lastModification : string;
  l_size : option nat;
  l_executable : bool
}.

(** The calls made to [this.prep], always with [this.side]. *)
Inductive PrepCall :=
  | addFile (side : SideName) (doc : LocalDoc)
  | updateFile (side : SideName) (doc : LocalDoc)
  | putFolder (side : SideName) (doc : LocalDoc)
  | moveFile (side : SideName) (doc : LocalDoc) (was : Metadata)
  | deleteFile (side : SideName) (path : string)
  | deleteFolder (side : SideName) (path : string)
  | deleteDoc (side : SideName) (doc : Metadata).

(** The closures handed to [setTimeout] and [setInterval]. *)
Inductive Callback :=
  | FileCheck (filePath : string)    (* [check] of [onUnlinkFile] *)
  | FileDone (filePath : string)     (* [done] of [onUnlinkFile] *)
  | DirCheck (folderPath : string)   (* [check] of [onUnlinkDir] *)
  | DirDone (folderPath : string)    (* [done] of [onUnlinkDir] *)
  | Resolve.                         (* [resolve] of the promise of [stop] *)

Record Timer := mkTimer {
  periodic : bool;       (* [setInterval] rather than [setTimeout] *)
  delay : nat;           (* milliseconds *)
  callback : Callback
}.

Inductive PendingKind := OfFile | OfDir.

(** A value of [this.pending]: the closures [clear], [done] and [check]
    of [onUnlinkFile] or of [onUnlinkDir] (they are closed over the path
    the record is stored at), and the [timeout] and [interval] handles. *)
Record Pending := mkPending {
  kind : PendingKind;
  timeout : option nat;
  interval : option nat
}.

Record State := mkState {
  side : SideName;
  paths : option (list string);
  pending : gmap string Pending;
  checksums : Z;
  timers : gmap nat Timer;      (* the armed timers, by handle *)
  next_handle : nat;
  prepCalls : list PrepCall     (* calls made so far, oldest first *)
}.

#[export] Instance Stats_eq_dec : EqDecision Stats.
Proof. solve_decision. Defined.
#[export] Instance LocalDoc_eq_dec : EqDecision LocalDoc.
Proof. solve_decision. Defined.
#[export] Instance PrepCall_eq_dec : EqDecision PrepCall.
Proof. solve_decision. Defined.
#[export] Instance Callback_eq_dec : EqDecision Callback.
Proof. solve_decision. Defined.
#[export] Instance Timer_eq_dec : EqDecision Timer.
Proof. solve_decision. Defined.
#[export] Instance PendingKind_eq_dec : EqDecision PendingKind.
Proof. solve_decision. Defined.
#[export] Instance Pending_eq_dec : EqDecision Pending.
Proof. solve_decision. Defined.

(** The state [start] leaves. *)
Definition start : State :=
  mkState LocalSide (Some []) ∅ 0 ∅ 0 [].

Definition EXECUTABLE_MASK : Z := Z.shiftl 1 6.

Definition with_paths (v : option (list string)) (st : State) : State :=
  mkState (side st) v (pending st) (checksums st) (timers st) (next_handle st) (prepCalls st).
Definition with_pending (v : gmap string Pending) (st : State) : State :=
  mkState (side st) (paths st) v (checksums st) (timers st) (next_handle st) (prepCalls st).
Definition with_checksums (v : Z) (st : State) : State :=
  mkState (side st) (paths st) (pending st) v (timers st) (next_handle st) (prepCalls st).
Definition with_timers (v : gmap nat Timer) (st : State) : State :=
  mkState (side st) (paths st) (pending st) (checksums st) v (next_handle st) (prepCalls st).

(** [this.prep.f(this.side, ...)] *)
Definition emit (c : SideName → PrepCall) (st : State) : State :=
  mkState (side st) (paths st) (pending st) (checksums st) (timers st) (next_handle st)
          (prepCalls st ++ [c (side st)])%list.

(** [setTimeout(cb, ms)] and [setInterval(cb, ms)]: the handle and the
    state with the timer armed. *)
Definition setTimer (per : bool) (cb : Callback) (ms : nat) (st : State) : nat * State :=
  (next_handle st,
   mkState (side st) (paths st) (pending st) (checksums st)
           (<[next_handle st := mkTimer per ms cb]> (timers st))
           (S (next_handle st)) (prepCalls st)).

(** [clearTimeout(h)], [clearInterval(h)]; nothing happens on [undefined]. *)
Definition clearTimer (h : option nat) (st : State) : State :=
  match h with
  | Some h => with_timers (delete h (timers st)) st
  | None => st
  end.

(** [if (this.paths) { this.paths.push(p) }] *)
Definition push_path (p : string) (st : State) : State :=
  match paths st with
  | Some ps => with_paths (Some (ps ++ [p])%list) st
  | None => st
  end.

Section Handlers.

Context `{PathModule}.

(** An helper to create a document for a file *)
Definition createDoc (filePath : string) (stats : Stats) (checksum : option string)
  : LocalDoc :=
  {| l_path := filePath; l_docType := File; l_checksum := checksum;
     l_creationDate := default (ctime stats) (birthtime stats);
     l_lastModification := mtime stats; l_size := Some (size stats);
     l_executable := negb (Z.eqb (Z.land (mode stats) EXECUTABLE_MASK) 0) |}.

(** Returns true if a direct sub-folder/file of the given path is pending *)
Definition hasPendingChild (folderPath : string) (st : State) : bool :=
  bool_decide (Exists (λ key, path_dirname key = folderPath)
                      (map fst (map_to_list (pending st)))).

(** [clear] of [onUnlinkFile] *)
Definition file_clear (filePath : string) (st : State) : Result State :=
  match pending st !! filePath with
  | None => Throw TypeError
  | Some p => Ok (with_pending (delete filePath (pending st)) (clearTimer (timeout p) st))
  end.

(** [done] of [onUnlinkFile] *)
Definition file_done (filePath : string) (st : State) : Result State :=
  match file_clear filePath st with
  | Ok st => Ok (emit (λ s, deleteFile s filePath) st)
  | Throw e => Throw e
  end.

(** [check] of [onUnlinkFile] *)
Definition file_check (filePath : string) (st : State) : Result State :=
  if Z.eqb (checksums st) 0 then file_done filePath st
  else
    let '(h, st) := setTimer false (FileCheck filePath) 100 st in
    match pending st !! filePath with
    | None => Throw TypeError
    | Some p =>
        Ok (with_pending (<[filePath := mkPending (kind p) (Some h) (interval p)]>
                            (pending st)) st)
    end.

(** [clear] of [onUnlinkDir] *)
Definition dir_clear (folderPath : string) (st : State) : Result State :=
  match pending st !! folderPath with
  | None => Throw TypeError
  | Some p => Ok (with_pending (delete folderPath (pending st)) (clearTimer (interval p) st))
  end.

(** [done] of [onUnlinkDir] *)
Definition dir_done (folderPath : string) (st : State) : Result State :=
  match dir_clear folderPath st with
  | Ok st => Ok (emit (λ s, deleteFolder s folderPath) st)
  | Throw e => Throw e
  end.

(** [check] of [onUnlinkDir] *)
Definition dir_check (folderPath : string) (st : State) : Result State :=
  if negb (hasPendingChild folderPath st) then dir_done folderPath st else Ok st.

Definition run (cb : Callback) (st : State) : Result State :=
  match cb with
  | FileCheck p => file_check p st
  | FileDone p => file_done p st
  | DirCheck p => dir_check p st
  | DirDone p => dir_done p st
  | Resolve => Ok st
  end.

(** [if (this.pending[p]) { this.pending[p].done() }] *)
Definition finalize_pending (p : string) (st : State) : Result State :=
  match pending st !! p with
  | None => Ok st
  | Some r =>
      match kind r with
      | OfFile => file_done p st
      | OfDir => dir_done p st
      end
  end.

(** The timer with handle [h] comes due: its callback runs; a timeout is
    disarmed by firing, an interval stays armed. *)
Definition fire (h : nat) (st : State) : Result State :=
  match timers st !! h with
  | None => Ok st
  | Some t =>
      run (callback t) (if periodic t then st else with_timers (delete h (timers st)) st)
  end.

(** File deletion detected *)
Definition onUnlinkFile (filePath : string) (st : State) : State :=
  let '(h, st) := setTimer false (FileCheck filePath) 1250 st in
  with_pending (<[filePath := mkPending OfFile (Some h) None]> (pending st)) st.

(** Folder deletion detected *)
Definition onUnlinkDir (folderPath : string) (st : State) : State :=
  let '(h, st) := setTimer true (DirDone folderPath) 350 st in
  with_pending (<[folderPath := mkPending OfDir None (Some h)]> (pending st)) st.

(** New file detected: what [onAddFile] does before the checksum is
    known. *)
Definition onAddFile (filePath : string) (st : State) : Result State :=
  match finalize_pending filePath (push_path filePath st) with
  | Ok st => Ok (with_checksums (checksums st + 1) st)
  | Throw e => Throw e
  end.

(** What the callback given to [createDoc] still waits for. *)
Inductive AddFileStep :=
  | Settled (st : State)
  | AwaitByChecksum (keys : list string) (doc : LocalDoc) (st : State).

(** The callback of [createDoc] in [onAddFile], called with the error
    or the checksum. *)
Definition onAddFile_created (filePath : string) (stats : Stats)
    (answer : Error + string) (st : State) : AddFileStep :=
  match answer with
  | inl _ => Settled (with_checksums (checksums st - 1) st)
  | inr checksum =>
      let doc := createDoc filePath stats (Some checksum) in
      let keys := map fst (map_to_list (pending st)) in
      if Nat.eqb (length keys) 0 then
        Settled (emit (λ s, addFile s doc) (with_checksums (checksums st - 1) st))
      else AwaitByChecksum keys doc st
  end.

(** The callback of [pouch.byChecksum] in [onAddFile], called with the
    error or the documents. *)
Definition onAddFile_looked_up (keys : list string) (doc : LocalDoc)
    (answer : Error + list Metadata) (st : State) : Result State :=
  let st := with_checksums (checksums st - 1) st in
  match answer with
  | inl _ => Ok (emit (λ s, addFile s doc) st)
  | inr docs =>
      match find (λ d, bool_decide (path d ∈ keys)) docs with
      | Some same =>
          match pending st !! path same with
          | None => Throw TypeError
          | Some p =>
              let st := clearTimer (timeout p) st in
              let st := with_pending (delete (path same) (pending st)) st in
              Ok (emit (λ s, moveFile s doc same) st)
          end
      | None => Ok (emit (λ s, addFile s doc) st)
      end
  end.

(** The two callbacks in a row, nothing happening in between. *)
Definition onAddFile_checksummed (filePath : string) (stats : Stats) (checksum : string)
    (byChecksum : Error + list Metadata) (st : State) : Result State :=
  match onAddFile_created filePath stats (inr checksum) st with
  | Settled st => Ok st
  | AwaitByChecksum keys doc st => onAddFile_looked_up keys doc byChecksum st
  end.

(** New directory detected *)
Definition onAddDir (folderPath : string) (stats : Stats) (st : State) : Result State :=
  if bool_decide (folderPath = EmptyString) then Ok st
  else
    match finalize_pending folderPath (push_path folderPath st) with
    | Ok st =>
        let doc := {| l_path := folderPath; l_docType := Folder; l_checksum := None;
                      l_creationDate := ctime stats; l_lastModification := mtime stats;
                      l_size := None; l_executable := false |} in
        Ok (emit (λ s, putFolder s doc) st)
    | Throw e => Throw e
    end.

(** File update detected: the callback of [createDoc] in [onChange]. *)
Definition onChange_created (filePath : string) (stats : Stats)
    (answer : Error + string) (st : State) : State :=
  match answer with
  | inl _ => st
  | inr checksum => emit (λ s, updateFile s (createDoc filePath stats (Some checksum))) st
  end.

(** What [prep.deleteDoc] passes to its callback for each document. *)
Variable deleteDoc_error : Metadata → option Error.

(** [async.eachSeries(docs, iteratee, final)] for the iteratee of
    [onReady]: the documents in turn, until one reports an error. *)
Fixpoint eachSeries (docs : list Metadata) (st : State) : Result (State * option Error) :=
  match docs with
  | [] => Ok (st, None)
  | doc :: rest =>
      match paths st with
      | None => Throw TypeError
      | Some ps =>
          if bool_decide (path doc ∈ ps) then eachSeries rest st
          else
            let st := emit (λ s, deleteDoc s doc) st in
            match deleteDoc_error doc with
            | Some e => Ok (st, Some e)
            | None => eachSeries rest st
            end
      end
  end.

(** Try to detect removed files&folders after chokidar has finished its
    initial scan: the callback of [pouch.byRecursivePath('')], called
    with the error or the documents. The result holds what [callback]
    is called with. *)
Definition onReady (answer : Error + list Metadata) (st : State)
  : Result (State * option Error) :=
  match answer with
  | inl err => Ok (st, Some err)
  | inr docs =>
      match eachSeries (rev docs) st with
      | Ok (st, err) => Ok (with_paths None st, err)
      | Throw e => Throw e
      end
  end.

(** The loop of [stop]: [done()] of every record of [this.pending].
    [order] is the order in which [for ... in] visits the keys; a key that
    is gone when its turn comes is passed over. *)
Fixpoint stop_loop (order : list string) (st : State) : Result State :=
  match order with
  | [] => Ok st
  | key :: rest =>
      match finalize_pending key st with
      | Ok st => stop_loop rest st
      | Throw e => Throw e
      end
  end.

(** [stop]: the loop, then [setTimeout(resolve, 3000)] for the promise it
    returns. (Chokidar, which is closed first, is not part of the state.) *)
Definition stop (order : list string) (st : State) : Result State :=
  match stop_loop order st with
  | Ok st => Ok (setTimer false Resolve 3000 st).2
  | Throw e => Throw e
  end.

End Handlers.

End Watcher.

(* ===================================================================== *)
(** ** Sample instances and documents, to run the model on *)
(* ===================================================================== *)

Module Sample.

(** Stand-ins for the comparisons of [src/metadata.js]. *)
#[export] Instance metadata : MetadataModule := {|
  sameBinary a b := bool_decide (md5sum a = md5sum b);
  sameFile a b := bool_decide ((path a, docType a, md5sum a, doc_size a, tags a)
                               = (path b, docType b, md5sum b, doc_size b, tags b));
  sameFolder a b := bool_decide ((path a, docType a, tags a)
                                 = (path b, docType b, tags b))
|}.

Fixpoint no_colon (s : string) : string :=
  match s with
  | EmptyString => EmptyString
  | String c s' => String (if Ascii.eqb c ":" then "-"%char else c) (no_colon s')
  end.

#[export] Instance fsutils : FsUtils := {| validName := no_colon |}.

(** Both sides rename without failing. *)
#[export] Instance sides_ok : Collaborators := {| sideResolveConflict _ _ _ := None |}.

Definition doc (id : string) (ty : DocType) (sum : option string) (s : Sides) : Metadata :=
  {| _id := id; _rev := None; path := id; docType := ty; md5sum := sum;
     doc_size := None; class := None; mime := None; tags := None; sides := s;
     remote := None; _deleted := false; moveTo := None; trashed := None;
     errors := None; updated_at := None; creationDate := None;
     lastModification := None; executable := false |}.

Definition both (l r : nat) : Sides := mkSides (Some l) (Some r).

(** [s.repeat(n)] *)
Fixpoint times (n : nat) (s : string) : string :=
  match n with
  | 0 => EmptyString
  | S n' => s +:+ times n' s
  end.

(** The journal after [docs] have been put, one after the other, into an
    empty one. *)
Definition world_of (docs : list Metadata) : World :=
  mkWorld (default ∅ (Pouch.bulk_journal ∅ docs)) [] "2017-06-19T08:19:26.769Z".

Definition stats : Watcher.Stats :=
  Watcher.mkStats 420 12 None "2017-06-19T08:19:26.769Z" "2017-06-19T08:19:26.769Z".

End Sample.

#[local] Existing Instances Sample.metadata Sample.fsutils Sample.sides_ok.

(* ===================================================================== *)
(** ** Vocabulary of the statements *)
(* ===================================================================== *)

(** A world is well formed when every revision is filed under its own id. *)
Definition wf_world (w : World) : Prop :=
  map_Forall (λ id hist, Forall (λ d, _id d = id) hist) (journal w).

#[export] Instance wf_world_dec w : Decision (wf_world w).
Proof. unfold wf_world. apply _. Defined.

(** No live document at [id] or below it. *)
Definition free_below (w : World) (id : string) : Prop :=
  ∀ k, k = id ∨ Pouch.under id k = true → Pouch.current w k = None.

(** The document a conflict on [doc] renames it to. *)
Definition renamed `{PathModule} `{FsUtils} (w : World) (doc : Metadata) : Metadata :=
  set_path (Merge.conflict_path (validName (now w)) (path doc)) doc.

(** The world after the handler of [side] was asked to rename [doc]. *)
Definition asked `{PathModule} `{FsUtils} (side : SideName) (doc : Metadata) (w : World)
  : World :=
  mkWorld (journal w) (calls w ++ [mkConflictCall side (renamed w doc) doc]) (now w).


(** Both sides changed the file since the local side last saw it. *)
Definition both_changed (file : Metadata) : Prop :=
  docType file = File
  ∧ sides_local (sides file) ≠ None
  ∧ JS.truthy (sides_remote (sides file)) = true
  ∧ sides_remote (sides file) ≠ sides_local (sides file).


#[export] Instance both_changed_dec file : Decision (both_changed file).
Proof. unfold both_changed. apply _. Defined.








(** The tombstone [deleteFileAsync] writes for [file]. *)
Definition tombstone (side : SideName) (file : Metadata) : Metadata :=
  set_errors None (set_deleted true (markSide side file (Some file))).

(** The folder document that an aborted trash puts back. *)
Definition untrashed (side : SideName) (was : Metadata) : Metadata :=
  set_sides (side_set side None (sides (set_errors None was))) (set_errors None was).

(** The tombstone and the moved copy that [moveFolderRecursivelyAsync] makes
    of a descendant. *)
Definition tomb_of (side : SideName) (folder was doc : Metadata) : Metadata :=
  (Merge.move_child side folder was doc).1.
Definition moved_of (side : SideName) (folder was doc : Metadata) : Metadata :=
  (Merge.move_child side folder was doc).2.

(** The id of a descendant of [was] after the prefix [was._id], and its id
    with [folder._id] in place of that prefix. *)
Definition moved_tail (was d : Metadata) : string :=
  JS.sliceFrom (String.length (_id was)) (_id d).
Definition moved_id (folder was d : Metadata) : string :=
  _id folder +:+ moved_tail was d.


(** The documents of [docs] whose path the scan has not seen. *)
Definition unseen (ps : list string) (docs : list Metadata) : list Metadata :=
  filter (λ d, path d ∉ ps) docs.

(** The state after the calls [calls] to [Prep]. *)
Definition emit_all (calls : list Watcher.PrepCall) (st : Watcher.State) : Watcher.State :=
  Watcher.mkState (Watcher.side st) (Watcher.paths st) (Watcher.pending st)
    (Watcher.checksums st) (Watcher.timers st) (Watcher.next_handle st)
    (Watcher.prepCalls st ++ calls).

(** The documents of [gone] that get a [deleteDoc], and the error that ends
    the sweep, if any: the documents up to the first one whose [deleteDoc]
    reports an error, that one included. *)
Fixpoint swept (deleteDoc_error : Metadata → option Error) (gone : list Metadata)
  : list Metadata * option Error :=
  match gone with
  | [] => ([], None)
  | d :: rest =>
      match deleteDoc_error d with
      | Some e => ([d], Some e)
      | None => let '(sent, err) := swept deleteDoc_error rest in (d :: sent, err)
      end
  end.

(** C8 as the spec has it: every document whose path was not seen gets
    its [deleteDoc]. *)
Definition sweep_complete (deleteDoc_error : Metadata → option Error)
    (docs : list Metadata) (st : Watcher.State) : Prop :=
  ∀ st' err ps, Watcher.onReady deleteDoc_error (inr docs) st = Ok (st', err) →
    Watcher.paths st = Some ps →
    ∀ d, d ∈ docs → path d ∉ ps →
      Watcher.deleteDoc (Watcher.side st) d ∈ Watcher.prepCalls st'.

(** [x] comes before [y] in [l]. *)
Definition before {A} (x y : A) (l : list A) : Prop :=
  ∃ l1 l2 l3, l = (l1 ++ x :: l2 ++ y :: l3)%list.

(** A live document is filed at [id]. *)
Definition live (w : World) (id : string) : Prop := is_Some (Pouch.current w id).

#[export] Instance live_dec w id : Decision (live w id).
Proof. unfold live. apply _. Defined.

(** No write took a live document away. *)
Definition keeps_lives (w w' : World) : Prop := ∀ id, live w id → live w' id.

(** Every live document but those at the top has a live document at the
    [dirname] of its id. *)
Definition tree_closed `{PathModule} (w : World) : Prop :=
  ∀ id, live w id → path_dirname id = "." ∨ live w (path_dirname id).

(** [w'] has every live document of [w], and what it has more is at the
    top or has a live document at the [dirname] of its id. *)
Definition grows `{PathModule} (w w' : World) : Prop :=
  keeps_lives w w'
  ∧ ∀ id, live w' id → live w id ∨ path_dirname id = "." ∨ live w' (path_dirname id).

(** What a function that ensures the parents has to do for the write that
    follows it. *)
Definition ensures `{PathModule} (ensure : SideName → Metadata → M unit) : Prop :=
  ∀ side doc w r w', ensure side doc w = (r, w') →
    grows w w'
    ∧ (r = Ok tt → path_dirname (_id doc) = "." ∨ live w' (path_dirname (_id doc))).

(** The documents [deleteFolderRecursivelyAsync] goes through for [folder],
    in the order of the loop. *)
Definition affected (w : World) (folder : Metadata) : list Metadata :=
  (rev (Pouch.docs_under w (_id folder)) ++ [folder])%list.

(** The call the record [r] pending at [key] makes when it is finalized. *)
Definition final_call (side : SideName) (key : string) (r : Watcher.Pending)
  : Watcher.PrepCall :=
  match Watcher.kind r with
  | Watcher.OfFile => Watcher.deleteFile side key
  | Watcher.OfDir => Watcher.deleteFolder side key
  end.

(** The handle a record's own [clear] disarms. *)
Definition own_handle (r : Watcher.Pending) : option nat :=
  match Watcher.kind r with
  | Watcher.OfFile => Watcher.timeout r
  | Watcher.OfDir => Watcher.interval r
  end.

(** The callback that the timer of the record [r] pending at [p] runs. *)
Definition timer_callback (p : string) (r : Watcher.Pending) : Watcher.Callback :=
  match Watcher.kind r with
  | Watcher.OfFile => Watcher.FileCheck p
  | Watcher.OfDir => Watcher.DirDone p
  end.

(** The timer [t] with handle [h] is the one of the record [r] pending at
    [p]: a timeout that runs [check] for a file, an interval that runs
    [done] for a folder. *)
Definition timer_of (p : string) (r : Watcher.Pending) (h : nat) (t : Watcher.Timer)
  : Prop :=
  own_handle r = Some h
  ∧ Watcher.callback t = timer_callback p r
  ∧ Watcher.periodic t = match Watcher.kind r with
                         | Watcher.OfFile => false
                         | Watcher.OfDir => true
                         end.

(** Every armed timer is the one of a pending record, and every pending
    record has its timer armed; the handles in use are below the next one. *)
Definition armed_at (pend : gmap string Watcher.Pending) (tim : gmap nat Watcher.Timer)
    (next : nat) : Prop :=
  (∀ h t, tim !! h = Some t →
     (h < next)%nat ∧ ∃ p r, pend !! p = Some r ∧ timer_of p r h t)
  ∧ (∀ p r, pend !! p = Some r → ∃ h t, tim !! h = Some t ∧ timer_of p r h t).

Definition armed (st : Watcher.State) : Prop :=
  armed_at (Watcher.pending st) (Watcher.timers st) (Watcher.next_handle st).

(** The state after the record [r] pending at [key] was finalized. *)
Definition finalized (key : string) (r : Watcher.Pending) (st : Watcher.State)
  : Watcher.State :=
  Watcher.mkState (Watcher.side st) (Watcher.paths st)
    (delete key (Watcher.pending st)) (Watcher.checksums st)
    (Watcher.timers (Watcher.clearTimer (own_handle r) st)) (Watcher.next_handle st)
    (Watcher.prepCalls st ++ [final_call (Watcher.side st) key r]).

(** [p] does not begin with a slash. *)
Definition relative (p : string) : bool :=
  match p with
  | String c _ => negb (Posix.is_slash c)
  | EmptyString => true
  end.

(** What [addFileAsync], [updateFileAsync] and [putFolderAsync] write when
    nothing is found at [doc._id]. *)
Definition created (side : SideName) (doc : Metadata) : Metadata :=
  set_tags (orElse (tags (markSide side doc None)) (Some [])) (markSide side doc None).

(* ===================================================================== *)
(** ** Facts about the primitives *)
(* ===================================================================== *)

Example posix_dirname_ex :
  map Posix.dirname ["a/b"; "a"; "/a"; "a//b"; "a/b/"; "//a"; EmptyString; "/a/b"]
  = ["a"; "."; "/"; "a/"; "a"; "//"; "."; "/a"].
Proof. reflexivity. Qed.

Example posix_extname_ex :
  map Posix.extname ["a/b.txt"; ".bashrc"; "a."; "a..b"; "x/.."; "a.b/c"; "a.tar.gz"; "a.b/"]
  = [".txt"; EmptyString; "."; ".b"; EmptyString; EmptyString; ".gz"; ".b"].
Proof. reflexivity. Qed.

Example posix_basename_ex :
  map (λ p, Posix.basename p (Posix.extname p)) ["a/b.txt"; "note"; "d/.bashrc"; "a.tar.gz"; "x/y/"]
  = ["b"; "note"; ".bashrc"; "a.tar"; "y"].
Proof. reflexivity. Qed.

Example posix_join_ex :
  [Posix.join "." "b"; Posix.join "a" "b"; Posix.join "a/" "../b"; Posix.join "/" "x"]
  = ["b"; "a/b"; "b"; "/x"].
Proof. reflexivity. Qed.

(** [replace] with a string pattern touches the first occurrence only, and
    reads [$&] and [$$] in the replacement. *)
Example replace_ex :
  [JS.replace "dir/a" "dir" "dir2"; JS.replace "a/dir/dir" "dir" "x";
   JS.replace "dir/a" "dir" "a$&b"; JS.replace "dir/a" "dir" "p$$q"; JS.replace "ab" "z" "q"]
  = ["dir2/a"; "a/x/dir"; "adirb/a"; "p$q/a"; "ab"].
Proof. reflexivity. Qed.

(** [length] and [slice] count code units: one for a letter with an accent
    or an ideogram, whatever the bytes it takes, and two for a character
    outside the Basic Multilingual Plane. *)
Example length_ex :
  map JS.length ["abc"; "é"; "日本"; "😀"; "a😀b"] = [3; 1; 2; 2; 4]
  ∧ map String.length ["abc"; "é"; "日本"; "😀"; "a😀b"] = [3; 2; 6; 4; 6].
Proof. split; reflexivity. Qed.

Example slice_ex :
  [JS.slice 2 "héllo"; JS.slice 1 "日本"; JS.slice 2 "😀x"; JS.slice 3 "a😀b"; JS.slice 9 "né"]
  = ["hé"; "日"; "😀"; "a😀"; "né"].
Proof. reflexivity. Qed.

(** A cut between the surrogates D83D and DE00 of U+1F600 leaves D83D. *)
Example slice_splits :
  JS.slice 2 "a😀"
  = String "a" (String (ascii_of_N 237) (String (ascii_of_N 160)
                  (String (ascii_of_N 189) EmptyString)))
  ∧ JS.length (JS.slice 2 "a😀") = 2.
Proof. split; reflexivity. Qed.

Lemma app_cons (a : ascii) (s t : string) : String a s +:+ t = String a (s +:+ t).
Proof. reflexivity. Qed.

Lemma units_continuation (x : N) : (x < 64)%N → JS.units (ascii_of_N (128 + x)) = 0.
Proof.
  intros Hx. unfold JS.units, JS.is_continuation.
  rewrite N_ascii_embedding by lia.
  assert ((128 <=? 128 + x)%N = true) as -> by (apply N.leb_le; lia).
  assert ((128 + x <? 192)%N = true) as -> by (apply N.ltb_lt; lia).
  done.
Qed.

Lemma length_high_surrogate (c : ascii) (rest : string) :
  JS.length (JS.high_surrogate c rest) = 1.
Proof.
  unfold JS.high_surrogate. cbn [JS.length].
  rewrite !units_continuation by (apply N.mod_lt; lia).
  reflexivity.
Qed.

(** [s.slice(0, n).length] is [n], or [s.length] where that is less. *)
Lemma length_slice (n : nat) (s : string) :
  JS.length (JS.slice n s) = Nat.min n (JS.length s).
Proof.
  revert n. induction s as [|c s IH]; intros n; [by destruct n|].
  cbn [JS.slice JS.length]. unfold JS.units.
  destruct (JS.is_continuation c) eqn:Hc.
  { cbn [JS.length]. unfold JS.units. by rewrite Hc, IH. }
  destruct (JS.is_lead4 c) eqn:Hl.
  - destruct n as [|[|n]]; [done| |].
    + rewrite length_high_surrogate. lia.
    + cbn [JS.length]. unfold JS.units. rewrite Hc, Hl, IH. lia.
  - destruct n as [|n]; [done|].
    cbn [JS.length]. unfold JS.units. rewrite Hc, Hl, IH. lia.
Qed.

(** A string of [n] code units or less is left as it is. *)
Lemma slice_all (n : nat) (s : string) : (JS.length s ≤ n)%nat → JS.slice n s = s.
Proof.
  revert n. induction s as [|c s IH]; intros n; [done|].
  cbn [JS.slice JS.length]. unfold JS.units.
  destruct (JS.is_continuation c); [intros Hn; by rewrite IH|].
  destruct (JS.is_lead4 c).
  - destruct n as [|[|n]]; intros Hn; [lia..|]. rewrite IH; [done|lia].
  - destruct n as [|n]; intros Hn; [lia|]. rewrite IH; [done|lia].
Qed.

(** What [slice] keeps are the first bytes of the string, but for the
    character that the cut splits. *)
Lemma slice_prefix (n : nat) (s : string) :
  String.prefix (JS.slice n s) s = true
  ∨ ∃ kept c rest,
      s = kept +:+ String c rest ∧ JS.is_lead4 c = true
      ∧ S (JS.length kept) = n
      ∧ JS.slice n s = kept +:+ JS.high_surrogate c rest.
Proof.
  revert n. induction s as [|c s IH]; intros n; [by left|].
  assert (Hstep : ∀ m, JS.units c + m = n →
            String.prefix (String c (JS.slice m s)) (String c s) = true
            ∨ ∃ kept c0 rest,
                String c s = kept +:+ String c0 rest ∧ JS.is_lead4 c0 = true
                ∧ S (JS.length kept) = n
                ∧ String c (JS.slice m s) = kept +:+ JS.high_surrogate c0 rest).
  { intros m Hm. destruct (IH m) as [Hp|(kept & c0 & rest & -> & Hl & Hlen & Hs)].
    - left. simpl. by destruct (ascii_dec c c).
    - right. exists (String c kept), c0, rest. split; [done|]. split; [done|].
      split; [cbn [JS.length]; lia|]. by rewrite Hs. }
  cbn [JS.slice]. unfold JS.units in Hstep.
  destruct (JS.is_continuation c) eqn:Hc; [by apply Hstep|].
  destruct (JS.is_lead4 c) eqn:Hl.
  - destruct n as [|[|n]]; [by left| |apply Hstep; lia].
    right. by exists EmptyString, c, s.
  - destruct n as [|n]; [by left|]. apply Hstep. lia.
Qed.

Lemma app_empty_l (s : string) : EmptyString +:+ s = s.
Proof. reflexivity. Qed.

Lemma app_empty_r (s : string) : s +:+ EmptyString = s.
Proof. induction s as [|a s IH]; [done|]. by rewrite app_cons, IH. Qed.

Lemma app_assoc_s (s t u : string) : (s +:+ t) +:+ u = s +:+ (t +:+ u).
Proof. induction s as [|a s IH]; [done|]. by rewrite !app_cons, IH. Qed.

Lemma length_app_s (s t : string) :
  String.length (s +:+ t) = String.length s + String.length t.
Proof. induction s as [|a s IH]; [done|]. rewrite app_cons. simpl. by rewrite IH. Qed.

Lemma slice0_length (n : nat) (s : string) :
  String.length (JS.slice0 n s) = Nat.min n (String.length s).
Proof.
  unfold JS.slice0. revert n.
  induction s as [|a s IH]; intros [|n]; simpl; try done.
  by rewrite IH.
Qed.

Lemma slice0_all (n : nat) (s : string) : (String.length s ≤ n)%nat → JS.slice0 n s = s.
Proof.
  unfold JS.slice0. revert n.
  induction s as [|a s IH]; intros [|n] Hn; simpl in *; try done; try lia.
  f_equal. apply IH. lia.
Qed.

Lemma slice0_app (s t : string) : JS.slice0 (String.length s) (s +:+ t) = s.
Proof.
  unfold JS.slice0. induction s as [|a s IH].
  - simpl. by destruct t.
  - rewrite app_cons. simpl. by rewrite IH.
Qed.

Lemma sliceFrom_app (s t : string) : JS.sliceFrom (String.length s) (s +:+ t) = t.
Proof. induction s as [|a s IH]; [done|]. by rewrite app_cons. Qed.

Lemma slice0_sliceFrom (n : nat) (s : string) : JS.slice0 n s +:+ JS.sliceFrom n s = s.
Proof.
  unfold JS.slice0. revert n.
  induction s as [|a s IH]; intros [|n]; simpl; try done.
  by rewrite app_cons, IH.
Qed.

Lemma prefix_app (p s : string) : String.prefix p (p +:+ s) = true.
Proof.
  induction p as [|a p IH]; [by destruct s|].
  rewrite app_cons. simpl. destruct (ascii_dec a a); [done | congruence].
Qed.

Lemma prefix_inv (p s : string) :
  String.prefix p s = true → s = p +:+ JS.sliceFrom (String.length p) s.
Proof.
  revert s. induction p as [|a p IH]; intros s Hp; [done|].
  destruct s as [|b s]; [done|]. simpl in Hp.
  destruct (ascii_dec a b) as [->|]; [|done].
  rewrite app_cons. simpl. f_equal. by apply IH.
Qed.

Lemma prefix_iff (p s : string) : String.prefix p s = true ↔ ∃ r, s = p +:+ r.
Proof.
  split.
  - intros Hp. eexists. by apply prefix_inv.
  - intros [r ->]. apply prefix_app.
Qed.

Lemma prefix_length (p s : string) :
  String.prefix p s = true → (String.length p ≤ String.length s)%nat.
Proof. intros [r ->]%prefix_iff. rewrite length_app_s. lia. Qed.

Lemma indexOf_prefix (pat s : string) :
  String.prefix pat s = true → JS.indexOf pat s = Some 0.
Proof. intros Hp. destruct s; simpl; simpl in Hp; by rewrite Hp. Qed.

Lemma getSubstitution_dollarFree (matched before after repl : string) :
  JS.dollarFree repl = true → JS.getSubstitution matched before after repl = repl.
Proof.
  induction repl as [|a repl IH]; [done|]. simpl.
  intros [Ha Hr]%andb_prop. apply negb_true_iff in Ha. rewrite Ha.
  by rewrite IH.
Qed.

(** On a text that begins with the pattern, and with a replacement free of
    dollar signs, [replace] substitutes the prefix. *)
Lemma replace_prefix (s pat repl : string) :
  String.prefix pat s = true →
  JS.dollarFree repl = true →
  JS.replace s pat repl = repl +:+ JS.sliceFrom (String.length pat) s.
Proof.
  intros Hp Hd. unfold JS.replace. rewrite (indexOf_prefix _ _ Hp). simpl.
  rewrite getSubstitution_dollarFree by done.
  unfold JS.slice0. by destruct s.
Qed.

(* ===================================================================== *)
(** ** Facts about the journal *)
(* ===================================================================== *)

Lemma try_get_eq (id : string) (w : World) :
  Merge.try_get id w = (Ok (Pouch.current w id), w).
Proof.
  unfold Merge.try_get, catch, bind, ret, Pouch.get.
  by destruct (Pouch.current w id).
Qed.

Lemma wf_current (w : World) (id : string) (d : Metadata) :
  wf_world w → Pouch.current w id = Some d → _id d = id.
Proof.
  unfold wf_world, Pouch.current. intros Hwf Hc.
  destruct (journal w !! id) as [hist|] eqn:Hj; [|done]. simpl in Hc.
  specialize (Hwf id hist Hj). destruct hist as [|d0 hist]; [done|]. simpl in Hc.
  destruct (_deleted d0); [done|]. inversion Hc; subst.
  by inversion Hwf.
Qed.

Lemma current_live (w : World) (id : string) (d : Metadata) :
  Pouch.current w id = Some d → _deleted d = false.
Proof.
  unfold Pouch.current. destruct (journal w !! id) as [[|d0 hist]|]; simpl; try done.
  destruct (_deleted d0) eqn:Hd; [done|]. by intros [= <-].
Qed.

Lemma current_head (w : World) (id : string) (d : Metadata) :
  Pouch.current w id = Some d → ∃ hist, journal w !! id = Some (d :: hist).
Proof.
  unfold Pouch.current. destruct (journal w !! id) as [[|d0 hist]|]; simpl; try done.
  destruct (_deleted d0); [done|]. intros [= <-]. by exists hist.
Qed.

Lemma id_set_rev v d : _id (set_rev v d) = _id d.
Proof. by destruct d. Qed.

Lemma put_journal_wf (w : World) (doc : Metadata) (j : gmap string (list Metadata)) :
  wf_world w → Pouch.put_journal (journal w) doc = Some j →
  wf_world (Pouch.with_journal j w).
Proof.
  unfold wf_world, Pouch.put_journal. intros Hwf Hput.
  destruct (Pouch.rev_matches _ doc); [|done]. inversion Hput; subst; clear Hput.
  simpl. apply map_Forall_insert_2; [|done].
  constructor; [apply id_set_rev|].
  destruct (journal w !! _id doc) as [hist|] eqn:Hj; simpl; [|constructor].
  by apply (Hwf _ _ Hj).
Qed.

Lemma bulk_journal_wf (docs : list Metadata) (w : World)
    (j : gmap string (list Metadata)) :
  wf_world w → Pouch.bulk_journal (journal w) docs = Some j →
  wf_world (Pouch.with_journal j w).
Proof.
  revert w. induction docs as [|d docs IH]; intros w Hwf; simpl.
  - intros [= <-]. by destruct w.
  - destruct (Pouch.put_journal (journal w) d) as [j1|] eqn:Hput; [|done].
    intros Hbulk. apply (IH (Pouch.with_journal j1 w)); [|done].
    by apply (put_journal_wf w d).
Qed.

(** The worlds built from the empty journal by writes are well formed. *)
Lemma world_of_wf (docs : list Metadata) : wf_world (Sample.world_of docs).
Proof.
  unfold Sample.world_of.
  destruct (Pouch.bulk_journal ∅ docs) as [j|] eqn:Hbulk; simpl.
  - apply (bulk_journal_wf docs (mkWorld ∅ [] EmptyString) j); [|done].
    unfold wf_world. simpl. apply map_Forall_empty.
  - unfold wf_world. simpl. apply map_Forall_empty.
Qed.

(** A document read from the journal can always be written back. *)
Lemma rev_matches_head (d d' : Metadata) (hist : list Metadata) :
  _rev d' = _rev d → Pouch.rev_matches (d :: hist) d' = true.
Proof. intros Hr. simpl. rewrite bool_decide_eq_true_2; done. Qed.

Lemma put_other (doc : Metadata) (w w' : World) (r : Result Metadata) (id : string) :
  Pouch.put doc w = (r, w') → id ≠ _id doc → journal w' !! id = journal w !! id.
Proof.
  unfold Pouch.put, Pouch.put_journal. intros Hp Hne.
  destruct (Pouch.rev_matches _ doc); inversion Hp; subst; [|done].
  simpl. by rewrite lookup_insert_ne.
Qed.

Lemma put_calls (doc : Metadata) (w w' : World) (r : Result Metadata) :
  Pouch.put doc w = (r, w') → calls w' = calls w ∧ now w' = now w.
Proof.
  unfold Pouch.put. intros Hp.
  destruct (Pouch.put_journal _ doc); inversion Hp; subst; done.
Qed.

(** [id] lies strictly below [prefix]. *)
Lemma under_ne (prefix id : string) : Pouch.under prefix id = true → id ≠ prefix.
Proof.
  unfold Pouch.under. intros Hu%prefix_length ->.
  rewrite length_app_s in Hu. simpl in Hu. lia.
Qed.

Lemma under_inv (prefix id : string) :
  Pouch.under prefix id = true →
  id = prefix +:+ JS.sliceFrom (String.length prefix) id
  ∧ ∃ rest, JS.sliceFrom (String.length prefix) id = "/" +:+ rest.
Proof.
  unfold Pouch.under. intros [r Hr]%prefix_iff.
  rewrite app_assoc_s in Hr. subst id.
  rewrite sliceFrom_app. split; [done|]. by exists r.
Qed.

Lemma under_app (prefix rest : string) : Pouch.under prefix (prefix +:+ "/" +:+ rest) = true.
Proof. unfold Pouch.under. rewrite <- app_assoc_s. apply prefix_app. Qed.

(* ===================================================================== *)
(** ** Conflict resolution *)
(* ===================================================================== *)

Section Conflicts.

Context `{PathModule} `{MetadataModule} `{FsUtils} `{Collaborators}.

Lemma resolveConflictAsync_eq (side : SideName) (doc : Metadata) (w : World) :
  Merge.resolveConflictAsync side doc w =
  (match sideResolveConflict side (renamed w doc) doc with
   | None => Ok (renamed w doc)
   | Some e => Throw e
   end, asked side doc w).
Proof.
  unfold Merge.resolveConflictAsync, Merge.side_resolveConflictAsync, Merge.date_now,
    bind, ret, renamed, asked. simpl.
  by destruct (sideResolveConflict _ _ _).
Qed.

Lemma resolveConflictAsync_Ok (side : SideName) (doc dst : Metadata) (w w' : World) :
  Merge.resolveConflictAsync side doc w = (Ok dst, w') →
  dst = renamed w doc ∧ w' = asked side doc w.
Proof.
  rewrite resolveConflictAsync_eq.
  destruct (sideResolveConflict _ _ _); intros [= <- <-]; done.
Qed.

(** C3. The path a conflict gives to a document is [dirname(path)] joined
    with the basename without its extension, cut to its first 180
    characters, then ["-conflict-"], the date made safe for a file name,
    and the extension. Characters are counted as [base.length] and
    [base.slice] count them, in UTF-16 code units: what is kept has 180 of
    them, or as many as the basename where that is less, and a basename of
    180 or less is kept as it is; what is kept are the first bytes of the
    basename, but for a character outside the Basic Multilingual Plane
    that the cut splits, of which the high surrogate stays. *)
Theorem resolveConflict_path (side : SideName) (doc dst : Metadata) (w w' : World) :
  Merge.resolveConflictAsync side doc w = (Ok dst, w') →
  let ext := path_extname (path doc) in
  let base := path_basename (path doc) ext in
  let short := JS.slice 180 base in
  path dst = path_join (path_dirname (path doc)) short
             +:+ "-conflict-" +:+ validName (now w) +:+ ext
  ∧ JS.length short = Nat.min 180 (JS.length base)
  ∧ ((JS.length base ≤ 180)%nat → short = base)
  ∧ (String.prefix short base = true
     ∨ ∃ kept c rest,
         base = kept +:+ String c rest ∧ JS.is_lead4 c = true
         ∧ JS.length kept = 179
         ∧ short = kept +:+ JS.high_surrogate c rest).
Proof.
  intros [-> _]%resolveConflictAsync_Ok ext base short.
  split; [|split; [|split]].
  - unfold renamed, Merge.conflict_path, Merge.conflict_base. fold ext base.
    destruct doc; simpl. destruct (Nat.ltb_spec 180 (JS.length base)) as [Hlt|Hle].
    + done.
    + unfold short. by rewrite (slice_all 180 base Hle).
  - apply length_slice.
  - apply slice_all.
  - destruct (slice_prefix 180 base) as [Hp|(kept & c & rest & Hb & Hl & Hlen & Hs)];
      [by left|].
    right. exists kept, c, rest. split; [done|]. split; [done|]. split; [lia | done].
Qed.

End Conflicts.

(** A basename of 200 letters [é], 400 bytes, is cut to 180 of them; one
    of 100 letters, 200 bytes, is kept whole; of a basename of 179 letters
    and one character outside the Basic Multilingual Plane, the letters
    and a high surrogate are kept. *)
Lemma resolveConflict_path_witness :
  let named := λ p, Sample.doc p File (Some "rL0Y20zC+Fzt72VPzMSk2A==") (Sample.both 1 1) in
  let w := Sample.world_of [] in
  let renamed_to := λ p, path <$> match (Merge.resolveConflictAsync LocalSide (named p) w).1 with
                                  | Ok dst => Some dst
                                  | Throw _ => None
                                  end in
  renamed_to ("dir/" +:+ Sample.times 200 "é" +:+ ".txt")
  = Some ("dir/" +:+ Sample.times 180 "é" +:+ "-conflict-2017-06-19T08-19-26.769Z.txt")
  ∧ renamed_to ("dir/" +:+ Sample.times 100 "é" +:+ ".txt")
    = Some ("dir/" +:+ Sample.times 100 "é" +:+ "-conflict-2017-06-19T08-19-26.769Z.txt")
  ∧ renamed_to ("dir/" +:+ Sample.times 179 "a" +:+ "😀.txt")
    = Some ("dir/" +:+ Sample.times 179 "a" +:+ JS.slice 1 "😀"
              +:+ "-conflict-2017-06-19T08-19-26.769Z.txt")
  ∧ renamed_to "dir/report.final.txt"
    = Some "dir/report.final-conflict-2017-06-19T08-19-26.769Z.txt".
Proof.
  intros named w renamed_to.
  assert (Hat : ∀ p, ∃ dst,
            (Merge.resolveConflictAsync LocalSide (named p) w).1 = Ok dst
            ∧ path dst
              = path_join (path_dirname p)
                  (JS.slice 180 (path_basename p (path_extname p)))
                +:+ "-conflict-" +:+ validName (now w) +:+ path_extname p).
  { intros p. destruct (Merge.resolveConflictAsync LocalSide (named p) w) as [r w'] eqn:E.
    assert (∃ dst, r = Ok dst) as [dst ->].
    { rewrite resolveConflictAsync_eq in E. injection E as <- _. simpl. eauto. }
    exists dst. split; [done|].
    by destruct (resolveConflict_path LocalSide (named p) dst w w' E) as (Hp & _). }
  assert (Hto : ∀ p q,
            path_join (path_dirname p) (JS.slice 180 (path_basename p (path_extname p)))
            +:+ "-conflict-" +:+ validName (now w) +:+ path_extname p = q →
            renamed_to p = Some q).
  { intros p q <-. destruct (Hat p) as (dst & E & Hp). unfold renamed_to.
    rewrite E. simpl. by rewrite Hp. }
  repeat split; apply Hto; by vm_compute.
Defined.




Section InitialAdd.

Context `{PathModule} `{MetadataModule} `{FsUtils} `{Collaborators}.

Lemma getPreviousRev_world (id : string) (shortRev : option nat) (w : World) :
  (Pouch.getPreviousRev id shortRev w).2 = w.
Proof.
  unfold Pouch.getPreviousRev. destruct shortRev; [|done].
  by destruct (list_find _ _) as [[? ?]|].
Qed.

(** C6. In [resolveInitialAdd], when [existing.sides.remote] is set and
    differs from [existing.sides.local], the revision matching
    [existing.sides.local] is fetched. If it is found and its [md5sum] is
    the one of [doc], the answer is [null] and nothing happens. Otherwise
    (another [md5sum], or no such revision) the handler of the remote side
    is asked to rename [doc], whichever side reported the add. *)
Theorem resolveInitialAdd_both_changed (fuel : nat) (side : SideName)
    (doc file : Metadata) (w : World) :
  JS.truthy (sides_remote (sides file)) = true →
  sides_remote (sides file) ≠ sides_local (sides file) →
  let doc' := set_remote (orElse (remote doc) (remote file)) doc in
  let conflict :=
    (match sideResolveConflict RemoteSide (renamed w doc') doc' with
     | None => Ok (RDoc (renamed w doc'))
     | Some e => Throw e
     end, asked RemoteSide doc' w) in
  Merge.resolveInitialAddAsync fuel side doc file w =
  match (Pouch.getPreviousRev (_id doc) (sides_local (sides file)) w).1 with
  | Ok prev => if bool_decide (md5sum prev = md5sum doc) then (Ok RNull, w) else conflict
  | Throw _ => conflict
  end.
Proof.
  intros Hrem Hne doc' conflict.
  unfold Merge.resolveInitialAddAsync. rewrite Hrem. simpl.
  unfold JS.strictEq at 1. rewrite bool_decide_eq_false_2 by done.
  unfold bind at 1, catch, bind at 1.
  pose proof (getPreviousRev_world (_id doc) (sides_local (sides file)) w) as Hw.
  destruct (Pouch.getPreviousRev _ _ w) as [[prev|e] w1]; simpl in Hw; subst w1; simpl.
  - unfold ret at 1. unfold JS.strictEq.
    destruct (bool_decide (md5sum prev = md5sum doc)); [done|].
    unfold bind. rewrite resolveConflictAsync_eq. fold doc'.
    by destruct (sideResolveConflict _ _ _).
  - unfold ret at 1. unfold bind. rewrite resolveConflictAsync_eq. fold doc'.
    by destruct (sideResolveConflict _ _ _).
Qed.

End InitialAdd.

(** The note of scenario S4: written as [v1] on both sides, then changed to
    [v2] by the remote side. A third content arriving from the local side is
    a conflict for the remote handler; the first content arriving again is
    not. *)
Lemma resolveInitialAdd_both_changed_witness :
  let v1 := Sample.doc "note" File (Some "v1") (Sample.both 1 1) in
  let v2 := set_rev (Some 1) (Sample.doc "note" File (Some "v2") (Sample.both 1 2)) in
  let w := Sample.world_of [v1; v2] in
  let v3 := Sample.doc "note" File (Some "v3") noSides in
  (∃ dst w', Merge.resolveInitialAddAsync 0 LocalSide v3 v2 w = (Ok (RDoc dst), w')
             ∧ map call_side (calls w') = [RemoteSide])
  ∧ Merge.resolveInitialAddAsync 0 LocalSide (set_sides noSides v1) v2 w = (Ok RNull, w).
Proof.
  intros v1 v2 w v3. split.
  - rewrite (resolveInitialAdd_both_changed 0 LocalSide v3 v2 w); [|done|done].
    vm_compute. eauto.
  - rewrite (resolveInitialAdd_both_changed 0 LocalSide _ v2 w); [|done|done].
    reflexivity.
Defined.

(* ===================================================================== *)
(** ** Deleting a file *)
(* ===================================================================== *)

Lemma side_get_le_max (side : SideName) (s : Sides) (n : nat) :
  side_get side s = Some n → (n ≤ maxSides s)%nat.
Proof.
  unfold maxSides. destruct side, s as [l r]; simpl; intros ->; simpl; lia.
Qed.

Lemma side_get_markSides (side : SideName) (s : Sides) (prev : option Sides) :
  side_get side (markSides side s prev) = Some (S (from_option maxSides 0 prev)).
Proof. by destruct side. Qed.

(** C7. [deleteFile(side, doc)]: with no document at [doc._id] the answer is
    [null] and nothing changes (a 404 is no error); with a document that has
    [sides[side]], its tombstone ([_deleted] set, the counter of [side]
    raised above every counter it had, [errors] removed) becomes the newest
    revision at that id; with a document without [sides[side]] the answer is
    [null] and nothing changes. *)
Theorem deleteFile_cases (side : SideName) (doc : Metadata) (w : World) :
  wf_world w →
  match Pouch.current w (_id doc) with
  | None => Merge.deleteFileAsync side doc w = (Ok RNull, w)
  | Some file =>
      if JS.truthy (side_get side (sides file)) then
        ∃ hist n,
          journal w !! _id doc = Some (file :: hist)
          ∧ side_get side (sides file) = Some n
          ∧ let tomb := Pouch.stored (file :: hist) (tombstone side file) in
            Merge.deleteFileAsync side doc w =
              (Ok (RPut tomb), Pouch.with_journal (<[_id doc := tomb :: file :: hist]> (journal w)) w)
            ∧ _deleted tomb = true ∧ errors tomb = None
            ∧ side_get side (sides tomb) = Some (S (maxSides (sides file)))
            ∧ (n < S (maxSides (sides file)))%nat
      else Merge.deleteFileAsync side doc w = (Ok RNull, w)
  end.
Proof.
  intros Hwf. unfold Merge.deleteFileAsync, bind, catch, Pouch.get.
  destruct (Pouch.current w (_id doc)) as [file|] eqn:Hcur;
    [|by rewrite bool_decide_eq_true_2].
  unfold ret. cbn.
  destruct (JS.truthy (side_get side (sides file))) eqn:Hside; [|done].
  destruct (current_head _ _ _ Hcur) as [hist Hj].
  pose proof (wf_current _ _ _ Hwf Hcur) as Hid.
  destruct (side_get side (sides file)) as [n|] eqn:Hn; [|done].
  exists hist, n. split; [done|]. split; [done|]. simpl.
  assert (_id (tombstone side file) = _id doc) as Hidt by (by destruct file).
  unfold Pouch.put, Pouch.put_journal. fold (tombstone side file).
  rewrite Hidt, Hj. simpl default.
  rewrite rev_matches_head by (by destruct file).
  repeat split.
  - by destruct file.
  - by destruct file.
  - unfold tombstone, Pouch.stored, markSide. destruct file; simpl.
    apply side_get_markSides.
  - apply side_get_le_max in Hn. lia.
Qed.

Lemma deleteFile_cases_witness :
  let a := Sample.doc "a.txt" File (Some "X") (Sample.both 1 1) in
  let w := Sample.world_of [a] in
  (Merge.deleteFileAsync LocalSide (Sample.doc "b.txt" File None noSides) w).2 = w
  ∧ Pouch.current (Merge.deleteFileAsync LocalSide a w).2 "a.txt" = None.
Proof.
  intros a w.
  assert (Hwf : wf_world w) by (apply (bool_decide_unpack _); vm_compute; exact I).
  split.
  - pose proof (deleteFile_cases LocalSide (Sample.doc "b.txt" File None noSides) w Hwf) as Hb.
    change (Pouch.current w _) with (@None Metadata) in Hb. by rewrite Hb.
  - pose proof (deleteFile_cases LocalSide a w Hwf) as Ha.
    change (Pouch.current w (_id a)) with (Some (set_rev (Some 1) a)) in Ha.
    simpl in Ha. destruct Ha as (hist & n & _ & _ & -> & _).
    unfold Pouch.current. simpl. by rewrite lookup_insert_eq.
Defined.

(* ===================================================================== *)
(** ** Moving a file onto an identical one *)
(* ===================================================================== *)

Section MoveFile.

Context `{PathModule} `{MetadataModule} `{FsUtils} `{Collaborators}.

(** C10. [moveFile(side, doc, was)], where [was.sides[side]] is set and
    the journal holds at [doc._id] a document that [sameFile] finds equal
    to [doc] (as completed from [was]): the answer is [null], and the
    world is the one before: no tombstone of [was], no new revision, no
    call to a conflict handler. *)
Theorem moveFile_same_file (fuel : nat) (side : SideName) (doc was file : Metadata)
    (w : World) :
  JS.truthy (side_get side (sides was)) = true →
  Pouch.current w (_id doc) = Some file →
  sameFile file (Merge.move_doc side doc was (Some file)) = true →
  Merge.moveFileAsync fuel side doc was w = (Ok RNull, w).
Proof.
  intros Hside Hcur Hsame.
  unfold Merge.moveFileAsync. rewrite Hside.
  unfold bind. rewrite try_get_eq, Hcur. by rewrite Hsame.
Qed.

End MoveFile.

Lemma moveFile_same_file_witness :
  let a := Sample.doc "a.txt" File (Some "X") (Sample.both 1 1) in
  let b := set_tags (Some []) (Sample.doc "b.txt" File (Some "X") (Sample.both 1 1)) in
  let w := Sample.world_of [a; b] in
  let doc := Sample.doc "b.txt" File (Some "X") noSides in
  Merge.moveFileAsync 0 LocalSide doc (set_rev (Some 1) a) w = (Ok RNull, w)
  ∧ Pouch.current w "a.txt" = Some (set_rev (Some 1) a).
Proof.
  intros a b w doc. split; [|reflexivity].
  apply (moveFile_same_file 0 LocalSide doc (set_rev (Some 1) a) (set_rev (Some 1) b) w);
    reflexivity.
Defined.

(* ===================================================================== *)
(** ** Descendants *)
(* ===================================================================== *)

Lemma lookup_lives (w : World) (id : string) : Pouch.lives w !! id = Pouch.current w id.
Proof. unfold Pouch.lives, Pouch.current. by rewrite lookup_omap. Qed.

Lemma lookup_descendants (w : World) (prefix id : string) (d : Metadata) :
  Pouch.descendants w prefix !! id = Some d
  ↔ Pouch.current w id = Some d ∧ Pouch.under prefix id = true.
Proof.
  unfold Pouch.descendants. rewrite map_lookup_filter_Some, lookup_lives. done.
Qed.

(** Two worlds that agree below [prefix] have the same descendants there. *)
Lemma descendants_agree (w w' : World) (prefix : string) :
  (∀ id, Pouch.under prefix id = true → journal w' !! id = journal w !! id) →
  Pouch.descendants w' prefix = Pouch.descendants w prefix.
Proof.
  intros Hagree. apply map_eq. intros id. apply option_eq. intros d.
  rewrite !lookup_descendants. unfold Pouch.current.
  split; intros [Hc Hu]; (split; [|done]); [rewrite <- Hagree | rewrite Hagree]; done.
Qed.

Lemma elem_of_docs_under (w : World) (prefix : string) (d : Metadata) :
  d ∈ Pouch.docs_under w prefix ↔ ∃ id, Pouch.descendants w prefix !! id = Some d.
Proof.
  unfold Pouch.docs_under. rewrite merge_sort_Permutation.
  rewrite list_elem_of_fmap. split.
  - intros [[id d'] [-> Hin]]. exists id. by apply elem_of_map_to_list.
  - intros [id Hid]. exists (id, d). split; [done|]. by apply elem_of_map_to_list.
Qed.


(* ===================================================================== *)
(** ** Trashing a folder *)
(* ===================================================================== *)

Section TrashFolder.

Context `{PathModule} `{MetadataModule} `{FsUtils} `{Collaborators}.

(** C9. [trashFolder(side, was, doc)] where a file below [was] is not up
    to date on [side]: all the call does is to put [was] back, with its
    entry [sides[side]] and its [errors] removed. No revision is added
    below [was], so the descendants are the live documents they were, and
    no conflict handler is called; if [was] carries the revision the
    journal expects, the put succeeds and the document read at [was._id]
    afterwards has no entry for [side]. *)
Theorem trashFolder_aborts (side : SideName) (was doc child : Metadata) (w : World) :
  child ∈ Pouch.docs_under w (_id was) →
  docType child = File →
  isUpToDate side child = false →
  ∃ r w',
    Merge.trashFolderAsync side was doc w = (r, w')
    ∧ (r, w') = (x <- Pouch.put (untrashed side was) ;; ret (RPut x))%merge w
    ∧ (∀ id, Pouch.under (_id was) id = true → journal w' !! id = journal w !! id)
    ∧ Pouch.docs_under w' (_id was) = Pouch.docs_under w (_id was)
    ∧ calls w' = calls w
    ∧ (Pouch.rev_matches (default [] (journal w !! _id was)) was = true →
       ∃ x, r = Ok (RPut x)
            ∧ journal w' !! _id was = Some (x :: default [] (journal w !! _id was))
            ∧ side_get side (sides x) = None ∧ errors x = None).
Proof.
  intros Hin Hty Hup.
  unfold Merge.trashFolderAsync, bind at 1, Pouch.byRecursivePath.
  destruct (find _ (rev (Pouch.docs_under w (_id was)))) as [c|] eqn:Hfind.
  2:{ exfalso.
      assert (In child (rev (Pouch.docs_under w (_id was)))) as Hc.
      { apply in_rev. rewrite rev_involutive. by apply list_elem_of_In. }
      apply (find_none _ _ Hfind) in Hc. by rewrite Hty, Hup in Hc. }
  fold (untrashed side was).
  destruct ((x <- Pouch.put (untrashed side was) ;; ret (RPut x))%merge w) as [r w'] eqn:E.
  exists r, w'. split; [done|]. split; [done|].
  unfold bind in E.
  destruct (Pouch.put (untrashed side was) w) as [r0 w0] eqn:Hput.
  assert (Hid : _id (untrashed side was) = _id was) by (by destruct was).
  assert (w0 = w') as ->.
  { destruct r0; unfold ret in E; by inversion E. }
  assert (Hbelow : ∀ id, Pouch.under (_id was) id = true →
                         journal w' !! id = journal w !! id).
  { intros id Hu. apply (put_other _ _ _ _ _ Hput). rewrite Hid. by apply under_ne. }
  split; [done|]. split.
  { unfold Pouch.docs_under. by rewrite (descendants_agree w w' _ Hbelow). }
  split; [by apply (put_calls _ _ _ _ Hput)|].
  intros Hrev. revert Hput. unfold Pouch.put, Pouch.put_journal. rewrite Hid.
  assert (Pouch.rev_matches (default [] (journal w !! _id was)) (untrashed side was) = true)
    as -> by (by destruct was).
  intros [= <- <-]. unfold ret in E. injection E as <-.
  eexists. split; [done|]. split.
  { simpl. by rewrite lookup_insert_eq. }
  split.
  - destruct was, side; done.
  - by destruct was.
Qed.

End TrashFolder.

(** Scenario S6: [dir] with [dir/a] and [dir/b], seen by both sides; the
    remote side then updates [dir/a]; the local side trashes [dir]. *)
Lemma trashFolder_aborts_witness :
  let dir := Sample.doc "dir" Folder None (Sample.both 1 1) in
  let a := Sample.doc "dir/a" File (Some "A") (Sample.both 1 1) in
  let b := Sample.doc "dir/b" File (Some "B") (Sample.both 1 1) in
  let a2 := set_rev (Some 1) (Sample.doc "dir/a" File (Some "A2") (Sample.both 1 2)) in
  let w := Sample.world_of [dir; a; b; a2] in
  let w' := (Merge.trashFolderAsync LocalSide (set_rev (Some 1) dir) dir w).2 in
  Pouch.docs_under w' "dir" = Pouch.docs_under w "dir"
  ∧ length (Pouch.docs_under w "dir") = 2
  ∧ (side_get LocalSide ∘ sides <$> Pouch.current w' "dir") = Some None.
Proof.
  intros dir a b a2 w w'.
  destruct (trashFolder_aborts LocalSide (set_rev (Some 1) dir) dir (set_rev (Some 2) a2) w)
    as (r & w1 & E & _ & _ & Hdocs & _ & Hput).
  - apply (bool_decide_unpack _). vm_compute. exact I.
  - reflexivity.
  - reflexivity.
  - assert (w' = w1) as Hw by (unfold w'; by rewrite E).
    split; [by rewrite Hw|]. split; by vm_compute.
Defined.

(* ===================================================================== *)
(** ** Bulk writes *)
(* ===================================================================== *)

Lemma put_journal_Some (j : gmap string (list Metadata)) (d : Metadata) :
  Pouch.rev_matches (default [] (j !! _id d)) d = true →
  Pouch.put_journal j d
  = Some (<[_id d := Pouch.stored (default [] (j !! _id d)) d :: default [] (j !! _id d)]> j).
Proof. unfold Pouch.put_journal. by intros ->. Qed.

(** A bulk of documents with distinct ids, each carrying the revision the
    journal expects, is accepted; it adds one revision at each of these ids
    and leaves the other ids alone. *)
Lemma bulk_journal_spec (docs : list Metadata) (j : gmap string (list Metadata)) :
  NoDup (map _id docs) →
  Forall (λ d, Pouch.rev_matches (default [] (j !! _id d)) d = true) docs →
  ∃ j', Pouch.bulk_journal j docs = Some j'
        ∧ (∀ d, d ∈ docs →
             j' !! _id d = Some (Pouch.stored (default [] (j !! _id d)) d
                                 :: default [] (j !! _id d)))
        ∧ (∀ id, id ∉ map _id docs → j' !! id = j !! id).
Proof.
  revert j. induction docs as [|d docs IH]; intros j Hnd Hrev.
  - exists j. split; [done|]. split; [|done]. intros d Hd. by apply elem_of_nil in Hd.
  - simpl in Hnd. apply NoDup_cons in Hnd as [Hd Hnd].
    apply Forall_cons in Hrev as [Hrd Hrev].
    simpl. rewrite (put_journal_Some _ _ Hrd).
    set (j1 := <[_id d := _]> j).
    assert (Hj1 : ∀ d', d' ∈ docs → j1 !! _id d' = j !! _id d').
    { intros d' Hd'. unfold j1. apply lookup_insert_ne. intros Heq.
      apply Hd. rewrite Heq. apply list_elem_of_fmap. by exists d'. }
    destruct (IH j1 Hnd) as (j' & Hbulk & Hin & Hout).
    { apply Forall_forall. intros d' Hd'. rewrite (Hj1 d' Hd').
      by apply (proj1 (Forall_forall _ _) Hrev). }
    exists j'. split; [done|]. split.
    + intros d' [->|Hd']%elem_of_cons.
      * rewrite (Hout _ Hd). unfold j1. by rewrite lookup_insert_eq.
      * rewrite (Hin d' Hd'). by rewrite (Hj1 d' Hd').
    + intros id [Hne Hid]%not_elem_of_cons.
      rewrite (Hout id Hid). unfold j1. by rewrite lookup_insert_ne.
Qed.

Lemma rev_matches_free (w : World) (doc : Metadata) :
  Pouch.current w (_id doc) = None → _rev doc = None →
  Pouch.rev_matches (default [] (journal w !! _id doc)) doc = true.
Proof.
  unfold Pouch.current. intros Hcur Hrev.
  destruct (journal w !! _id doc) as [[|d hist]|]; simpl in *.
  - by rewrite bool_decide_eq_true_2.
  - destruct (_deleted d); [|done]. simpl.
    rewrite (bool_decide_eq_true_2 (_rev doc = None)) by done. apply orb_true_r.
  - by rewrite bool_decide_eq_true_2.
Qed.

Lemma rev_matches_current (w : World) (doc cur : Metadata) :
  Pouch.current w (_id doc) = Some cur → _rev doc = _rev cur →
  Pouch.rev_matches (default [] (journal w !! _id doc)) doc = true.
Proof.
  intros [hist Hj]%current_head Hrev. rewrite Hj. simpl default.
  by apply rev_matches_head.
Qed.

(** The two lists a loop pushes in turn hold what two separate loops push. *)
Lemma flat_map_pair_perm {A B} (f g : A → B) (l : list A) :
  flat_map (λ x, [f x; g x]) l ≡ₚ map f l ++ map g l.
Proof.
  induction l as [|x l IH]; [done|]. simpl.
  rewrite IH. constructor. apply Permutation_middle.
Qed.

(* ===================================================================== *)
(** ** Moving a folder *)
(* ===================================================================== *)

(** The loop reads [was._id] and [was.path], which the marks set on [was]
    before the loop leave as they were. *)
Lemma move_child_was (side : SideName) (folder was doc : Metadata) (v : option string) :
  Merge.move_child side folder (set_moveTo v (set_deleted true was)) doc
  = Merge.move_child side folder was doc.
Proof. by destruct was. Qed.

Lemma id_moved_marks (d : Metadata) (v : option string) (b : bool) :
  _id (set_moveTo v (set_deleted b d)) = _id d.
Proof. by destruct d. Qed.

Lemma rev_moved_marks (d : Metadata) (v : option string) (b : bool) :
  _rev (set_moveTo v (set_deleted b d)) = _rev d.
Proof. by destruct d. Qed.

Section MoveFolder.

Variables (side : SideName) (folder was : Metadata) (w : World).

Hypothesis Hwf : wf_world w.
Hypothesis Hwas : ∃ cur, Pouch.current w (_id was) = Some cur ∧ _rev was = _rev cur.
Hypothesis Hfolder : _rev folder = None.
Hypothesis Hfree : free_below w (_id folder).
Hypothesis Hdollar : JS.dollarFree (_id folder) = true.

Local Abbreviation docs := (Pouch.docs_under w (_id was)).
Local Abbreviation tail := (moved_tail was).
Local Abbreviation newId := (moved_id folder was).

Lemma docs_in (d : Metadata) :
  d ∈ docs → Pouch.current w (_id d) = Some d ∧ Pouch.under (_id was) (_id d) = true.
Proof using Hwf.
  intros [id [Hcur Hu]%lookup_descendants]%elem_of_docs_under.
  by rewrite (wf_current _ _ _ Hwf Hcur).
Qed.

Lemma docs_id (d : Metadata) :
  d ∈ docs → _id d = _id was +:+ tail d ∧ ∃ rest, tail d = "/" +:+ rest.
Proof using Hwf. intros [_ Hu]%docs_in. by apply under_inv. Qed.

Lemma id_tomb_of (d : Metadata) : _id (tomb_of side folder was d) = _id d.
Proof. by destruct d. Qed.

Lemma id_moved_of (d : Metadata) :
  d ∈ docs → _id (moved_of side folder was d) = newId d.
Proof using Hwf Hdollar.
  intros [_ Hu]%docs_in.
  transitivity (JS.replace (_id d) (_id was) (_id folder)); [by destruct d|].
  apply replace_prefix; [|done].
  unfold Pouch.under in Hu. apply prefix_iff in Hu as [r ->].
  rewrite app_assoc_s. apply prefix_app.
Qed.

Lemma newId_under (d : Metadata) : d ∈ docs → Pouch.under (_id folder) (newId d) = true.
Proof using Hwf.
  intros (_ & rest & Hrest)%docs_id. unfold moved_id. rewrite Hrest. apply under_app.
Qed.

Lemma newId_free (d : Metadata) : d ∈ docs → Pouch.current w (newId d) = None.
Proof using Hwf Hfree. intros Hd. apply Hfree. right. by apply newId_under. Qed.

Lemma newId_inj (d1 d2 : Metadata) :
  d1 ∈ docs → d2 ∈ docs → newId d1 = newId d2 → d1 = d2.
Proof using Hwf.
  intros Hd1 Hd2 Heq. unfold moved_id in Heq. apply (inj _) in Heq.
  destruct (docs_in _ Hd1) as [Hc1 _]. destruct (docs_in _ Hd2) as [Hc2 _].
  destruct (docs_id _ Hd1) as [Hi1 _]. destruct (docs_id _ Hd2) as [Hi2 _].
  rewrite Hi1, Heq, <- Hi2, Hc2 in Hc1. by inversion Hc1.
Qed.

Lemma docs_NoDup : NoDup docs ∧ NoDup (map _id docs).
Proof using Hwf.
  assert (Hids : NoDup (map _id docs)).
  { unfold Pouch.docs_under. rewrite merge_sort_Permutation.
    rewrite map_map.
    assert (map (λ x, _id x.2) (map_to_list (Pouch.descendants w (_id was)))
            = (map_to_list (Pouch.descendants w (_id was))).*1) as ->.
    { apply map_ext_in. intros [id d] Hin. simpl.
      apply list_elem_of_In, elem_of_map_to_list, lookup_descendants in Hin as [Hc _].
      by apply (wf_current _ _ _ Hwf). }
    apply NoDup_fst_map_to_list. }
  split; [|done]. by apply NoDup_fmap_1 in Hids.
Qed.

Lemma bulk_alt :
  Merge.move_bulk side folder was docs
  = set_moveTo (Some (_id folder)) (set_deleted true was) :: folder
    :: flat_map (λ d, [tomb_of side folder was d; moved_of side folder was d]) docs.
Proof.
  unfold Merge.move_bulk. cbn -[Merge.move_child]. do 2 f_equal.
  apply flat_map_ext. intros d. unfold tomb_of, moved_of.
  by rewrite move_child_was.
Qed.

Lemma bulk_ids :
  map _id (Merge.move_bulk side folder was docs)
  ≡ₚ _id was :: _id folder :: map _id docs ++ map newId docs.
Proof using Hwf Hdollar.
  rewrite bulk_alt. simpl map.
  rewrite id_moved_marks.
  do 2 constructor. rewrite flat_map_pair_perm, map_app, !map_map.
  assert (map (λ d, _id (tomb_of side folder was d)) docs = map _id docs) as ->.
  { apply map_ext. intros d. apply id_tomb_of. }
  assert (map (λ d, _id (moved_of side folder was d)) docs = map newId docs) as ->.
  { apply map_ext_in. intros d Hd%list_elem_of_In. by apply id_moved_of. }
  done.
Qed.

Lemma was_live : ∃ cur, Pouch.current w (_id was) = Some cur.
Proof using Hwas. destruct Hwas as (cur & Hc & _). eauto. Qed.

Lemma bulk_NoDup : NoDup (map _id (Merge.move_bulk side folder was docs)).
Proof using All.
  rewrite bulk_ids. destruct was_live as [cur Hcur].
  assert (Hfol : Pouch.current w (_id folder) = None) by (apply Hfree; by left).
  assert (Hold : ∀ id, id ∈ map _id docs →
                       is_Some (Pouch.current w id) ∧ Pouch.under (_id was) id = true).
  { intros id (d & -> & Hd)%list_elem_of_fmap. destruct (docs_in d Hd). eauto. }
  assert (Hnew : ∀ id, id ∈ map newId docs →
                       Pouch.current w id = None ∧ Pouch.under (_id folder) id = true).
  { intros id (d & -> & Hd)%list_elem_of_fmap.
    split; [by apply newId_free | by apply newId_under]. }
  repeat apply NoDup_cons_2.
  - intros [Heq|[Hin|Hin]%elem_of_app]%elem_of_cons.
    + rewrite Heq, Hfol in Hcur. done.
    + apply Hold in Hin as [_ Hu]. by apply under_ne in Hu.
    + apply Hnew in Hin as [Hn _]. rewrite Hn in Hcur. done.
  - intros [Hin|Hin]%elem_of_app.
    + apply Hold in Hin as [[? Hs] _]. rewrite Hfol in Hs. done.
    + apply Hnew in Hin as [_ Hu]. by apply under_ne in Hu.
  - apply NoDup_app. split; [apply docs_NoDup|]. split.
    + intros id [[? Hs] _]%Hold [Hn _]%Hnew. rewrite Hn in Hs. done.
    + apply NoDup_fmap_2_strong; [|apply docs_NoDup].
      intros d1 d2 Hd1 Hd2. by apply newId_inj.
Qed.

Lemma bulk_elem (b : Metadata) :
  b ∈ Merge.move_bulk side folder was docs →
  b = set_moveTo (Some (_id folder)) (set_deleted true was) ∨ b = folder
  ∨ ∃ d, d ∈ docs ∧ (b = tomb_of side folder was d ∨ b = moved_of side folder was d).
Proof.
  rewrite bulk_alt. intros [->|[->|Hb]%elem_of_cons]%elem_of_cons; [by left | by right; left|].
  right. right. apply list_elem_of_In, in_flat_map in Hb as (d & Hd & Hb).
  exists d. split; [by apply list_elem_of_In|].
  simpl in Hb. destruct Hb as [<-|[<-|[]]]; [by left | by right].
Qed.

Lemma bulk_rev_matches :
  Forall (λ d, Pouch.rev_matches (default [] (journal w !! _id d)) d = true)
         (Merge.move_bulk side folder was docs).
Proof using All.
  apply Forall_forall. intros b [->|[->|(d & Hd & [->| ->])]]%bulk_elem.
  - destruct Hwas as (cur & Hcur & Hrev).
    apply (rev_matches_current _ _ cur); [by rewrite id_moved_marks|].
    by rewrite rev_moved_marks.
  - apply rev_matches_free; [|done]. apply Hfree. by left.
  - destruct (docs_in d Hd) as [Hcur _].
    apply (rev_matches_current _ _ d); [by rewrite id_tomb_of | by destruct d].
  - apply rev_matches_free; [|by destruct d].
    rewrite (id_moved_of d Hd). by apply newId_free.
Qed.

(** The journal after the bulk. *)
Lemma bulk_commits :
  ∃ j', Merge.moveFolderRecursivelyAsync side folder was w
        = (Ok (RBulk (Merge.move_bulk side folder was docs)), Pouch.with_journal j' w)
        ∧ (∀ b, b ∈ Merge.move_bulk side folder was docs →
             j' !! _id b = Some (Pouch.stored (default [] (journal w !! _id b)) b
                                 :: default [] (journal w !! _id b)))
        ∧ (∀ id, id ∉ map _id (Merge.move_bulk side folder was docs) →
             j' !! id = journal w !! id).
Proof using All.
  destruct (bulk_journal_spec _ (journal w) bulk_NoDup bulk_rev_matches)
    as (j' & Hbulk & Hin & Hout).
  exists j'. split; [|done].
  unfold Merge.moveFolderRecursivelyAsync, bind, Pouch.byRecursivePath, Pouch.bulkDocs.
  by rewrite Hbulk.
Qed.



End MoveFolder.

(** [free_below] can be checked on the entries of the journal. *)
Lemma free_below_check (w : World) (id : string) :
  map_Forall (λ k hist, k = id ∨ Pouch.under id k = true → Pouch.head_live hist = None)
             (journal w) →
  free_below w id.
Proof.
  intros Hall k Hk. unfold Pouch.current.
  destruct (journal w !! k) as [hist|] eqn:Hj; [|done].
  simpl. by apply (Hall k hist Hj).
Qed.



(** The destination [a$&b] shows what [replace] does with a dollar sign in
    [folder._id]: the file of [src] is moved below [asrcb], not below the
    folder. *)
Example moveFolderRecursively_dollar :
  let src := Sample.doc "src" Folder None (Sample.both 1 1) in
  let a := Sample.doc "src/a" File (Some "A") (Sample.both 1 1) in
  let w := Sample.world_of [src; a] in
  let w' := (Merge.moveFolderRecursivelyAsync LocalSide (Sample.doc "a$&b" Folder None noSides)
               (set_rev (Some 1) src) w).2 in
  map _id (Pouch.docs_under w' "a$&b") = [] ∧ map _id (Pouch.docs_under w' "asrcb") = ["asrcb/a"].
Proof. by vm_compute. Qed.

(* ===================================================================== *)
(** ** The watcher: a deleted folder *)
(* ===================================================================== *)

Section UnlinkDir.

Context `{PathModule}.

(** The timer [onUnlinkDir] arms is an interval of 350 ms that runs
    [done]; when it comes due, [deleteFolder] is emitted and the record is
    gone, whatever [hasPendingChild] would answer. *)
Lemma onUnlinkDir_tick (folderPath : string) (st : Watcher.State) :
  let st1 := Watcher.onUnlinkDir folderPath st in
  Watcher.timers st1 !! Watcher.next_handle st
  = Some (Watcher.mkTimer true 350 (Watcher.DirDone folderPath))
  ∧ ∃ st2, Watcher.fire (Watcher.next_handle st) st1 = Ok st2
           ∧ Watcher.prepCalls st2
             = (Watcher.prepCalls st
                  ++ [Watcher.deleteFolder (Watcher.side st) folderPath])%list
           ∧ Watcher.pending st2 = delete folderPath (Watcher.pending st).
Proof.
  intros st1. split.
  - unfold st1, Watcher.onUnlinkDir. simpl. by rewrite lookup_insert_eq.
  - unfold Watcher.fire, st1, Watcher.onUnlinkDir. simpl.
    rewrite lookup_insert_eq. simpl.
    unfold Watcher.dir_done, Watcher.dir_clear. simpl.
    rewrite lookup_insert_eq. simpl.
    eexists. split; [done|]. split; [done|]. simpl.
    by rewrite delete_insert_eq.
Qed.

End UnlinkDir.

(** C2. The file [dir/a] was unlinked and is pending; [dir] is unlinked; the
    interval of [dir] comes due for the first time. [hasPendingChild] says
    that a child is pending, and yet [deleteFolder] is emitted while
    [dir/a] is still pending: the interval runs [done], not [check]. *)
Theorem onUnlinkDir_ignores_pending_child :
  let st := Watcher.onUnlinkDir "dir" (Watcher.onUnlinkFile "dir/a" Watcher.start) in
  Watcher.hasPendingChild "dir" st = true
  ∧ Watcher.timers st !! 1 = Some (Watcher.mkTimer true 350 (Watcher.DirDone "dir"))
  ∧ ∃ st', Watcher.fire 1 st = Ok st'
           ∧ Watcher.prepCalls st' = [Watcher.deleteFolder LocalSide "dir"]
           ∧ is_Some (Watcher.pending st' !! "dir/a").
Proof.
  intros st. split; [by vm_compute|]. split; [by vm_compute|].
  destruct (Watcher.fire 1 st) as [st'|e] eqn:E; vm_compute in E; [|discriminate E].
  injection E as <-. eexists. split; [reflexivity|]. split; [done|].
  eexists. by vm_compute.
Qed.

(** What [check] would have done on the same tick: nothing. *)
Example onUnlinkDir_check_would_wait :
  let st := Watcher.onUnlinkDir "dir" (Watcher.onUnlinkFile "dir/a" Watcher.start) in
  Watcher.run (Watcher.DirCheck "dir") st = Ok st.
Proof. by vm_compute. Qed.

(* ===================================================================== *)
(** ** The watcher: an added file *)
(* ===================================================================== *)

Lemma find_ext_in {A} (f g : A → bool) (l : list A) :
  (∀ x, In x l → f x = g x) → find f l = find g l.
Proof.
  induction l as [|x l IH]; intros Hfg; [done|]. simpl.
  rewrite (Hfg x) by (by left). destruct (g x); [done|].
  apply IH. intros y Hy. apply Hfg. by right.
Qed.

Lemma keys_elem (pending : gmap string Watcher.Pending) (p : string) :
  p ∈ map fst (map_to_list pending) ↔ p ∈ dom pending.
Proof.
  rewrite elem_of_dom, list_elem_of_fmap. split.
  - intros [[k r] [-> Hin%elem_of_map_to_list]]. eauto.
  - intros [r Hr]. exists (p, r). split; [done|]. by apply elem_of_map_to_list.
Qed.

Lemma keys_empty (pending : gmap string Watcher.Pending) :
  Nat.eqb (length (map fst (map_to_list pending))) 0 = bool_decide (pending = ∅).
Proof.
  rewrite length_map, length_map_to_list.
  destruct (decide (pending = ∅)) as [->|Hne].
  - by rewrite bool_decide_eq_true_2, map_size_empty.
  - rewrite bool_decide_eq_false_2 by done.
    apply Nat.eqb_neq. by rewrite map_size_empty_iff.
Qed.

Lemma find_never {A} (f : A → bool) (l : list A) :
  (∀ x, In x l → f x = false) → find f l = None.
Proof.
  induction l as [|x l IH]; intros Hf; [done|]. simpl.
  rewrite (Hf x) by (by left). apply IH. intros y Hy. apply Hf. by right.
Qed.

(** The two callbacks of [onAddFile] run one after the other, with no
    other handler in between: the add is settled without a failure, the
    checksum counter goes down by one, and exactly one call is made. It is
    [moveFile(doc, same)] for the first document [same] of the answer of
    [byChecksum] whose path is pending, and then the record at that path
    is taken out of [pending] and its timeout disarmed; it is
    [addFile(doc)], with [pending] and the timers as they were, when
    nothing is pending, when the lookup fails, and when no document of the
    answer has its path pending. *)
Theorem onAddFile_settles (filePath : string) (stats : Watcher.Stats) (checksum : string)
    (answer : Error + list Metadata) (st : Watcher.State) :
  let doc := Watcher.createDoc filePath stats (Some checksum) in
  let matched := match answer with
                 | inr docs =>
                     find (λ d, bool_decide (is_Some (Watcher.pending st !! path d))) docs
                 | inl _ => None
                 end in
  ∃ st',
    Watcher.onAddFile_checksummed filePath stats checksum answer st = Ok st'
    ∧ Watcher.checksums st' = (Watcher.checksums st - 1)%Z
    ∧ Watcher.paths st' = Watcher.paths st
    ∧ Watcher.next_handle st' = Watcher.next_handle st
    ∧ match matched with
      | Some same =>
          Watcher.prepCalls st'
          = (Watcher.prepCalls st ++ [Watcher.moveFile (Watcher.side st) doc same])%list
          ∧ Watcher.pending st' = delete (path same) (Watcher.pending st)
          ∧ ∃ r, Watcher.pending st !! path same = Some r
                 ∧ Watcher.timers st'
                   = match Watcher.timeout r with
                     | Some h => delete h (Watcher.timers st)
                     | None => Watcher.timers st
                     end
      | None =>
          Watcher.prepCalls st'
          = (Watcher.prepCalls st ++ [Watcher.addFile (Watcher.side st) doc])%list
          ∧ Watcher.pending st' = Watcher.pending st
          ∧ Watcher.timers st' = Watcher.timers st
      end.
Proof.
  intros doc matched.
  unfold Watcher.onAddFile_checksummed, Watcher.onAddFile_created. rewrite keys_empty.
  fold doc. destruct (decide (Watcher.pending st = ∅)) as [Hnone|Hsome].
  { rewrite (bool_decide_eq_true_2 _ Hnone).
    assert (matched = None) as ->.
    { unfold matched. destruct answer as [e|docs]; [done|]. apply find_never.
      intros d _. apply bool_decide_eq_false_2. rewrite Hnone, lookup_empty.
      by intros []%is_Some_None. }
    eexists. split; [done|]. done. }
  rewrite (bool_decide_eq_false_2 _ Hsome).
  unfold Watcher.onAddFile_looked_up. destruct answer as [e|docs].
  { eexists. split; [done|]. done. }
  simpl Watcher.pending.
  rewrite (find_ext_in _ (λ d, bool_decide (is_Some (Watcher.pending st !! path d)))).
  2:{ intros d _. apply bool_decide_ext. by rewrite keys_elem, elem_of_dom. }
  fold matched. destruct matched as [same|] eqn:Hfind.
  - apply find_some in Hfind as [_ [r Hr]%bool_decide_eq_true]. rewrite Hr.
    eexists. split; [done|].
    destruct (Watcher.timeout r) eqn:Ht; simpl; repeat split; try done;
      exists r; by rewrite Ht.
  - eexists. split; [done|]. done.
Qed.

(** C5. The answer of [byChecksum] comes late. [a.txt] is unlinked and
    pending; [b.txt] is added, its checksum is ready and, [pending] not
    being empty, the documents with this checksum are asked for, with
    [a.txt] among the keys kept for the answer; then [a.txt] is added
    again, which finalizes its record ([deleteFile(a.txt)]); then the
    answer arrives, with the document of [a.txt] in it. The callback
    looks up the record of its match, which is gone, and throws: for
    [b.txt] neither [addFile] nor [moveFile] is called. Had the keys been
    read when the answer arrived, [addFile(b.txt)] would have been called,
    as the specification has it for a match that is not pending. *)
Theorem onAddFile_late_answer_throws :
  let a := Sample.doc "a.txt" File (Some "X") (Sample.both 1 1) in
  let doc := Watcher.createDoc "b.txt" Sample.stats (Some "X") in
  let st0 := Watcher.onUnlinkFile "a.txt" Watcher.start in
  ∃ st1 st2 st3,
    Watcher.onAddFile "b.txt" st0 = Ok st1
    ∧ Watcher.onAddFile_created "b.txt" Sample.stats (inr "X") st1
      = Watcher.AwaitByChecksum ["a.txt"] doc st1
    ∧ Watcher.onAddFile "a.txt" st1 = Ok st2
    ∧ Watcher.prepCalls st2 = [Watcher.deleteFile LocalSide "a.txt"]
    ∧ Watcher.pending st2 = ∅
    ∧ Watcher.onAddFile_looked_up ["a.txt"] doc (inr [a]) st2 = Throw TypeError
    ∧ Watcher.onAddFile_checksummed "b.txt" Sample.stats "X" (inr [a]) st2 = Ok st3
    ∧ Watcher.prepCalls st3
      = [Watcher.deleteFile LocalSide "a.txt"; Watcher.addFile LocalSide doc].
Proof.
  intros a doc st0.
  destruct (Watcher.onAddFile "b.txt" st0) as [st1|e] eqn:E1; vm_compute in E1;
    [|discriminate E1].
  injection E1 as <-.
  eexists _, _, _. split; [reflexivity|]. split; [by vm_compute|].
  split; [by vm_compute|]. split; [by vm_compute|]. split; [by vm_compute|].
  split; [by vm_compute|]. split; by vm_compute.
Qed.

(** [a.txt] was unlinked and is pending when [b.txt] appears with the
    checksum the journal has for [c.txt] and [a.txt]: a move from
    [a.txt], the timer of its record is cleared and nothing stays pending. *)
Lemma onAddFile_settles_witness :
  let st := Watcher.onUnlinkFile "a.txt" Watcher.start in
  let a := Sample.doc "a.txt" File (Some "X") (Sample.both 1 1) in
  let c := Sample.doc "c.txt" File (Some "X") (Sample.both 1 1) in
  let doc := Watcher.createDoc "b.txt" Sample.stats (Some "X") in
  ∃ st', Watcher.onAddFile_checksummed "b.txt" Sample.stats "X" (inr [c; a]) st = Ok st'
         ∧ Watcher.checksums st' = (-1)%Z
         ∧ Watcher.prepCalls st' = [Watcher.moveFile LocalSide doc a]
         ∧ Watcher.pending st' = ∅
         ∧ Watcher.timers st' = ∅.
Proof.
  intros st a c doc.
  destruct (onAddFile_settles "b.txt" Sample.stats "X" (inr [c; a]) st)
    as (st' & E & Hsum & _ & _ & Hm).
  exists st'. split; [exact E|]. split; [by rewrite Hsum|].
  assert (Hfind : find (λ d, bool_decide (is_Some (Watcher.pending st !! path d))) [c; a]
                  = Some a) by (by vm_compute).
  cbv zeta in Hm. rewrite Hfind in Hm. destruct Hm as (Hcalls & Hpend & r & Hr & Ht).
  rewrite Hcalls, Hpend, Ht.
  assert (r = Watcher.mkPending Watcher.OfFile (Some 0%nat) None) as ->.
  { vm_compute in Hr. by injection Hr as <-. }
  split; [done|]. split; by vm_compute.
Defined.

(** [a.txt] was unlinked and is pending when [b.txt] appears with the
    checksum the journal has for [a.txt]: a move, and nothing stays
    pending. With another checksum on record for no pending path: an add. *)
Example onAddFile_move :
  let st := Watcher.onUnlinkFile "a.txt" Watcher.start in
  let a := Sample.doc "a.txt" File (Some "X") (Sample.both 1 1) in
  let c := Sample.doc "c.txt" File (Some "X") (Sample.both 1 1) in
  let doc := Watcher.createDoc "b.txt" Sample.stats (Some "X") in
  (∃ st', Watcher.onAddFile_checksummed "b.txt" Sample.stats "X" (inr [c; a]) st = Ok st'
          ∧ Watcher.prepCalls st' = [Watcher.moveFile LocalSide doc a]
          ∧ Watcher.pending st' = ∅ ∧ Watcher.timers st' = ∅)
  ∧ (∃ st', Watcher.onAddFile_checksummed "b.txt" Sample.stats "X" (inr [c]) st = Ok st'
            ∧ Watcher.prepCalls st' = [Watcher.addFile LocalSide doc]
            ∧ is_Some (Watcher.pending st' !! "a.txt")).
Proof.
  intros st a c doc. split.
  - eexists. split; [by vm_compute|]. by vm_compute.
  - eexists. split; [by vm_compute|]. split; [by vm_compute|]. eexists. by vm_compute.
Qed.

(** Scenario S3: [a] is unlinked; its timer comes due with no checksum
    under way, so [deleteFile(a)] is emitted; then [b] is added with
    nothing pending: [addFile(b)], and no move. *)
Example delete_then_unrelated_add :
  let st := Watcher.onUnlinkFile "a" Watcher.start in
  match Watcher.fire 0 st with
  | Ok st1 =>
      match Watcher.onAddFile "b" st1 with
      | Ok st2 =>
          match Watcher.onAddFile_checksummed "b" Sample.stats "Y" (inr []) st2 with
          | Ok st3 => Ok (Watcher.prepCalls st3)
          | Throw e => Throw e
          end
      | Throw e => Throw e
      end
  | Throw e => Throw e
  end
  = Ok [Watcher.deleteFile LocalSide "a";
        Watcher.addFile LocalSide (Watcher.createDoc "b" Sample.stats (Some "Y"))].
Proof. by vm_compute. Qed.

(* ===================================================================== *)
(** ** The watcher: the end of the initial scan *)
(* ===================================================================== *)

Section Ready.

Variable deleteDoc_error : Metadata → option Error.

Lemma eachSeries_swept (docs : list Metadata) (st : Watcher.State) (ps : list string) :
  Watcher.paths st = Some ps →
  Watcher.eachSeries deleteDoc_error docs st
  = Ok (emit_all (map (Watcher.deleteDoc (Watcher.side st))
                      (swept deleteDoc_error (unseen ps docs)).1) st,
        (swept deleteDoc_error (unseen ps docs)).2).
Proof.
  revert st. induction docs as [|d docs IH]; intros st Hps.
  - simpl. unfold emit_all. rewrite app_nil_r. by destruct st.
  - simpl. rewrite Hps. unfold unseen in *. rewrite filter_cons.
    destruct (decide (path d ∉ ps)) as [Hout|Hin].
    + rewrite bool_decide_eq_false_2 by done. simpl.
      destruct (deleteDoc_error d) as [e|]; [done|].
      rewrite IH by done.
      destruct (swept deleteDoc_error (filter _ docs)) as [sent err]. simpl.
      unfold emit_all, Watcher.emit. simpl. by rewrite <- app_assoc.
    + rewrite bool_decide_eq_true_2 by (by apply dec_stable).
      by apply IH.
Qed.

Lemma swept_all (gone : list Metadata) :
  (∀ d, d ∈ gone → deleteDoc_error d = None) → swept deleteDoc_error gone = (gone, None).
Proof.
  induction gone as [|d gone IH]; intros Hok; [done|]. simpl.
  rewrite (Hok d) by (by left). rewrite IH; [done|].
  intros d' Hd'. apply Hok. by right.
Qed.

End Ready.

(** Below a folder, in the order of the ids, comes after it. *)
Lemma prefix_leb (p s : string) : String.prefix p s = true → String.leb p s = true.
Proof.
  unfold String.leb. revert s. induction p as [|a p IH]; intros s Hp.
  - by destruct s.
  - destruct s as [|b s]; [done|]. simpl in Hp.
    destruct (ascii_dec a b) as [->|]; [|done].
    specialize (IH s Hp). simpl.
    unfold Ascii.compare. rewrite N.compare_refl. done.
Qed.

Lemma under_lt (parent child : string) :
  Pouch.under parent child = true → String.le parent child ∧ ¬ String.le child parent.
Proof.
  intros Hu. assert (Hle : String.le parent child).
  { unfold String.le. apply Is_true_true, prefix_leb.
    unfold Pouch.under in Hu. apply prefix_iff in Hu as [r ->].
    rewrite app_assoc_s. apply prefix_app. }
  split; [done|]. intros Hge. apply under_ne in Hu.
  apply Hu. by apply (anti_symm String.le).
Qed.

(** The answer of [byRecursivePath] is in ascending order of the ids. *)
Lemma docs_under_sorted (w : World) (prefix : string) :
  StronglySorted Pouch.id_le (Pouch.docs_under w prefix).
Proof.
  unfold Pouch.docs_under. apply StronglySorted_merge_sort.
  - intros a b c. unfold Pouch.id_le. apply (transitivity (R := String.le)).
  - intros a b. unfold Pouch.id_le. apply (total String.le).
Qed.

Lemma before_sublist {A} (x y : A) (l : list A) : before x y l ↔ [x; y] `sublist_of` l.
Proof.
  rewrite sublist_cons_l. split.
  - intros (l1 & l2 & l3 & ->). exists l1, (l2 ++ y :: l3)%list. split; [done|].
    apply singleton_sublist_l, elem_of_app. right. by left.
  - intros (k1 & k2 & -> & (l2 & l3 & ->)%singleton_sublist_l%list_elem_of_split).
    by exists k1, l2, l3.
Qed.

Lemma before_or {A} (x y : A) (l : list A) :
  x ∈ l → y ∈ l → x = y ∨ before x y l ∨ before y x l.
Proof.
  intros (l1 & l2 & ->)%list_elem_of_split Hy.
  apply elem_of_app in Hy as [Hy|[->|Hy]%elem_of_cons]; [|by left|].
  - apply list_elem_of_split in Hy as (l3 & l4 & ->).
    right. right. exists l3, l4, l2. by rewrite <- app_assoc.
  - apply list_elem_of_split in Hy as (l3 & l4 & ->).
    right. left. by exists l1, l3, l4.
Qed.

Lemma before_filter {A} (P : A → Prop) `{∀ x, Decision (P x)} (x y : A) (l : list A) :
  before x y (filter P l) → before x y l.
Proof.
  rewrite !before_sublist. intros Hs. etrans; [done|]. apply sublist_filter.
Qed.

Lemma before_rev {A} (x y : A) (l : list A) : before x y (rev l) → before y x l.
Proof.
  intros (l1 & l2 & l3 & Hl). exists (rev l3), (rev l2), (rev l1).
  rewrite <- (rev_involutive l), Hl.
  rewrite rev_app_distr. simpl. rewrite rev_app_distr. simpl.
  by rewrite <- !app_assoc.
Qed.

Lemma sorted_before {A} (R : relation A) (x y : A) (l : list A) :
  StronglySorted R l → before x y l → R x y.
Proof.
  intros Hs (l1 & l2 & l3 & ->).
  apply StronglySorted_app_1_r in Hs.
  apply StronglySorted_inv in Hs as [_ Hall].
  apply (proj1 (Forall_forall _ _) Hall). apply elem_of_app. right. by left.
Qed.

Section ReadySweep.

Variable deleteDoc_error : Metadata → option Error.

(** C8, as amended. At the end of the initial scan, [onReady] goes through
    the documents of [byRecursivePath('')] in the reverse of the order of
    the answer and emits one [deleteDoc] for each document whose path is
    not among the paths seen, until a [deleteDoc] reports an error; then
    [paths] is null. When no [deleteDoc] reports an error, every such
    document gets its [deleteDoc]. With the answer in ascending order of
    the ids, a document below another one comes before it. *)
Theorem onReady_sweep (docs : list Metadata) (st : Watcher.State) (ps : list string) :
  Watcher.paths st = Some ps →
  let gone := unseen ps (rev docs) in
  Watcher.onReady deleteDoc_error (inr docs) st
  = Ok (Watcher.with_paths None
          (emit_all (map (Watcher.deleteDoc (Watcher.side st))
                         (swept deleteDoc_error gone).1) st),
        (swept deleteDoc_error gone).2)
  ∧ ((∀ d, d ∈ docs → path d ∉ ps → deleteDoc_error d = None) →
     swept deleteDoc_error gone = (gone, None))
  ∧ (StronglySorted Pouch.id_le docs →
     ∀ child parent, child ∈ gone → parent ∈ gone →
       Pouch.under (_id parent) (_id child) = true → before child parent gone).
Proof.
  intros Hps gone. split; [|split].
  - unfold Watcher.onReady. by rewrite (eachSeries_swept _ _ _ ps Hps).
  - intros Hok. apply swept_all.
    intros d [Hout Hd]%list_elem_of_filter. apply Hok; [|done].
    by apply list_elem_of_In, in_rev, list_elem_of_In in Hd.
  - intros Hsorted child parent Hc Hp Hu.
    destruct (under_lt _ _ Hu) as [_ Hlt].
    destruct (before_or child parent gone Hc Hp) as [Heq|[Hb|Hb]]; [|done|].
    + subst. by apply under_ne in Hu.
    + exfalso. apply Hlt.
      apply before_filter, before_rev in Hb.
      apply (sorted_before _ _ _ _ Hsorted Hb).
Qed.

End ReadySweep.

(** Neither [a] nor [b] is on disk any more; [deleteDoc] of [b] reports an
    error: the sweep stops there and [a] gets no [deleteDoc]. *)
Lemma onReady_sweep_counterexample :
  let a := Sample.doc "a" File (Some "A") (Sample.both 1 1) in
  let b := Sample.doc "b" File (Some "B") (Sample.both 1 1) in
  let failing := λ d : Metadata, if bool_decide (_id d = "b")
                                 then Some (PouchError 500) else None in
  ¬ sweep_complete failing [a; b] Watcher.start.
Proof.
  intros a b failing Hclaim.
  specialize (Hclaim _ _ [] eq_refl eq_refl a).
  assert (Ha : Watcher.deleteDoc LocalSide a ∈ [Watcher.deleteDoc LocalSide b]).
  { apply Hclaim; [by left | by intros ?%elem_of_nil]. }
  apply list_elem_of_singleton in Ha. discriminate Ha.
Qed.

Lemma onReady_sweep_witness :
  let dir := Sample.doc "dir" Folder None (Sample.both 1 1) in
  let a := Sample.doc "dir/a" File (Some "A") (Sample.both 1 1) in
  let kept := Sample.doc "kept" File (Some "K") (Sample.both 1 1) in
  let st := Watcher.with_paths (Some ["kept"]) Watcher.start in
  ∃ st', Watcher.onReady (λ _, None) (inr [dir; a; kept]) st = Ok (st', None)
         ∧ Watcher.prepCalls st' = [Watcher.deleteDoc LocalSide a; Watcher.deleteDoc LocalSide dir]
         ∧ Watcher.paths st' = None
         ∧ before a dir (unseen ["kept"] (rev [dir; a; kept])).
Proof.
  intros dir a kept st.
  destruct (onReady_sweep (λ _, None) [dir; a; kept] st ["kept"]) as (Hrun & Hall & Horder);
    [reflexivity|].
  rewrite Hall in Hrun by done.
  eexists. split; [exact Hrun|]. split; [by vm_compute|]. split; [done|].
  apply Horder.
  - repeat constructor; by vm_compute.
  - by vm_compute; left.
  - by vm_compute; right; left.
  - reflexivity.
Defined.

(* ===================================================================== *)
(** ** Writes that add: [addFile], [updateFile], [putFolder] *)
(* ===================================================================== *)

Lemma bind_inv {A B} (m : M A) (f : A → M B) (w w' : World) (r : Result B) :
  bind m f w = (r, w') →
  (∃ a w1, m w = (Ok a, w1) ∧ f a w1 = (r, w'))
  ∨ (∃ e, m w = (Throw e, w') ∧ r = Throw e).
Proof.
  unfold bind. destruct (m w) as [[a|e] w1]; intros E.
  - left. eauto.
  - right. inversion E; subst. eauto.
Qed.

Lemma deleted_set_rev v d : _deleted (set_rev v d) = _deleted d.
Proof. by destruct d. Qed.

Lemma live_agree (w w' : World) (id : string) :
  journal w' !! id = journal w !! id → live w' id ↔ live w id.
Proof. unfold live, Pouch.current. by intros ->. Qed.

Lemma put_Throw (doc : Metadata) (w w' : World) (e : Error) :
  Pouch.put doc w = (Throw e, w') → w' = w.
Proof. unfold Pouch.put. destruct (Pouch.put_journal _ doc); by intros [=]. Qed.

(** What was put and is no tombstone is what [get] reads afterwards. *)
Lemma put_live (doc d : Metadata) (w w' : World) :
  Pouch.put doc w = (Ok d, w') → _deleted doc = false →
  Pouch.current w' (_id doc) = Some d.
Proof.
  unfold Pouch.put, Pouch.put_journal. destruct (Pouch.rev_matches _ doc); [|done].
  intros [= <- <-] Hd. unfold Pouch.current. simpl. rewrite lookup_insert_eq. simpl.
  unfold Pouch.stored. by rewrite deleted_set_rev, Hd.
Qed.

Lemma put_lives (doc : Metadata) (w w' : World) (r : Result Metadata) (id : string) :
  Pouch.put doc w = (r, w') → _deleted doc = false →
  live w' id ↔ live w id ∨ (id = _id doc ∧ ∃ d, r = Ok d).
Proof.
  intros Hput Hd. destruct (decide (id = _id doc)) as [->|Hne].
  - destruct r as [d|e].
    + split; [intros _; right; eauto|]. intros _. exists d. by apply (put_live doc d w w').
    + apply put_Throw in Hput as ->. split; [by left|]. by intros [?|[_ [? ?]]].
  - rewrite (live_agree w w' id (put_other _ _ _ _ _ Hput Hne)).
    split; [by left|]. by intros [?|[? _]].
Qed.

Section Growth.

Context `{PathModule} `{MetadataModule} `{FsUtils} `{Collaborators}.

Lemma grows_refl (w : World) : grows w w.
Proof. split; [by intros id|]. intros id Hl. by left. Qed.

Lemma grows_journal (w w' : World) : journal w' = journal w → grows w w'.
Proof.
  intros Hj. split.
  - intros id. apply live_agree. by rewrite Hj.
  - intros id Hl. left. apply (live_agree w w' id); [by rewrite Hj | done].
Qed.

Lemma grows_trans (w1 w2 w3 : World) : grows w1 w2 → grows w2 w3 → grows w1 w3.
Proof.
  intros [Hk1 Hn1] [Hk2 Hn2]. split.
  - intros id Hl. by apply Hk2, Hk1.
  - intros id Hl. destruct (Hn2 id Hl) as [Hl2|[Htop|Hp]]; [|by right; left|by right; right].
    destruct (Hn1 id Hl2) as [Hl1|[Htop|Hp]]; [by left|by right; left|].
    right. right. by apply Hk2.
Qed.

Lemma grows_closed (w w' : World) : grows w w' → tree_closed w → tree_closed w'.
Proof.
  intros [Hk Hn] Hc id Hl. destruct (Hn id Hl) as [Hl0|Hok]; [|done].
  destruct (Hc id Hl0) as [Htop|Hp]; [by left|]. right. by apply Hk.
Qed.

(** A put of a document that is no tombstone, at an id that is live or has
    its parent. *)
Lemma put_grows (doc : Metadata) (w w' : World) (r : Result Metadata) :
  Pouch.put doc w = (r, w') → _deleted doc = false →
  live w (_id doc) ∨ path_dirname (_id doc) = "." ∨ live w (path_dirname (_id doc)) →
  grows w w'.
Proof.
  intros Hput Hd Hat.
  assert (Hk : keeps_lives w w').
  { intros id Hl. apply (put_lives doc w w' r id Hput Hd). by left. }
  split; [done|]. intros id [Hl|[-> _]]%(put_lives doc w w' r id Hput Hd); [by left|].
  destruct Hat as [Hl|[Htop|Hp]]; [by left|by right; left|].
  right. right. by apply Hk.
Qed.

Lemma put_ret_grows (doc : Metadata) (w w' : World) (r : Result Response) :
  (x <- Pouch.put doc ;; ret (RPut x))%merge w = (r, w') → _deleted doc = false →
  live w (_id doc) ∨ path_dirname (_id doc) = "." ∨ live w (path_dirname (_id doc)) →
  grows w w' ∧ (∀ x, r = Ok x → live w' (_id doc)).
Proof.
  intros [(d & w1 & Hput & E)|(e & Hput & ->)]%bind_inv Hd Hat.
  - unfold ret in E. injection E as <- <-. split; [by apply (put_grows doc w w1 (Ok d))|].
    intros _ _. exists d. by apply (put_live doc d w w1).
  - split; [by apply (put_grows doc w w' (Throw e))|]. done.
Qed.

Lemma conflict_ret_journal (side : SideName) (doc : Metadata) (w w' : World)
    (r : Result Response) :
  (dst <- Merge.resolveConflictAsync side doc ;; ret (RDoc dst))%merge w = (r, w') →
  journal w' = journal w.
Proof.
  unfold bind. rewrite resolveConflictAsync_eq.
  destruct (sideResolveConflict _ _ _); intros [= <- <-]; done.
Qed.

(** The end of [addFileAsync], [updateFileAsync] and [putFolderAsync]
    when nothing is found at [doc._id]. *)
Lemma ensure_put_grows (ensure : SideName → Metadata → M unit) (side : SideName)
    (doc : Metadata) (w w' : World) (r : Result Response) :
  ensures ensure →
  (ensure side doc ;;; x <- Pouch.put doc ;; ret (RPut x))%merge w = (r, w') →
  _deleted doc = false →
  grows w w' ∧ (∀ x, r = Ok x → live w' (_id doc)).
Proof.
  intros Hens [([] & w1 & He & E)|(e & He & ->)]%bind_inv Hd.
  - destruct (Hens _ _ _ _ _ He) as [Hg Hp]. specialize (Hp eq_refl).
    destruct (put_ret_grows doc w1 w' r E Hd) as [Hg' Hl]; [by right|].
    split; [by apply (grows_trans w w1 w')|done].
  - split; [|done]. by apply (Hens _ _ _ _ _ He).
Qed.

Lemma id_markSide side doc prev : _id (markSide side doc prev) = _id doc.
Proof. by destruct doc. Qed.

Lemma deleted_markSide side doc prev : _deleted (markSide side doc prev) = _deleted doc.
Proof. by destruct doc. Qed.

Lemma putFolder_with_grows (ensure : SideName → Metadata → M unit) (side : SideName)
    (doc : Metadata) (w w' : World) (r : Result Response) :
  ensures ensure → _deleted doc = false →
  Merge.putFolder_with ensure side doc w = (r, w') →
  grows w w' ∧ (∀ x, r = Ok x → live w' (_id doc)).
Proof.
  intros Hens Hd. unfold Merge.putFolder_with, bind at 1. rewrite try_get_eq.
  destruct (Pouch.current w (_id doc)) as [folder|] eqn:Hcur.
  - assert (Hl : live w (_id doc)) by (by exists folder).
    destruct (docType folder).
    + intros Hj%conflict_ret_journal. split; [by apply grows_journal|].
      intros _ _. apply (live_agree w w'); [by rewrite Hj | done].
    + destruct (sameFolder folder _).
      * intros [= <- <-]. split; [apply grows_refl | done].
      * intros E. apply put_ret_grows in E as [Hg Hl'].
        -- split; [done|]. intros x Hx. specialize (Hl' x Hx). by destruct doc.
        -- by destruct doc.
        -- left. by destruct doc.
  - intros E. apply ensure_put_grows in E as [Hg Hl]; [|done|by destruct doc].
    split; [done|]. intros x Hx. specialize (Hl x Hx). by destruct doc.
Qed.

Lemma ensureParentExist_ensures (fuel : nat) : ensures (Merge.ensureParentExistAsync fuel).
Proof.
  induction fuel as [|fuel IH]; intros side doc w r w'; simpl;
    (destruct (decide (path_dirname (_id doc) = ".")) as [Htop|Htop];
     [rewrite (bool_decide_eq_true_2 _ Htop); intros [= <- <-];
      split; [apply grows_refl | by left]|]);
    rewrite (bool_decide_eq_false_2 _ Htop); unfold bind at 1; rewrite try_get_eq;
    (destruct (Pouch.current w (path_dirname (_id doc))) as [folder|] eqn:Hcur;
     [intros [= <- <-]; split; [apply grows_refl | by right; exists folder]|]).
  - intros [= <- <-]. split; [apply grows_refl | done].
  - unfold bind at 1, Merge.date_now.
    intros [([] & w1 & He & E)|(e & He & ->)]%bind_inv.
    + destruct (IH _ _ _ _ _ He) as [Hg1 _].
      apply bind_inv in E as [(x & w2 & Hp & E)|(e & Hp & ->)].
      * unfold ret in E. injection E as <- <-.
        apply (putFolder_with_grows _ _ _ _ _ _ IH) in Hp as [Hg2 Hl]; [|done].
        split; [by apply (grows_trans w w1 w2)|]. intros _. right. by apply (Hl x).
      * apply (putFolder_with_grows _ _ _ _ _ _ IH) in Hp as [Hg2 _]; [|done].
        split; [by apply (grows_trans w w1 w')|done].
    + split; [|done]. by apply (IH _ _ _ _ _ He).
Qed.

Lemma putFolder_grows (fuel : nat) (side : SideName) (doc : Metadata) (w w' : World)
    (r : Result Response) :
  _deleted doc = false → Merge.putFolderAsync fuel side doc w = (r, w') →
  grows w w' ∧ (∀ x, r = Ok x → live w' (_id doc)).
Proof. apply putFolder_with_grows, ensureParentExist_ensures. Qed.

Lemma updateFile_grows (fuel : nat) (side : SideName) (doc : Metadata) (w w' : World)
    (r : Result Response) :
  _deleted doc = false → Merge.updateFileAsync fuel side doc w = (r, w') →
  grows w w' ∧ (∀ x, r = Ok x → live w' (_id doc)).
Proof.
  intros Hd. unfold Merge.updateFileAsync, bind at 1. rewrite try_get_eq.
  destruct (Pouch.current w (_id doc)) as [file|] eqn:Hcur.
  - assert (Hl : live w (_id doc)) by (by exists file).
    assert (Hfinish : ∀ d : Metadata, _id d = _id doc → _deleted d = false →
              (if sameFile file d then ret RNull
               else (x <- Pouch.put d ;; ret (RPut x))%merge) w = (r, w') →
              grows w w' ∧ (∀ x, r = Ok x → live w' (_id doc))).
    { intros d Hid Hdd. destruct (sameFile file d).
      - intros [= <- <-]. split; [apply grows_refl | done].
      - intros E. apply put_ret_grows in E as [Hg Hl']; [|done|left; by rewrite Hid].
        split; [done|]. by rewrite <- Hid. }
    destruct (docType file).
    + destruct (sameBinary file _).
      * apply Hfinish; by destruct doc.
      * destruct (isUpToDate side file); simpl.
        -- apply Hfinish; by destruct doc.
        -- intros Hj%conflict_ret_journal. split; [by apply grows_journal|].
           intros _ _. apply (live_agree w w'); [by rewrite Hj | done].
    + intros [= <- <-]. split; [apply grows_refl | done].
  - intros E. apply ensure_put_grows in E as [Hg Hl];
      [|apply ensureParentExist_ensures|by destruct doc].
    split; [done|]. intros x Hx. specialize (Hl x Hx). by destruct doc.
Qed.

Lemma addFile_grows (fuel : nat) (side : SideName) (doc : Metadata) (w w' : World)
    (r : Result Response) :
  _deleted doc = false → Merge.addFileAsync fuel side doc w = (r, w') →
  grows w w' ∧ (∀ x, r = Ok x → live w' (_id doc)).
Proof.
  intros Hd. unfold Merge.addFileAsync, bind at 1. rewrite try_get_eq.
  destruct (Pouch.current w (_id doc)) as [file|] eqn:Hcur.
  - assert (Hl : live w (_id doc)) by (by exists file).
    assert (Hconflict : ∀ s d, (dst <- Merge.resolveConflictAsync s d ;; ret (RDoc dst))%merge w
                               = (r, w') →
              grows w w' ∧ (∀ x, r = Ok x → live w' (_id doc))).
    { intros s d Hj%conflict_ret_journal. split; [by apply grows_journal|].
      intros _ _. apply (live_agree w w'); [by rewrite Hj | done]. }
    destruct (docType file); [|apply Hconflict].
    destruct (sameBinary file _).
    + destruct (sameFile file _).
      * intros [= <- <-]. split; [apply grows_refl | done].
      * intros E. apply put_ret_grows in E as [Hg Hl']; [|by destruct doc|left; by destruct doc].
        split; [done|]. intros x Hx. specialize (Hl' x Hx). by destruct doc.
    + destruct (_ && _); [|apply Hconflict].
      unfold Merge.resolveInitialAddAsync.
      assert (Hupdate : Merge.updateFileAsync fuel side (markSide side doc (Some file)) w
                        = (r, w') →
                grows w w' ∧ (∀ x, r = Ok x → live w' (_id doc))).
      { intros E. apply updateFile_grows in E as [Hg Hl']; [|by destruct doc].
        split; [done|]. intros x Hx. specialize (Hl' x Hx). by destruct doc. }
      destruct (negb _); [apply Hupdate|].
      destruct (JS.strictEq _ _); [apply Hupdate|].
      intros [(b & w1 & Hprev & E)|(e & Hprev & ->)]%bind_inv.
      * assert (w1 = w) as ->.
        { revert Hprev. unfold catch, bind, Pouch.getPreviousRev, ret.
          destruct (sides_local (sides file)); [|by intros [=]].
          destruct (list_find _ _) as [[? ?]|]; by intros [=]. }
        destruct b; [|by apply (Hconflict _ _ E)].
        injection E as <- <-. split; [apply grows_refl | done].
      * exfalso. revert Hprev. unfold catch, bind, Pouch.getPreviousRev, ret.
        destruct (sides_local (sides file)); [|by intros [=]].
        destruct (list_find _ _) as [[? ?]|]; by intros [=].
  - intros E. apply ensure_put_grows in E as [Hg Hl];
      [|apply ensureParentExist_ensures|by destruct doc].
    split; [done|]. intros x Hx. specialize (Hl x Hx). by destruct doc.
Qed.

(** After [ensureParentExistAsync] has returned, the id of [doc] is at the
    top ([dirname] gives ["."]) or a live document is filed at its
    [dirname]. *)
Theorem ensureParentExist_parent_live (fuel : nat) (side : SideName) (doc : Metadata)
    (w w' : World) :
  Merge.ensureParentExistAsync fuel side doc w = (Ok tt, w') →
  path_dirname (_id doc) = "." ∨ live w' (path_dirname (_id doc)).
Proof. intros E. by apply (ensureParentExist_ensures fuel side doc w (Ok tt) w' E). Qed.

(** [addFileAsync], [updateFileAsync] and [putFolderAsync] of a document
    that is not flagged [_deleted] take no live document away, however
    they end: with a write, with [null], with a conflict, or with an
    error. *)
Theorem writes_keep_lives (fuel : nat) (side : SideName) (doc : Metadata) (w : World) :
  _deleted doc = false →
  keeps_lives w (Merge.addFileAsync fuel side doc w).2
  ∧ keeps_lives w (Merge.updateFileAsync fuel side doc w).2
  ∧ keeps_lives w (Merge.putFolderAsync fuel side doc w).2.
Proof.
  intros Hd. split; [|split].
  - destruct (Merge.addFileAsync fuel side doc w) as [r w'] eqn:E.
    by apply (addFile_grows fuel side doc w w' r Hd E).
  - destruct (Merge.updateFileAsync fuel side doc w) as [r w'] eqn:E.
    by apply (updateFile_grows fuel side doc w w' r Hd E).
  - destruct (Merge.putFolderAsync fuel side doc w) as [r w'] eqn:E.
    by apply (putFolder_grows fuel side doc w w' r Hd E).
Qed.

(** Where every live document has a live document at the [dirname] of its
    id (or is at the top), this is still so after [addFileAsync],
    [updateFileAsync] and [putFolderAsync] of a document that is not
    flagged [_deleted], however they end. *)
Theorem writes_keep_tree (fuel : nat) (side : SideName) (doc : Metadata) (w : World) :
  _deleted doc = false → tree_closed w →
  tree_closed (Merge.addFileAsync fuel side doc w).2
  ∧ tree_closed (Merge.updateFileAsync fuel side doc w).2
  ∧ tree_closed (Merge.putFolderAsync fuel side doc w).2.
Proof.
  intros Hd Hc. split; [|split].
  - destruct (Merge.addFileAsync fuel side doc w) as [r w'] eqn:E.
    apply (grows_closed w); [|done]. by apply (addFile_grows fuel side doc w w' r Hd E).
  - destruct (Merge.updateFileAsync fuel side doc w) as [r w'] eqn:E.
    apply (grows_closed w); [|done]. by apply (updateFile_grows fuel side doc w w' r Hd E).
  - destruct (Merge.putFolderAsync fuel side doc w) as [r w'] eqn:E.
    apply (grows_closed w); [|done]. by apply (putFolder_grows fuel side doc w w' r Hd E).
Qed.

(** When [addFileAsync], [updateFileAsync] or [putFolderAsync] of a document
    that is not flagged [_deleted] returns, a live document is filed at
    [doc._id]: the one written, the one found unchanged, or the one that
    made the conflict. *)
Theorem writes_leave_live (fuel : nat) (side : SideName) (doc : Metadata) (w w' : World)
    (x : Response) :
  _deleted doc = false →
  Merge.addFileAsync fuel side doc w = (Ok x, w')
  ∨ Merge.updateFileAsync fuel side doc w = (Ok x, w')
  ∨ Merge.putFolderAsync fuel side doc w = (Ok x, w') →
  live w' (_id doc).
Proof.
  intros Hd [E|[E|E]].
  - by apply (proj2 (addFile_grows fuel side doc w w' (Ok x) Hd E) x).
  - by apply (proj2 (updateFile_grows fuel side doc w w' (Ok x) Hd E) x).
  - by apply (proj2 (putFolder_grows fuel side doc w w' (Ok x) Hd E) x).
Qed.

End Growth.

(* ===================================================================== *)
(** ** Moving a file to a free place *)
(* ===================================================================== *)

Section MoveFileFree.

Context `{PathModule} `{MetadataModule} `{FsUtils} `{Collaborators}.

(** Nothing is done where the parent is there already. *)
Lemma ensureParentExist_there (fuel : nat) (side : SideName) (doc : Metadata) (w : World) :
  path_dirname (_id doc) = "." ∨ live w (path_dirname (_id doc)) →
  Merge.ensureParentExistAsync fuel side doc w = (Ok tt, w).
Proof.
  intros Hat. destruct (decide (path_dirname (_id doc) = ".")) as [Htop|Htop].
  - destruct fuel; simpl; by rewrite (bool_decide_eq_true_2 _ Htop).
  - destruct Hat as [?|[d Hd]]; [done|].
    destruct fuel; simpl; rewrite (bool_decide_eq_false_2 _ Htop);
      unfold bind at 1; rewrite try_get_eq, Hd; done.
Qed.

(** [moveFileAsync(side, doc, was)] where [was] is known to [side] and
    carries the revision of the live document at [was._id], nothing live is
    filed at [doc._id], and the parent of [doc._id] is there: one bulk
    write of two documents goes through. Afterwards nothing is live at
    [was._id], the newest revision there being a tombstone whose [moveTo]
    is [doc._id]; [doc], completed from [was], is live at [doc._id]; every
    other id and the two sides are left alone. *)
Theorem moveFile_free (fuel : nat) (side : SideName) (doc was cur : Metadata) (w : World) :
  JS.truthy (side_get side (sides was)) = true →
  Pouch.current w (_id was) = Some cur → _rev was = _rev cur →
  Pouch.current w (_id doc) = None → _rev doc = None → _deleted doc = false →
  path_dirname (_id doc) = "." ∨ live w (path_dirname (_id doc)) →
  let doc' := Merge.move_doc side doc was None in
  let was' := Merge.move_was side doc' was in
  ∃ w' tomb hist,
    Merge.moveFileAsync fuel side doc was w = (Ok (RBulk [was'; doc']), w')
    ∧ Pouch.current w' (_id was) = None
    ∧ journal w' !! _id was = Some (tomb :: hist)
    ∧ _deleted tomb = true ∧ moveTo tomb = Some (_id doc)
    ∧ Pouch.current w' (_id doc)
      = Some (Pouch.stored (default [] (journal w !! _id doc)) doc')
    ∧ (∀ id, id ≠ _id was → id ≠ _id doc → journal w' !! id = journal w !! id)
    ∧ calls w' = calls w.
Proof.
  intros Hside Hcur Hrev Hfree Hnew Hlive Hparent doc' was'.
  assert (Hid' : _id doc' = _id doc) by (by destruct doc).
  assert (Hidw : _id was' = _id was) by (by destruct was).
  assert (Hne : _id was ≠ _id doc).
  { intros Heq. rewrite Heq, Hfree in Hcur. done. }
  destruct (bulk_journal_spec [was'; doc'] (journal w)) as (j' & Hbulk & Hin & Hout).
  { simpl. rewrite Hid', Hidw. repeat constructor.
    - by intros ?%list_elem_of_singleton.
    - by intros ?%elem_of_nil. }
  { repeat constructor.
    - rewrite Hidw. rewrite <- Hidw at 1.
      apply (rev_matches_current w was' cur); [by rewrite Hidw|]. by destruct was.
    - apply rev_matches_free; [by rewrite Hid'|]. by destruct doc. }
  exists (Pouch.with_journal j' w).
  exists (Pouch.stored (default [] (journal w !! _id was')) was'),
         (default [] (journal w !! _id was')).
  assert (Hjw : j' !! _id was = Some (Pouch.stored (default [] (journal w !! _id was')) was'
                                     :: default [] (journal w !! _id was'))).
  { rewrite <- Hidw at 1. apply Hin. by left. }
  assert (Hjd : j' !! _id doc = Some (Pouch.stored (default [] (journal w !! _id doc)) doc'
                                     :: default [] (journal w !! _id doc))).
  { rewrite <- Hid'. apply Hin. right. by left. }
  split.
  { unfold Merge.moveFileAsync. rewrite Hside. unfold bind at 1. rewrite try_get_eq, Hfree.
    fold doc' was'. unfold bind at 1.
    assert (Merge.ensureParentExistAsync fuel side doc' w = (Ok tt, w)) as ->.
    { apply ensureParentExist_there. by rewrite Hid'. }
    unfold bind, Pouch.bulkDocs, ret. by rewrite Hbulk. }
  split.
  { unfold Pouch.current. simpl. rewrite Hjw. simpl. by destruct was. }
  split; [done|]. split; [by destruct was|]. split; [by destruct was; rewrite <- Hid'|].
  split.
  { unfold Pouch.current. simpl. rewrite Hjd. simpl.
    assert (_deleted (Pouch.stored (default [] (journal w !! _id doc)) doc') = false) as ->;
      [|done].
    unfold Pouch.stored. rewrite deleted_set_rev. by destruct doc. }
  split; [|done].
  intros id Hw Hd. simpl. apply Hout. simpl. rewrite Hid', Hidw.
  intros [->|[->|?%elem_of_nil]%elem_of_cons]%elem_of_cons; done.
Qed.

End MoveFileFree.

(* ===================================================================== *)
(** ** Deleting a folder *)
(* ===================================================================== *)

Lemma id_dissociated d : _id (Merge.dissociated d) = _id d.
Proof. by destruct d. Qed.
Lemma rev_dissociated d : _rev (Merge.dissociated d) = _rev d.
Proof. by destruct d. Qed.
Lemma deleted_dissociated d : _deleted (Merge.dissociated d) = _deleted d.
Proof. by destruct d. Qed.
Lemma id_erased side d : _id (Merge.erased side d) = _id d.
Proof. by destruct d. Qed.
Lemma rev_erased side d : _rev (Merge.erased side d) = _rev d.
Proof. by destruct d. Qed.
Lemma deleted_erased side d : _deleted (Merge.erased side d) = true.
Proof. by destruct d. Qed.

(** [try { x = await this.pouch.db.get(id) } catch (err) { if (err.status
    === 404) { return ... } throw err }]: the store answers with the live
    document or with 404. *)
Lemma get_or_404 (id : string) (w : World) :
  catch (d <- Pouch.get id ;; ret (Some d))%merge
        (λ err, if bool_decide (err = PouchError 404) then ret None else throw err) w
  = (Ok (Pouch.current w id), w).
Proof. unfold catch, bind, ret, Pouch.get. by destruct (Pouch.current w id). Qed.

Lemma current_stored (j : gmap string (list Metadata)) (w : World) (b : Metadata)
    (hist : list Metadata) :
  j !! _id b = Some (Pouch.stored hist b :: hist) →
  Pouch.current (Pouch.with_journal j w) (_id b)
  = if _deleted b then None else Some (Pouch.stored hist b).
Proof.
  intros Hj. unfold Pouch.current. simpl. rewrite Hj. simpl.
  unfold Pouch.stored. by rewrite deleted_set_rev.
Qed.

Section DeleteFolder.

Context `{PathModule} `{MetadataModule} `{FsUtils} `{Collaborators}.

Lemma delete_loop_ids (side : SideName) (T : gset string) (docs : list Metadata) :
  map _id (Merge.delete_loop side T docs) = map _id docs.
Proof.
  revert T. induction docs as [|d docs IH]; intros T; [done|]. simpl.
  destruct (Merge.preserves side T d); simpl; rewrite IH;
    [by rewrite id_dissociated | by rewrite id_erased].
Qed.

(** What the loop makes of a document: it is kept and dissociated from the
    remote, or it is up to date on [side] and erased. *)
Lemma delete_loop_image (side : SideName) (T : gset string) (docs : list Metadata)
    (d : Metadata) :
  d ∈ docs →
  Merge.dissociated d ∈ Merge.delete_loop side T docs
  ∨ (Merge.erased side d ∈ Merge.delete_loop side T docs ∧ isUpToDate side d = true).
Proof.
  revert T. induction docs as [|d0 docs IH]; intros T; [by intros ?%elem_of_nil|].
  simpl. intros [->|Hd]%elem_of_cons.
  - unfold Merge.preserves. destruct (bool_decide _); simpl; [left; by left|].
    destruct (isUpToDate side d0); simpl; [right; split; [by left|done] | left; by left].
  - destruct (Merge.preserves side T d0).
    + destruct (IH ({[path_dirname (path d0)]} ∪ T) Hd) as [?|[? ?]];
        [left; by right | right; split; [by right|done]].
    + destruct (IH T Hd) as [?|[? ?]]; [left; by right | right; split; [by right|done]].
Qed.

Lemma delete_loop_elem (side : SideName) (T : gset string) (docs : list Metadata)
    (b : Metadata) :
  b ∈ Merge.delete_loop side T docs →
  ∃ d, d ∈ docs ∧ (b = Merge.dissociated d ∨ b = Merge.erased side d).
Proof.
  revert T. induction docs as [|d0 docs IH]; intros T; [by intros ?%elem_of_nil|].
  simpl. destruct (Merge.preserves side T d0); intros [->|Hb]%elem_of_cons.
  - exists d0. split; [by left | by left].
  - destruct (IH _ Hb) as (d & Hd & Hor). exists d. split; [by right | done].
  - exists d0. split; [by left | by right].
  - destruct (IH _ Hb) as (d & Hd & Hor). exists d. split; [by right | done].
Qed.

Lemma delete_loop_modified (side : SideName) (T : gset string) (docs : list Metadata)
    (d : Metadata) :
  d ∈ docs → isUpToDate side d = false →
  Merge.dissociated d ∈ Merge.delete_loop side T docs.
Proof.
  intros Hd Hup. destruct (delete_loop_image side T docs d Hd) as [?|[_ Hup']]; [done|].
  by rewrite Hup in Hup'.
Qed.

Lemma delete_loop_all (side : SideName) (docs : list Metadata) :
  Forall (λ d, isUpToDate side d = true) docs →
  Merge.delete_loop side ∅ docs = map (Merge.erased side) docs.
Proof.
  induction 1 as [|d docs Hd _ IH]; [done|]. simpl. unfold Merge.preserves.
  rewrite Hd, bool_decide_eq_false_2 by set_solver. simpl. by rewrite IH.
Qed.

(** A document whose path is to be preserved is kept. *)
Lemma delete_loop_in (side : SideName) (p : Metadata) (l2 l3 : list Metadata)
    (T : gset string) :
  path p ∈ T →
  Merge.delete_loop side T (l2 ++ p :: l3) !! length l2 = Some (Merge.dissociated p).
Proof.
  revert T. induction l2 as [|d l2 IH]; intros T HT; simpl.
  - unfold Merge.preserves. by rewrite bool_decide_eq_true_2.
  - destruct (Merge.preserves side T d); simpl; apply IH; set_solver.
Qed.

(** The loop keeps, after a document it has kept, the document whose path
    is the [dirname] of its path. *)
Lemma delete_loop_parent (side : SideName) (d p b : Metadata) (l1 l2 l3 : list Metadata)
    (T : gset string) :
  path p = path_dirname (path d) →
  Merge.delete_loop side T (l1 ++ d :: l2 ++ p :: l3) !! length l1 = Some b →
  _deleted b = false →
  Merge.delete_loop side T (l1 ++ d :: l2 ++ p :: l3) !! (length l1 + S (length l2))%nat
  = Some (Merge.dissociated p).
Proof.
  intros Hp. revert T. induction l1 as [|d1 l1 IH]; intros T; simpl.
  - destruct (Merge.preserves side T d); simpl.
    + intros _ _. apply delete_loop_in. set_solver.
    + intros [= <-]. by rewrite deleted_erased.
  - destruct (Merge.preserves side T d1); simpl; apply IH.
Qed.

Section Commit.

Variables (side : SideName) (doc folder : Metadata) (w : World).

Hypothesis Hwf : wf_world w.
Hypothesis Hcur : Pouch.current w (_id doc) = Some folder.
Hypothesis Hside : JS.truthy (side_get side (sides folder)) = true.

Lemma folder_id : _id folder = _id doc.
Proof using Hwf Hcur. by apply (wf_current w). Qed.

Lemma affected_in (d : Metadata) :
  d ∈ affected w folder ↔ d ∈ Pouch.docs_under w (_id folder) ∨ d = folder.
Proof.
  unfold affected. rewrite elem_of_app, list_elem_of_singleton.
  by rewrite list_elem_of_In, <- in_rev, <- list_elem_of_In.
Qed.

Lemma affected_current (d : Metadata) :
  d ∈ affected w folder →
  Pouch.current w (_id d) = Some d
  ∧ (_id d = _id doc ∨ Pouch.under (_id doc) (_id d) = true).
Proof using Hwf Hcur.
  intros [Hd| ->]%affected_in.
  - destruct (docs_in folder w Hwf d Hd) as [Hc Hu]. split; [done|].
    right. by rewrite <- folder_id.
  - rewrite folder_id. by split; [|left].
Qed.

Lemma affected_NoDup : NoDup (map _id (affected w folder)).
Proof using Hwf.
  unfold affected. rewrite map_app, map_rev. apply NoDup_app. split; [|split].
  - rewrite <- Permutation_rev. apply (docs_NoDup folder w Hwf).
  - intros id Hid ->%list_elem_of_singleton.
    apply list_elem_of_In, in_rev, list_elem_of_In in Hid.
    apply list_elem_of_fmap in Hid as (d & Hid & Hd).
    destruct (docs_in folder w Hwf d Hd) as [_ Hu]. apply under_ne in Hu. done.
  - simpl. apply NoDup_singleton.
Qed.

(** The bulk of [deleteFolderRecursivelyAsync] goes through: it adds one
    revision at the id of the folder and of each document below it. *)
Lemma deleteFolder_commits :
  let bulk := Merge.delete_loop side ∅ (affected w folder) in
  ∃ j', Merge.deleteFolderAsync side doc w = (Ok (RBulk bulk), Pouch.with_journal j' w)
        ∧ (∀ b, b ∈ bulk →
             Pouch.current (Pouch.with_journal j' w) (_id b)
             = if _deleted b then None
               else Some (Pouch.stored (default [] (journal w !! _id b)) b))
        ∧ (∀ id, id ∉ map _id (affected w folder) → j' !! id = journal w !! id).
Proof using All.
  intros bulk.
  destruct (bulk_journal_spec bulk (journal w)) as (j' & Hbulk & Hin & Hout).
  { unfold bulk. rewrite delete_loop_ids. apply affected_NoDup. }
  { apply Forall_forall. intros b (d & Hd & Hb)%delete_loop_elem.
    destruct (affected_current d Hd) as [Hc _].
    assert (_id b = _id d ∧ _rev b = _rev d) as [Hi Hr].
    { destruct Hb as [-> | ->];
        [by rewrite id_dissociated, rev_dissociated | by rewrite id_erased, rev_erased]. }
    apply (rev_matches_current w b d); [by rewrite Hi | done]. }
  exists j'. split; [|split].
  - unfold Merge.deleteFolderAsync, bind at 1. rewrite get_or_404, Hcur, Hside.
    unfold Merge.deleteFolderRecursivelyAsync, bind, Pouch.byRecursivePath, Pouch.bulkDocs, ret.
    fold (affected w folder). fold bulk. by rewrite Hbulk.
  - intros b Hb. apply current_stored. by apply Hin.
  - intros id Hid. apply Hout. unfold bulk. by rewrite delete_loop_ids.
Qed.

End Commit.

(** [deleteFolderAsync] takes nothing away but documents at [doc._id] or
    below it that are up to date on [side]: a document that was live
    before the call and is not live after it has such an id and was up to
    date on the side that deletes. *)
Theorem deleteFolder_removes_only (side : SideName) (doc : Metadata) (w : World)
    (k : string) :
  wf_world w → live w k → ¬ live (Merge.deleteFolderAsync side doc w).2 k →
  (k = _id doc ∨ Pouch.under (_id doc) k = true)
  ∧ ∃ d, Pouch.current w k = Some d ∧ isUpToDate side d = true.
Proof.
  intros Hwf Hl Hgone.
  destruct (Pouch.current w (_id doc)) as [folder|] eqn:Hcur.
  2:{ exfalso. apply Hgone. unfold Merge.deleteFolderAsync, bind at 1.
      by rewrite get_or_404, Hcur. }
  destruct (JS.truthy (side_get side (sides folder))) eqn:Hside.
  2:{ exfalso. apply Hgone. unfold Merge.deleteFolderAsync, bind at 1.
      by rewrite get_or_404, Hcur, Hside. }
  destruct (deleteFolder_commits side doc folder w Hwf Hcur Hside) as (j' & E & Hin & Hout).
  rewrite E in Hgone. simpl in Hgone.
  destruct (decide (k ∈ map _id (affected w folder))) as [Hk|Hk].
  2:{ exfalso. apply Hgone. apply (live_agree w); [|done]. simpl. by apply Hout. }
  apply list_elem_of_fmap in Hk as (d & -> & Hd).
  destruct (affected_current doc folder w Hwf Hcur d Hd) as [Hc Hat].
  split; [done|]. exists d. split; [done|].
  destruct (delete_loop_image side ∅ _ d Hd) as [Hb|[_ Hup]]; [|done].
  exfalso. apply Hgone. specialize (Hin _ Hb).
  rewrite id_dissociated, deleted_dissociated, (current_live _ _ _ Hc) in Hin.
  unfold live. by rewrite Hin.
Qed.

(** [deleteFolderAsync] keeps what the other side has changed: a document
    at [doc._id] or below it that is not up to date on [side] is live after
    the call, written back without [remote] and without [sides.remote]. *)
Theorem deleteFolder_keeps_modified (side : SideName) (doc folder d : Metadata)
    (w : World) :
  wf_world w → Pouch.current w (_id doc) = Some folder →
  JS.truthy (side_get side (sides folder)) = true →
  d ∈ affected w folder → isUpToDate side d = false →
  ∃ bulk w' d',
    Merge.deleteFolderAsync side doc w = (Ok (RBulk bulk), w')
    ∧ Pouch.current w' (_id d) = Some d'
    ∧ d' = Pouch.stored (default [] (journal w !! _id d)) (Merge.dissociated d)
    ∧ remote d' = None ∧ sides_remote (sides d') = None.
Proof.
  intros Hwf Hcur Hside Hd Hup.
  destruct (deleteFolder_commits side doc folder w Hwf Hcur Hside) as (j' & E & Hin & Hout).
  destruct (affected_current doc folder w Hwf Hcur d Hd) as [Hc _].
  specialize (Hin _ (delete_loop_modified side ∅ _ d Hd Hup)).
  rewrite id_dissociated, deleted_dissociated, (current_live _ _ _ Hc) in Hin.
  eexists _, _, _. split; [exact E|]. split; [exact Hin|]. split; [done|].
  by destruct d.
Qed.

(** Where the folder and every document below it are up to date on
    [side], [deleteFolderAsync] erases them all: nothing is live at
    [doc._id] or below it afterwards, and the other ids are left alone. *)
Theorem deleteFolder_empties (side : SideName) (doc folder : Metadata) (w : World) :
  wf_world w → Pouch.current w (_id doc) = Some folder →
  JS.truthy (side_get side (sides folder)) = true →
  (∀ d, d ∈ affected w folder → isUpToDate side d = true) →
  ∃ w', Merge.deleteFolderAsync side doc w
        = (Ok (RBulk (map (Merge.erased side) (affected w folder))), w')
    ∧ free_below w' (_id doc)
    ∧ (∀ id, id ≠ _id doc → Pouch.under (_id doc) id = false →
         journal w' !! id = journal w !! id)
    ∧ calls w' = calls w.
Proof.
  intros Hwf Hcur Hside Hall.
  destruct (deleteFolder_commits side doc folder w Hwf Hcur Hside) as (j' & E & Hin & Hout).
  rewrite delete_loop_all in E, Hin by (by apply Forall_forall).
  eexists. split; [exact E|].
  assert (Hids : ∀ id, id ∈ map _id (affected w folder) →
                       id = _id doc ∨ Pouch.under (_id doc) id = true).
  { intros id (d & -> & Hd)%list_elem_of_fmap.
    by destruct (affected_current doc folder w Hwf Hcur d Hd). }
  split; [|split; [|done]].
  - intros k Hk.
    destruct (decide (k ∈ map _id (affected w folder))) as [Hin'|Hout'].
    + apply list_elem_of_fmap in Hin' as (d & -> & Hd).
      assert (Hb : Merge.erased side d ∈ map (Merge.erased side) (affected w folder)).
      { apply list_elem_of_fmap. by exists d. }
      specialize (Hin _ Hb). by rewrite id_erased, deleted_erased in Hin.
    + unfold Pouch.current. simpl. rewrite (Hout k Hout').
      destruct (Pouch.current w k) as [d|] eqn:Hc; [|done].
      exfalso. apply Hout'. apply list_elem_of_fmap. exists d.
      split; [by rewrite (wf_current _ _ _ Hwf Hc)|]. apply affected_in.
      destruct Hk as [->|Hu].
      * right. rewrite Hcur in Hc. by inversion Hc.
      * left. apply elem_of_docs_under. exists k. apply lookup_descendants.
        by rewrite (folder_id doc folder w Hwf Hcur).
  - intros id Hne Hu. simpl. apply Hout. intros [?|Hu']%Hids; [done|].
    by rewrite Hu in Hu'.
Qed.

(** [deleteFolderAsync] leaves no kept document without its parent: when a
    document below [doc._id] is still live after the call, so is the
    document, at [doc._id] or between the two, whose path is the [dirname]
    of its path. *)
Theorem deleteFolder_keeps_parents (side : SideName) (doc folder d p : Metadata)
    (w : World) :
  wf_world w → Pouch.current w (_id doc) = Some folder →
  JS.truthy (side_get side (sides folder)) = true →
  d ∈ Pouch.docs_under w (_id folder) → p ∈ affected w folder →
  Pouch.under (_id p) (_id d) = true →
  path p = path_dirname (path d) →
  live (Merge.deleteFolderAsync side doc w).2 (_id d) →
  live (Merge.deleteFolderAsync side doc w).2 (_id p).
Proof.
  intros Hwf Hcur Hside Hd Hp Hu Hpath.
  destruct (deleteFolder_commits side doc folder w Hwf Hcur Hside) as (j' & E & Hin & Hout).
  rewrite E. simpl. intros Hl.
  assert (Hbefore : before d p (affected w folder)).
  { assert (Hrev : ∀ x, x ∈ Pouch.docs_under w (_id folder) →
                        x ∈ rev (Pouch.docs_under w (_id folder))).
    { intros x Hx. by apply list_elem_of_In, in_rev, list_elem_of_In in Hx. }
    apply (affected_in folder w) in Hp as [Hp| ->].
    - assert (Hb : before d p (rev (Pouch.docs_under w (_id folder)))).
      { destruct (before_or d p (rev (Pouch.docs_under w (_id folder))))
          as [->|[Hb|Hb]]; [by apply Hrev|by apply Hrev|by apply under_ne in Hu|done|].
        exfalso. apply before_rev in Hb.
        apply (sorted_before _ _ _ _ (docs_under_sorted w (_id folder))) in Hb.
        by destruct (under_lt _ _ Hu) as [_ Hlt]. }
      destruct Hb as (l1 & l2 & l3 & Hb). exists l1, l2, (l3 ++ [folder])%list.
      unfold affected. rewrite Hb, <- app_assoc. simpl. by rewrite <- app_assoc.
    - apply Hrev, list_elem_of_split in Hd as (l1 & l2 & Hd).
      exists l1, l2, []. unfold affected. rewrite Hd. by rewrite <- app_assoc. }
  destruct Hbefore as (l1 & l2 & l3 & Hsplit).
  assert (Hdc : Pouch.current w (_id d) = Some d).
  { by destruct (docs_in folder w Hwf d Hd). }
  destruct (affected_current doc folder w Hwf Hcur p Hp) as [Hpc _].
  assert (Hpos : ∃ b, Merge.delete_loop side ∅ (affected w folder) !! length l1 = Some b
                      ∧ (b = Merge.dissociated d ∨ b = Merge.erased side d)).
  { assert (Hlen : (length l1 < length (Merge.delete_loop side ∅ (affected w folder)))%nat).
    { rewrite <- (length_map _id (Merge.delete_loop _ _ _)), delete_loop_ids, length_map.
      rewrite Hsplit, length_app. simpl. lia. }
    apply lookup_lt_is_Some_2 in Hlen as [b Hb]. exists b. split; [done|].
    assert (Hidb : _id b = _id d).
    { assert (map _id (Merge.delete_loop side ∅ (affected w folder)) !! length l1
              = Some (_id b)) as Hm by (by rewrite list_lookup_fmap, Hb).
      rewrite delete_loop_ids, Hsplit, list_lookup_fmap in Hm.
      rewrite list_lookup_middle in Hm by done. simpl in Hm. by inversion Hm. }
    apply list_elem_of_lookup_2, delete_loop_elem in Hb as (d0 & Hd0 & Hor).
    assert (d0 = d) as ->; [|done].
    destruct (affected_current doc folder w Hwf Hcur d0 Hd0) as [Hc0 _].
    assert (_id d0 = _id d) as Hi.
    { destruct Hor as [-> | ->]; [by rewrite id_dissociated in Hidb
                                 | by rewrite id_erased in Hidb]. }
    rewrite Hi, Hdc in Hc0. by inversion Hc0. }
  destruct Hpos as (b & Hb & Hor).
  assert (Hnd : _deleted b = false).
  { destruct Hor as [-> | ->]; [by rewrite deleted_dissociated, (current_live _ _ _ Hdc)|].
    exfalso. assert (Hin' := Hin _ (list_elem_of_lookup_2 _ _ _ Hb)).
    rewrite id_erased, deleted_erased in Hin'. destruct Hl as [x Hx].
    rewrite Hin' in Hx. done. }
  rewrite Hsplit in Hb.
  apply (delete_loop_parent side d p b l1 l2 l3 ∅ Hpath) in Hb; [|done].
  rewrite <- Hsplit in Hb. apply list_elem_of_lookup_2 in Hb.
  specialize (Hin _ Hb).
  rewrite id_dissociated, deleted_dissociated, (current_live _ _ _ Hpc) in Hin.
  unfold live. by rewrite Hin.
Qed.

End DeleteFolder.

(* ===================================================================== *)
(** ** Restoring from the trash *)
(* ===================================================================== *)

Section Restore.

Context `{PathModule} `{MetadataModule} `{FsUtils} `{Collaborators}.

Lemma deleteFile_touches (side : SideName) (was : Metadata) (w w' : World)
    (r : Result Response) (k : string) :
  wf_world w → Merge.deleteFileAsync side was w = (r, w') → k ≠ _id was →
  journal w' !! k = journal w !! k.
Proof.
  intros Hwf. unfold Merge.deleteFileAsync, bind at 1. rewrite get_or_404.
  destruct (Pouch.current w (_id was)) as [file|] eqn:Hcur; [|by intros [= <- <-]].
  destruct (JS.truthy _); [|by intros [= <- <-]].
  intros E Hk. rewrite <- (wf_current w _ _ Hwf Hcur) in Hk.
  apply bind_inv in E as [(x & w1 & Hput & E)|(e & Hput & ->)].
  - unfold ret in E. injection E as <- <-.
    apply (put_other _ _ _ _ _ Hput). by destruct file.
  - apply (put_other _ _ _ _ _ Hput). by destruct file.
Qed.

Lemma deleteFolder_touches (side : SideName) (was : Metadata) (w : World) (k : string) :
  wf_world w → k ≠ _id was → Pouch.under (_id was) k = false →
  journal (Merge.deleteFolderAsync side was w).2 !! k = journal w !! k.
Proof.
  intros Hwf Hk Hu.
  destruct (Pouch.current w (_id was)) as [folder|] eqn:Hcur.
  2:{ unfold Merge.deleteFolderAsync, bind at 1. by rewrite get_or_404, Hcur. }
  destruct (JS.truthy (side_get side (sides folder))) eqn:Hside.
  2:{ unfold Merge.deleteFolderAsync, bind at 1. by rewrite get_or_404, Hcur, Hside. }
  destruct (deleteFolder_commits side was folder w Hwf Hcur Hside) as (j' & E & _ & Hout).
  rewrite E. simpl. apply Hout.
  intros (d & -> & Hd)%list_elem_of_fmap.
  destruct (affected_current was folder w Hwf Hcur d Hd) as [_ [?|Hu']]; [done|].
  by rewrite Hu in Hu'.
Qed.

(** [restoreFileAsync] and [restoreFolderAsync] of a document that is not
    flagged [_deleted] take away no more than [was]: every live document
    but the one at [was._id] (for a folder: and those below it) is still
    live afterwards, however the call ends; when the call returns, a live
    document is filed at [doc._id]. *)
Theorem restore_spares (fuel : nat) (side : SideName) (was doc : Metadata) (w : World)
    (k : string) :
  wf_world w → _deleted doc = false → live w k → k ≠ _id was →
  let file := Merge.restoreFileAsync fuel side was doc w in
  let folder := Merge.restoreFolderAsync fuel side was doc w in
  live file.2 k
  ∧ (Pouch.under (_id was) k = false → live folder.2 k)
  ∧ (∀ x, file.1 = Ok x → live file.2 (_id doc))
  ∧ (∀ x, folder.1 = Ok x → live folder.2 (_id doc)).
Proof.
  intros Hwf Hd Hl Hk file folder.
  assert (Hfile : ∃ w1, (∀ id, id ≠ _id was → journal w1 !! id = journal w !! id)
                        ∧ file = Merge.updateFileAsync fuel side doc w1).
  { unfold file, Merge.restoreFileAsync, bind at 1, catch, bind at 1.
    destruct (Merge.deleteFileAsync side was w) as [[x|e] w1] eqn:E;
      exists w1; (split; [|done]); intros id Hid;
      by apply (deleteFile_touches side was w w1 _ id Hwf E). }
  assert (Hfolder : ∃ w1, (∀ id, id ≠ _id was → Pouch.under (_id was) id = false →
                                 journal w1 !! id = journal w !! id)
                        ∧ folder = Merge.putFolderAsync fuel side doc w1).
  { unfold folder, Merge.restoreFolderAsync, bind at 1, catch, bind at 1.
    pose proof (λ id, deleteFolder_touches side was w id Hwf) as Ht.
    destruct (Merge.deleteFolderAsync side was w) as [[x|e] w1] eqn:E;
      exists w1; (split; [|done]); intros id Hid Hu; by apply Ht. }
  destruct Hfile as (w1 & Ht1 & ->). destruct Hfolder as (w2 & Ht2 & ->).
  destruct (Merge.updateFileAsync fuel side doc w1) as [r1 w1'] eqn:E1.
  destruct (Merge.putFolderAsync fuel side doc w2) as [r2 w2'] eqn:E2.
  destruct (updateFile_grows fuel side doc w1 w1' r1 Hd E1) as [[Hk1 _] Hl1].
  destruct (putFolder_grows fuel side doc w2 w2' r2 Hd E2) as [[Hk2 _] Hl2].
  simpl. split; [|split; [|split]].
  - apply Hk1, (live_agree w); [by apply Ht1 | done].
  - intros Hu. apply Hk2, (live_agree w); [by apply Ht2 | done].
  - intros x ->. by apply (Hl1 x).
  - intros x ->. by apply (Hl2 x).
Qed.

End Restore.

(* ===================================================================== *)
(** ** The watcher: pending records and their timers *)
(* ===================================================================== *)

(** [this.pending[p].done()] on a record that is there. *)
Lemma finalize_pending_eq (p : string) (st : Watcher.State) :
  Watcher.finalize_pending p st
  = Ok (match Watcher.pending st !! p with
        | Some r => finalized p r st
        | None => st
        end).
Proof.
  unfold Watcher.finalize_pending, Watcher.file_done, Watcher.dir_done,
    Watcher.file_clear, Watcher.dir_clear, finalized, final_call, own_handle.
  destruct (Watcher.pending st !! p) as [r|] eqn:Hp; [|done].
  destruct (Watcher.kind r); unfold Watcher.emit, Watcher.with_pending, Watcher.clearTimer;
    [destruct (Watcher.timeout r) | destruct (Watcher.interval r)]; done.
Qed.

Lemma timer_callback_inj (p p' : string) (r r' : Watcher.Pending) :
  timer_callback p r = timer_callback p' r' → p = p'.
Proof.
  unfold timer_callback. destruct (Watcher.kind r), (Watcher.kind r'); by intros [=].
Qed.

(** A record goes, and its timer with it. *)
Lemma armed_remove (pend : gmap string Watcher.Pending) (tim : gmap nat Watcher.Timer)
    (next : nat) (p : string) (r : Watcher.Pending) :
  armed_at pend tim next → pend !! p = Some r →
  ∃ h, own_handle r = Some h ∧ armed_at (delete p pend) (delete h tim) next.
Proof.
  intros [Htim Hrec] Hp. destruct (Hrec p r Hp) as (h & t & Ht & Hown & Hcb & Hper).
  exists h. split; [done|]. split.
  - intros h' t' [Hne Ht']%lookup_delete_Some.
    destruct (Htim h' t' Ht') as (Hlt & p' & r' & Hp' & Hof). split; [done|].
    exists p', r'. split; [|done]. apply lookup_delete_Some. split; [|done].
    intros <-. rewrite Hp in Hp'. injection Hp' as <-.
    destruct Hof as (Hown' & _). rewrite Hown in Hown'. by injection Hown'.
  - intros p' r' [Hne Hp']%lookup_delete_Some.
    destruct (Hrec p' r' Hp') as (h' & t' & Ht' & Hof). exists h', t'. split; [|done].
    apply lookup_delete_Some. split; [|done].
    intros <-. rewrite Ht in Ht'. injection Ht' as <-.
    destruct Hof as (_ & Hcb' & _). rewrite Hcb in Hcb'.
    by apply timer_callback_inj in Hcb'.
Qed.

(** A record comes, with a timer under the next handle. *)
Lemma armed_add (pend : gmap string Watcher.Pending) (tim : gmap nat Watcher.Timer)
    (next : nat) (p : string) (r : Watcher.Pending) (t : Watcher.Timer) :
  armed_at pend tim next → pend !! p = None → timer_of p r next t →
  armed_at (<[p := r]> pend) (<[next := t]> tim) (S next).
Proof.
  intros [Htim Hrec] Hp Hof. split.
  - intros h' t' [[<- <-]|[Hne Ht']]%lookup_insert_Some.
    + split; [lia|]. exists p, r. split; [apply lookup_insert_eq | done].
    + destruct (Htim h' t' Ht') as (Hlt & p' & r' & Hp' & Hof'). split; [lia|].
      exists p', r'. split; [|done]. rewrite lookup_insert_ne; [done|].
      intros <-. by rewrite Hp in Hp'.
  - intros p' r' [[<- <-]|[Hne Hp']]%lookup_insert_Some.
    + exists next, t. split; [apply lookup_insert_eq | done].
    + destruct (Hrec p' r' Hp') as (h' & t' & Ht' & Hof'). exists h', t'. split; [|done].
      rewrite lookup_insert_ne; [done|].
      intros <-. destruct (Htim _ _ Ht') as [Hlt _]. lia.
Qed.

Lemma armed_finalized (p : string) (r : Watcher.Pending) (st : Watcher.State) :
  armed st → Watcher.pending st !! p = Some r → armed (finalized p r st).
Proof.
  intros Harmed Hp. destruct (armed_remove _ _ _ p r Harmed Hp) as (h & Hown & Hrem).
  unfold armed, finalized. simpl. by rewrite Hown.
Qed.

(** Each timer that comes due finds the record it was armed for: no
    callback of a timer fails, and afterwards again every armed timer is
    the one of a pending record and every pending record has its timer
    armed. *)
Theorem fire_keeps_armed (h : nat) (st : Watcher.State) :
  armed st → ∃ st', Watcher.fire h st = Ok st' ∧ armed st'.
Proof.
  intros Harmed. unfold Watcher.fire.
  destruct (Watcher.timers st !! h) as [t|] eqn:Ht; [|by exists st].
  destruct Harmed as [Htim Hrec].
  destruct (Htim h t Ht) as (Hlt & p & r & Hp & Hown & Hcb & Hper).
  destruct (armed_remove _ _ _ p r (conj Htim Hrec) Hp) as (h0 & Hown0 & Hrem).
  assert (h0 = h) as -> by (rewrite Hown in Hown0; by injection Hown0).
  unfold timer_callback in Hcb. unfold own_handle in Hown.
  destruct (Watcher.kind r) eqn:Hkind; rewrite Hcb, Hper; simpl.
  - unfold Watcher.file_check. simpl.
    destruct (Watcher.checksums st =? 0)%Z.
    + unfold Watcher.file_done, Watcher.file_clear. simpl. rewrite Hp.
      eexists. split; [done|]. unfold armed. simpl. rewrite Hown. simpl.
      by rewrite delete_delete_eq.
    + rewrite Hp. eexists. split; [done|]. unfold armed. simpl.
      rewrite <- (insert_delete_eq (Watcher.pending st)).
      apply armed_add; [done | apply lookup_delete_eq|].
      unfold timer_of, own_handle, timer_callback. simpl. by rewrite Hkind.
  - unfold Watcher.dir_done, Watcher.dir_clear. rewrite Hp.
    eexists. split; [done|]. unfold armed. simpl. by rewrite Hown.
Qed.

(** The handlers keep the timers and the records in step: [onUnlinkFile]
    and [onUnlinkDir] on a path that is not pending, [onAddFile] and
    [onAddDir] on any path, and the answer of [byChecksum] in [onAddFile]
    as long as the record it cancels is the one of a file. *)
Theorem handlers_keep_armed (p : string) (stats : Watcher.Stats) (keys : list string)
    (doc : Watcher.LocalDoc) (answer : Error + list Metadata) (st : Watcher.State) :
  armed st →
  (Watcher.pending st !! p = None → armed (Watcher.onUnlinkFile p st))
  ∧ (Watcher.pending st !! p = None → armed (Watcher.onUnlinkDir p st))
  ∧ (∃ st', Watcher.onAddFile p st = Ok st' ∧ armed st')
  ∧ (∃ st', Watcher.onAddDir p stats st = Ok st' ∧ armed st')
  ∧ ((∀ docs d r, answer = inr docs → d ∈ docs →
        Watcher.pending st !! path d = Some r → Watcher.kind r = Watcher.OfFile) →
     ∀ st', Watcher.onAddFile_looked_up keys doc answer st = Ok st' → armed st').
Proof.
  intros Harmed.
  assert (Hfinal : ∀ st0, Watcher.pending st0 = Watcher.pending st →
            Watcher.timers st0 = Watcher.timers st →
            Watcher.next_handle st0 = Watcher.next_handle st →
            ∃ st', Watcher.finalize_pending p st0 = Ok st' ∧ armed st').
  { intros st0 Hpe Hti Hne. assert (Harmed0 : armed st0).
    { unfold armed. by rewrite Hpe, Hti, Hne. }
    rewrite finalize_pending_eq. eexists. split; [done|].
    destruct (Watcher.pending st0 !! p) as [r|] eqn:Hp; [|done].
    by apply armed_finalized. }
  split; [|split; [|split; [|split]]].
  - intros Hp. unfold Watcher.onUnlinkFile, armed. simpl. by apply armed_add.
  - intros Hp. unfold Watcher.onUnlinkDir, armed. simpl. by apply armed_add.
  - unfold Watcher.onAddFile.
    destruct (Hfinal (Watcher.push_path p st)) as (st' & -> & Hst');
      [by unfold Watcher.push_path; destruct (Watcher.paths st)..|].
    eexists. split; [done|]. done.
  - unfold Watcher.onAddDir. destruct (bool_decide (p = EmptyString)); [by exists st|].
    destruct (Hfinal (Watcher.push_path p st)) as (st' & -> & Hst');
      [by unfold Watcher.push_path; destruct (Watcher.paths st)..|].
    eexists. split; [done|]. done.
  - intros Hkind st'. unfold Watcher.onAddFile_looked_up.
    destruct answer as [e|docs]; [by intros [= <-]|].
    destruct (find _ docs) as [same|] eqn:Hfind; [|by intros [= <-]].
    simpl. destruct (Watcher.pending st !! path same) as [r|] eqn:Hp; [|done].
    intros [= <-]. destruct (armed_remove _ _ _ _ r Harmed Hp) as (h & Hown & Hrem).
    assert (Hk : Watcher.kind r = Watcher.OfFile).
    { apply (Hkind docs same r eq_refl); [|done].
      apply find_some in Hfind as [Hin _]. by apply list_elem_of_In. }
    unfold own_handle in Hown. rewrite Hk in Hown.
    unfold armed. simpl. by rewrite Hown.
Qed.

Lemma armed_start : armed Watcher.start.
Proof. split; intros ? ? Hl; simpl in Hl; by rewrite lookup_empty in Hl. Qed.

Lemma armed_onUnlinkFile (p : string) (st : Watcher.State) :
  armed st → Watcher.pending st !! p = None → armed (Watcher.onUnlinkFile p st).
Proof. intros Harmed Hp. unfold Watcher.onUnlinkFile, armed. simpl. by apply armed_add. Qed.

Lemma armed_onUnlinkDir (p : string) (st : Watcher.State) :
  armed st → Watcher.pending st !! p = None → armed (Watcher.onUnlinkDir p st).
Proof. intros Harmed Hp. unfold Watcher.onUnlinkDir, armed. simpl. by apply armed_add. Qed.

(** The timeout armed for a deleted file waits for the checksums: when it
    comes due while no checksum is being computed, the record and the
    timer go and [deleteFile] is called; while a checksum is being
    computed, nothing is called and the record gets a new timeout of 100
    ms that runs the same check. *)
Theorem file_deletion_waits (p : string) (r : Watcher.Pending) (h : nat)
    (t : Watcher.Timer) (st : Watcher.State) :
  Watcher.pending st !! p = Some r → Watcher.kind r = Watcher.OfFile →
  Watcher.timers st !! h = Some t → timer_of p r h t →
  ∃ st', Watcher.fire h st = Ok st'
    ∧ Watcher.checksums st' = Watcher.checksums st
    ∧ if (Watcher.checksums st =? 0)%Z then
        Watcher.prepCalls st'
        = (Watcher.prepCalls st ++ [Watcher.deleteFile (Watcher.side st) p])%list
        ∧ Watcher.pending st' = delete p (Watcher.pending st)
        ∧ Watcher.timers st' = delete h (Watcher.timers st)
      else
        Watcher.prepCalls st' = Watcher.prepCalls st
        ∧ ∃ r' t',
            Watcher.pending st' = <[p := r']> (Watcher.pending st)
            ∧ Watcher.timers st'
              = <[Watcher.next_handle st := t']> (delete h (Watcher.timers st))
            ∧ Watcher.kind r' = Watcher.OfFile
            ∧ timer_of p r' (Watcher.next_handle st) t'
            ∧ Watcher.delay t' = 100%nat.
Proof.
  intros Hp Hkind Ht (Hown & Hcb & Hper).
  unfold timer_callback in Hcb. unfold own_handle in Hown. rewrite Hkind in Hown, Hcb, Hper.
  unfold Watcher.fire. rewrite Ht, Hcb, Hper. simpl.
  unfold Watcher.file_check. simpl.
  destruct (Watcher.checksums st =? 0)%Z.
  - unfold Watcher.file_done, Watcher.file_clear. simpl. rewrite Hp.
    eexists. split; [done|]. simpl. rewrite Hown. simpl.
    by rewrite delete_delete_eq.
  - rewrite Hp. eexists. split; [done|]. simpl. split; [done|]. split; [done|].
    eexists _, _. split; [done|]. split; [done|]. split; [done|]. split; [|done].
    unfold timer_of, own_handle, timer_callback. simpl. by rewrite Hkind.
Qed.

(** A path that is added again: [onAddFile] and [onAddDir] never fail;
    the record pending at the path, if there is one, goes, and its
    deletion is reported before the add is ([putFolder] for a folder; the
    checksum counter rises for a file). *)
Theorem add_finalizes_pending (p : string) (stats : Watcher.Stats) (st : Watcher.State) :
  let calls := match Watcher.pending st !! p with
               | Some r => [final_call (Watcher.side st) p r]
               | None => []
               end in
  (∃ st', Watcher.onAddFile p st = Ok st'
     ∧ Watcher.pending st' = delete p (Watcher.pending st)
     ∧ Watcher.prepCalls st' = (Watcher.prepCalls st ++ calls)%list
     ∧ Watcher.checksums st' = (Watcher.checksums st + 1)%Z
     ∧ Watcher.paths st' = (λ ps, ps ++ [p])%list <$> Watcher.paths st)
  ∧ (p ≠ EmptyString →
     ∃ st' doc, Watcher.onAddDir p stats st = Ok st'
       ∧ Watcher.pending st' = delete p (Watcher.pending st)
       ∧ Watcher.prepCalls st'
         = (Watcher.prepCalls st ++ calls ++ [Watcher.putFolder (Watcher.side st) doc])%list
       ∧ Watcher.l_path doc = p ∧ Watcher.l_docType doc = Folder
       ∧ Watcher.paths st' = (λ ps, ps ++ [p])%list <$> Watcher.paths st).
Proof.
  intros calls.
  assert (Hpush : Watcher.pending (Watcher.push_path p st) = Watcher.pending st
                  ∧ Watcher.prepCalls (Watcher.push_path p st) = Watcher.prepCalls st
                  ∧ Watcher.side (Watcher.push_path p st) = Watcher.side st
                  ∧ Watcher.checksums (Watcher.push_path p st) = Watcher.checksums st
                  ∧ Watcher.paths (Watcher.push_path p st)
                    = (λ ps, ps ++ [p])%list <$> Watcher.paths st).
  { unfold Watcher.push_path. destruct (Watcher.paths st) eqn:E; simpl; by rewrite ?E. }
  destruct Hpush as (Hpe & Hca & Hsi & Hch & Hpa).
  split.
  - unfold Watcher.onAddFile. rewrite finalize_pending_eq, Hpe.
    eexists. split; [done|]. unfold calls.
    destruct (Watcher.pending st !! p) as [r|] eqn:Hp; simpl.
    + by rewrite Hpe, Hca, Hsi, Hch, Hpa.
    + rewrite Hpe, Hca, Hch, Hpa, app_nil_r. by rewrite delete_id.
  - intros Hne. unfold Watcher.onAddDir. rewrite (bool_decide_eq_false_2 _ Hne).
    rewrite finalize_pending_eq, Hpe.
    eexists _, _. split; [done|]. unfold calls.
    destruct (Watcher.pending st !! p) as [r|] eqn:Hp; simpl.
    + rewrite Hpe, Hca, Hsi, Hpa. by rewrite <- app_assoc.
    + rewrite Hpe, Hca, Hsi, Hpa. by rewrite delete_id.
Qed.

(** The counter of running checksums is back where it was once an add is
    settled: [onAddFile] raises it by one, and the callback of [createDoc]
    (on an error, or with [pending] empty) or else the callback of
    [byChecksum] lowers it by one. *)
Theorem onAddFile_checksums_balanced (p : string) (stats : Watcher.Stats)
    (st st1 : Watcher.State) :
  Watcher.onAddFile p st = Ok st1 →
  (∀ e, ∃ st2, Watcher.onAddFile_created p stats (inl e) st1 = Watcher.Settled st2
               ∧ Watcher.checksums st2 = Watcher.checksums st)
  ∧ (∀ checksum answer st2,
       Watcher.onAddFile_checksummed p stats checksum answer st1 = Ok st2 →
       Watcher.checksums st2 = Watcher.checksums st).
Proof.
  intros Hadd.
  assert (Hc : Watcher.checksums st1 = (Watcher.checksums st + 1)%Z).
  { revert Hadd. unfold Watcher.onAddFile. rewrite finalize_pending_eq. intros [= <-].
    simpl. f_equal. unfold Watcher.push_path.
    by destruct (Watcher.pending _ !! p), (Watcher.paths st). }
  split.
  - intros e. eexists. split; [done|]. simpl. lia.
  - intros checksum answer st2. unfold Watcher.onAddFile_checksummed, Watcher.onAddFile_created.
    destruct (length _ =? 0)%nat.
    + intros [= <-]. simpl. lia.
    + unfold Watcher.onAddFile_looked_up. destruct answer as [e|docs].
      * intros [= <-]. simpl. lia.
      * destruct (find _ docs) as [same|]; [|intros [= <-]; simpl; lia].
        simpl. destruct (Watcher.pending st1 !! path same) as [r|]; [|done].
        intros [= <-]. simpl. destruct (Watcher.timeout r); simpl; lia.
Qed.

(** [stop] finalizes every pending record: visiting the keys of [pending]
    in whatever order, it does not fail, makes one call for each record in
    the order of the visit ([deleteFile] or [deleteFolder]), and leaves
    [pending] empty. The timers of the records are disarmed with them: the
    one timer armed afterwards is the timeout of 3 seconds that [stop]
    itself sets for its promise. *)
Theorem stop_finalizes (order : list string) (st : Watcher.State) :
  NoDup order → (∀ k, k ∈ order ↔ is_Some (Watcher.pending st !! k)) →
  ∃ st' calls,
    Watcher.stop order st = Ok st'
    ∧ Watcher.pending st' = ∅
    ∧ Watcher.prepCalls st' = (Watcher.prepCalls st ++ calls)%list
    ∧ Forall2 (λ k c, ∃ r, Watcher.pending st !! k = Some r
                           ∧ c = final_call (Watcher.side st) k r) order calls
    ∧ Watcher.timers st' !! Watcher.next_handle st
      = Some (Watcher.mkTimer false 3000 Watcher.Resolve)
    ∧ Watcher.next_handle st' = S (Watcher.next_handle st)
    ∧ (armed st →
       Watcher.timers st'
       = {[Watcher.next_handle st := Watcher.mkTimer false 3000 Watcher.Resolve]}).
Proof.
  intros Hnd Hkeys.
  assert (Hgen : ∀ order st, NoDup order →
            (∀ k, k ∈ order → is_Some (Watcher.pending st !! k)) →
            ∃ st' calls,
              Watcher.stop_loop order st = Ok st'
              ∧ (∀ q, Watcher.pending st' !! q
                      = if decide (q ∈ order) then None else Watcher.pending st !! q)
              ∧ Watcher.prepCalls st' = (Watcher.prepCalls st ++ calls)%list
              ∧ Forall2 (λ k c, ∃ r, Watcher.pending st !! k = Some r
                                     ∧ c = final_call (Watcher.side st) k r) order calls
              ∧ Watcher.next_handle st' = Watcher.next_handle st
              ∧ (armed st → armed st')).
  { clear. induction order as [|k order IH]; intros st Hnd Hall.
    - exists st, []. split; [done|]. split; [done|]. split; [by rewrite app_nil_r|].
      split; [constructor|done].
    - apply NoDup_cons in Hnd as [Hk Hnd].
      destruct (Hall k) as [r Hr]; [by left|].
      simpl. rewrite finalize_pending_eq, Hr.
      destruct (IH (finalized k r st) Hnd)
        as (st' & calls & E & Hpend & Hcalls & Hall2 & Hnext & Harm).
      { intros q Hq. simpl. rewrite lookup_delete_ne; [apply Hall; by right|].
        by intros <-. }
      exists st', (final_call (Watcher.side st) k r :: calls).
      split; [done|]. split; [|split; [|split; [|split]]].
      + intros q. rewrite Hpend. simpl.
        destruct (decide (q ∈ order)) as [Hq|Hq].
        * rewrite decide_True; [done | by right].
        * destruct (decide (q = k)) as [->|Hne].
          -- rewrite decide_True; [|by left]. apply lookup_delete_eq.
          -- rewrite decide_False; [by apply lookup_delete_ne|].
             by intros [?|?]%elem_of_cons.
      + rewrite Hcalls. simpl. by rewrite <- app_assoc.
      + constructor; [by exists r|].
        eapply Forall2_impl; [exact Hall2|]. simpl.
        intros q c (r' & [Hne Hr']%lookup_delete_Some & ->). by exists r'.
      + by rewrite Hnext.
      + intros Harmed. by apply Harm, armed_finalized. }
  destruct (Hgen order st Hnd) as (st1 & calls & E & Hpend & Hcalls & Hall2 & Hnext & Harm).
  { intros k. apply Hkeys. }
  assert (Hempty : Watcher.pending st1 = ∅).
  { apply map_eq. intros q. rewrite Hpend, lookup_empty.
    destruct (decide (q ∈ order)) as [Hq|Hq]; [done|].
    apply eq_None_not_Some. by intros ?%Hkeys. }
  unfold Watcher.stop. rewrite E. eexists _, calls. split; [done|]. simpl.
  split; [done|]. split; [done|]. split; [done|]. rewrite Hnext.
  split; [apply lookup_insert_eq|]. split; [done|].
  intros [Htim _]%Harm.
  assert (Watcher.timers st1 = ∅) as ->; [|done].
  apply map_eq. intros h. rewrite lookup_empty.
  destruct (Watcher.timers st1 !! h) as [t|] eqn:Ht; [|done].
  destruct (Htim h t Ht) as (_ & p & r & Hp & _). by rewrite Hempty in Hp.
Qed.

(** [stats.mode & EXECUTABLE_MASK] reads one bit of the mode. *)
Lemma land_EXECUTABLE_MASK (m : Z) :
  Z.land m Watcher.EXECUTABLE_MASK = if Z.testbit m 6 then 64%Z else 0%Z.
Proof.
  apply Z.bits_inj'. intros i Hi. rewrite Z.land_spec.
  change Watcher.EXECUTABLE_MASK with (2 ^ 6)%Z. rewrite Z.pow2_bits_eqb by lia.
  destruct (Z.eqb_spec 6 i) as [<-|Hne].
  - rewrite andb_true_r. destruct (Z.testbit m 6); [|by rewrite Z.bits_0].
    change 64%Z with (2 ^ 6)%Z. by rewrite Z.pow2_bits_true.
  - rewrite andb_false_r. destruct (Z.testbit m 6); [|by rewrite Z.bits_0].
    change 64%Z with (2 ^ 6)%Z. by rewrite Z.pow2_bits_false.
Qed.

(** The document [createDoc] builds is flagged executable exactly when
    bit 6 of [stats.mode] is set, the execute permission of the owner
    (0100 in octal); its creation date is the birth time of the file where
    there is one, else the time of its last status change. *)
Theorem createDoc_executable (filePath : string) (stats : Watcher.Stats)
    (checksum : option string) :
  let doc := Watcher.createDoc filePath stats checksum in
  Watcher.l_executable doc = Z.testbit (Watcher.mode stats) 6
  ∧ (Watcher.l_executable doc = true ↔ (64 ≤ Watcher.mode stats mod 128)%Z)
  ∧ Watcher.l_creationDate doc
    = match Watcher.birthtime stats with
      | Some t => t
      | None => Watcher.ctime stats
      end.
Proof.
  intros doc.
  assert (Hbit : Watcher.l_executable doc = Z.testbit (Watcher.mode stats) 6).
  { unfold doc, Watcher.createDoc. cbn [Watcher.l_executable].
    rewrite land_EXECUTABLE_MASK.
    by destruct (Z.testbit _ 6). }
  split; [done|]. split; [|by unfold doc; simpl; destruct (Watcher.birthtime stats)].
  rewrite Hbit, Z.testbit_true by lia.
  change (2 ^ 6)%Z with 64%Z.
  rewrite (Z.mod_eq (Watcher.mode stats) 128), (Z.mod_eq (Watcher.mode stats / 64) 2) by lia.
  rewrite <- (Z.div_div _ 64 2) by lia.
  pose proof (Z.mod_pos_bound (Watcher.mode stats) 64 ltac:(lia)) as Hm.
  pose proof (Z.div_mod (Watcher.mode stats) 64 ltac:(lia)) as Hd.
  pose proof (Z.mod_pos_bound (Watcher.mode stats / 64) 2 ltac:(lia)) as Hm2.
  pose proof (Z.div_mod (Watcher.mode stats / 64) 2 ltac:(lia)) as Hd2.
  rewrite (Z.mod_eq (Watcher.mode stats / 64) 2) in Hm2 by lia. lia.
Qed.

(* ===================================================================== *)
(** ** Creating the parents, with the paths of POSIX *)
(* ===================================================================== *)

Lemma dirname_loop_bound (cs : list ascii) (i : nat) (m : bool) (e : nat) :
  Posix.dirname_loop cs i m = Some e → (1 ≤ e ≤ i)%nat.
Proof.
  revert i m. induction cs as [|c cs IH]; intros [|i] m; simpl; try done.
  destruct (Posix.is_slash c).
  - destruct m; [intros He%IH; lia | intros [= <-]; lia].
  - intros He%IH. lia.
Qed.

(** The [dirname] of a relative path is ["."] or a shorter prefix of it. *)
Lemma posix_dirname_relative (p : string) :
  relative p = true →
  path_dirname p = "."
  ∨ ∃ e, (1 ≤ e < String.length p)%nat ∧ path_dirname p = JS.slice0 e p.
Proof.
  destruct p as [|c0 s]; [by left|]. unfold relative. intros Hrel%negb_true_iff.
  unfold path_dirname, posix, Posix.dirname. rewrite Hrel.
  destruct (Posix.dirname_loop _ _ true) as [e|] eqn:E; [|by left].
  right. exists e. split; [|done].
  apply dirname_loop_bound in E. simpl in E. simpl. lia.
Qed.

Lemma relative_slice0 (e : nat) (p : string) :
  (1 ≤ e)%nat → relative p = true → relative (JS.slice0 e p) = true.
Proof. destruct p as [|c s], e as [|e]; simpl; try done; lia. Qed.

Lemma ensureParentExist_S `{PathModule} `{MetadataModule} `{FsUtils} `{Collaborators}
    (fuel : nat) (side : SideName) (doc : Metadata) :
  Merge.ensureParentExistAsync (S fuel) side doc
  = (if bool_decide (path_dirname (_id doc) = ".") then ret tt
     else
       folder <- Merge.try_get (path_dirname (_id doc)) ;;
       match folder with
       | Some _ => ret tt
       | None =>
           iso <- Merge.date_now ;;
           Merge.ensureParentExistAsync fuel side (Merge.parentDoc iso doc) ;;;
           Merge.putFolder_with (Merge.ensureParentExistAsync fuel) side
             (Merge.parentDoc iso doc) ;;;
           ret tt
       end)%merge.
Proof. reflexivity. Qed.

Lemma id_created side doc : _id (created side doc) = _id doc.
Proof. by destruct doc. Qed.
Lemma rev_created side doc : _rev (created side doc) = _rev doc.
Proof. by destruct doc. Qed.
Lemma deleted_created side doc : _deleted (created side doc) = _deleted doc.
Proof. by destruct doc. Qed.

Section PosixTree.

Context `{MetadataModule} `{FsUtils} `{Collaborators}.

(** The end of the three writes, where nothing is live at the id and the
    function that ensures the parents returns without touching it. *)
Lemma ensure_put_new (ensure : SideName → Metadata → M unit) (side : SideName)
    (doc : Metadata) (w w1 : World) :
  ensure side doc w = (Ok tt, w1) →
  journal w1 !! _id doc = journal w !! _id doc →
  Pouch.current w (_id doc) = None → _rev doc = None →
  (ensure side doc ;;; x <- Pouch.put doc ;; ret (RPut x))%merge w
  = (Ok (RPut (Pouch.stored (default [] (journal w !! _id doc)) doc)),
     Pouch.with_journal (<[_id doc := Pouch.stored (default [] (journal w !! _id doc)) doc
                                      :: default [] (journal w !! _id doc)]> (journal w1)) w1).
Proof.
  intros E Hsame Hcur Hrev. unfold bind at 1. rewrite E.
  unfold bind, Pouch.put, ret. rewrite put_journal_Some; rewrite Hsame; [done|].
  by apply rev_matches_free.
Qed.

Lemma ensureParentExist_posix (fuel : nat) (side : SideName) (doc : Metadata) (w : World) :
  relative (_id doc) = true → (String.length (_id doc) ≤ fuel)%nat →
  ∃ w', Merge.ensureParentExistAsync fuel side doc w = (Ok tt, w')
        ∧ ∀ id, (String.length (_id doc) ≤ String.length id)%nat →
                journal w' !! id = journal w !! id.
Proof.
  revert doc w. induction fuel as [|fuel IH]; intros doc w Hrel Hlen.
  - exists w. split; [|done]. destruct (_id doc) eqn:Hid; [|simpl in Hlen; lia].
    simpl. by rewrite Hid.
  - rewrite ensureParentExist_S.
    destruct (decide (path_dirname (_id doc) = ".")) as [Htop|Htop].
    { rewrite (bool_decide_eq_true_2 _ Htop). by exists w. }
    rewrite (bool_decide_eq_false_2 _ Htop). unfold bind at 1. rewrite try_get_eq.
    destruct (Pouch.current w (path_dirname (_id doc))) as [folder|] eqn:Hcur.
    { by exists w. }
    destruct (posix_dirname_relative (_id doc) Hrel) as [?|(e & He & Hdir)]; [done|].
    unfold bind at 1, Merge.date_now.
    set (parent := Merge.parentDoc (now w) doc).
    assert (Hpid : _id parent = path_dirname (_id doc)) by done.
    assert (Hplen : String.length (_id parent) = e).
    { rewrite Hpid, Hdir, slice0_length. lia. }
    assert (Hprel : relative (_id parent) = true).
    { rewrite Hpid, Hdir. apply relative_slice0; [lia | done]. }
    destruct (IH parent w Hprel) as (w1 & E1 & Hsame1); [lia|].
    unfold bind at 1. rewrite E1.
    unfold Merge.putFolder_with, bind at 1, bind at 1. rewrite try_get_eq.
    assert (Hcur1 : Pouch.current w1 (_id parent) = None).
    { unfold Pouch.current. rewrite Hsame1 by lia. by rewrite Hpid. }
    rewrite Hcur1. fold (created side parent).
    destruct (IH (created side parent) w1) as (w2 & E2 & Hsame2);
      [by rewrite id_created | rewrite id_created; lia|].
    rewrite id_created in Hsame2.
    rewrite (ensure_put_new _ side (created side parent) w1 w2 E2);
      [|rewrite id_created; apply Hsame2; lia | by rewrite id_created
       | by rewrite rev_created].
    eexists. split; [done|]. intros id Hid. unfold Pouch.with_journal. cbn [journal].
    rewrite id_created, lookup_insert_ne; [|intros <-; lia].
    rewrite Hsame2 by lia. apply Hsame1. lia.
Qed.

(** With the paths of POSIX, [ensureParentExistAsync] on a relative id
    comes to an end and returns: a depth of recursion of the length of the
    id is enough. Afterwards a live document is filed at the [dirname] of
    the id (unless that is ["."]), no live document is gone, and nothing
    was written at an id as long as [doc._id] or longer. *)
Theorem ensureParentExist_posix_returns (fuel : nat) (side : SideName) (doc : Metadata)
    (w : World) :
  relative (_id doc) = true → (String.length (_id doc) ≤ fuel)%nat →
  ∃ w', Merge.ensureParentExistAsync fuel side doc w = (Ok tt, w')
        ∧ (path_dirname (_id doc) = "." ∨ live w' (path_dirname (_id doc)))
        ∧ keeps_lives w w'
        ∧ ∀ id, (String.length (_id doc) ≤ String.length id)%nat →
                journal w' !! id = journal w !! id.
Proof.
  intros Hrel Hlen.
  destruct (ensureParentExist_posix fuel side doc w Hrel Hlen) as (w' & E & Hsame).
  exists w'. split; [done|].
  destruct (ensureParentExist_ensures fuel side doc w (Ok tt) w' E) as [[Hk _] Hp].
  split; [by apply Hp|]. split; done.
Qed.

(** With the paths of POSIX: where nothing is live at the relative id
    [doc._id] and [doc] carries no revision, [addFileAsync],
    [updateFileAsync] and [putFolderAsync] do one and the same thing and
    do not fail: the missing parents are created, and [doc], marked for
    [side] and with [tags] set, is written and is what [get] reads at its
    id afterwards. *)
Theorem create_new_posix (fuel : nat) (side : SideName) (doc : Metadata) (w : World) :
  relative (_id doc) = true → (String.length (_id doc) ≤ fuel)%nat →
  Pouch.current w (_id doc) = None → _rev doc = None → _deleted doc = false →
  ∃ d w',
    Merge.addFileAsync fuel side doc w = (Ok (RPut d), w')
    ∧ Merge.updateFileAsync fuel side doc w = (Ok (RPut d), w')
    ∧ Merge.putFolderAsync fuel side doc w = (Ok (RPut d), w')
    ∧ d = Pouch.stored (default [] (journal w !! _id doc)) (created side doc)
    ∧ Pouch.current w' (_id doc) = Some d
    ∧ (path_dirname (_id doc) = "." ∨ live w' (path_dirname (_id doc)))
    ∧ keeps_lives w w'.
Proof.
  intros Hrel Hlen Hcur Hrev Hdel.
  destruct (ensureParentExist_posix fuel side (created side doc) w) as (w1 & E & Hsame);
    [by rewrite id_created..|].
  rewrite id_created in Hsame.
  pose proof (ensure_put_new (Merge.ensureParentExistAsync fuel) side (created side doc)
                w w1 E) as Hnew.
  rewrite id_created, rev_created in Hnew.
  specialize (Hnew (Hsame _ (le_n _)) Hcur Hrev).
  eexists _, _. split; [|split; [|split; [|split; [|split; [|split]]]]].
  - unfold Merge.addFileAsync, bind at 1. rewrite try_get_eq, Hcur. exact Hnew.
  - unfold Merge.updateFileAsync, bind at 1. rewrite try_get_eq, Hcur. exact Hnew.
  - unfold Merge.putFolderAsync, Merge.putFolder_with, bind at 1.
    rewrite try_get_eq, Hcur. exact Hnew.
  - done.
  - unfold Pouch.current. simpl. rewrite lookup_insert_eq. simpl.
    unfold Pouch.stored. by rewrite deleted_set_rev, deleted_created, Hdel.
  - destruct (posix_dirname_relative (_id doc) Hrel) as [Htop|(e & He & Hdir)]; [by left|].
    destruct (ensureParentExist_ensures fuel side (created side doc) w (Ok tt) w1 E)
      as [_ Hp].
    rewrite id_created in Hp. destruct (Hp eq_refl) as [?|Hl]; [by left|]. right.
    apply (live_agree w1); [|done]. unfold Pouch.with_journal. cbn [journal].
    apply lookup_insert_ne. intros Heq.
    assert (String.length (path_dirname (_id doc)) = e) as Hl'
      by (rewrite Hdir, slice0_length; lia).
    rewrite <- Heq in Hl'. lia.
  - intros id Hl.
    destruct (ensureParentExist_ensures fuel side (created side doc) w (Ok tt) w1 E)
      as [[Hk _] _].
    specialize (Hk id Hl). destruct (decide (id = _id doc)) as [->|Hne].
    + exfalso. destruct Hl as [x Hx]. by rewrite Hcur in Hx.
    + apply (live_agree w1); [|done]. simpl. by apply lookup_insert_ne.
Qed.

End PosixTree.

(* ===================================================================== *)
(** ** Where the removals write *)
(* ===================================================================== *)

Lemma put_wf (doc : Metadata) (w w' : World) (r : Result Metadata) :
  wf_world w → Pouch.put doc w = (r, w') → wf_world w'.
Proof.
  intros Hwf. unfold Pouch.put.
  destruct (Pouch.put_journal (journal w) doc) as [j|] eqn:Hput; intros [= <- <-]; [|done].
  by apply (put_journal_wf w doc).
Qed.

(** [try { await this.pouch.put(doc) } catch (err) { log.warn(err) }] *)
Lemma put_caught (doc : Metadata) (w w' : World) (r : Result unit) :
  catch (Pouch.put doc ;;; ret tt)%merge (λ _, ret tt) w = (r, w') →
  r = Ok tt ∧ ∃ r0, Pouch.put doc w = (r0, w').
Proof.
  unfold catch, bind, ret. destruct (Pouch.put doc w) as [[x|e] w1]; intros [= <- <-]; eauto.
Qed.

Section Footprint.

Context `{PathModule} `{MetadataModule} `{FsUtils} `{Collaborators}.

Lemma trashFile_touches (side : SideName) (was doc : Metadata) (w w' : World)
    (r : Result Response) (k : string) :
  wf_world w → Merge.trashFileAsync side was doc w = (r, w') → k ≠ _id was →
  journal w' !! k = journal w !! k.
Proof.
  intros Hwf. unfold Merge.trashFileAsync, bind at 1. rewrite get_or_404.
  destruct (Pouch.current w (_id was)) as [old|] eqn:Hcur; [|by intros [= <- <-]].
  intros E Hk. rewrite <- (wf_current w _ _ Hwf Hcur) in Hk.
  destruct (bool_decide (docType doc ≠ docType old)).
  { unfold bind in E. rewrite resolveConflictAsync_eq in E.
    destruct (sideResolveConflict _ _ _); by injection E as <- <-. }
  assert (Hlast : ∀ d w0 r0 w0', _id d = _id old →
            (x <- Pouch.put d ;; ret (RPut x))%merge w0 = (r0, w0') →
            journal w0' !! k = journal w0 !! k).
  { intros d w0 r0 w0' Hid [(x & w1 & Hput & E')|(e & Hput & ->)]%bind_inv.
    - unfold ret in E'. injection E' as <- <-.
      apply (put_other _ _ _ _ _ Hput). by rewrite Hid.
    - apply (put_other _ _ _ _ _ Hput). by rewrite Hid. }
  destruct (JS.truthy _).
  - apply bind_inv in E as [([] & w1 & Hfirst & E)|(e & Hfirst & ->)].
    + apply put_caught in Hfirst as [_ [r0 Hput]].
      assert (journal w' !! k = journal w1 !! k) as ->
        by (eapply Hlast; [|exact E]; by destruct old).
      apply (put_other _ _ _ _ _ Hput). by destruct old.
    + by apply put_caught in Hfirst as [[=] _].
  - eapply Hlast; [|exact E]. by destruct old.
Qed.

Lemma trash_subfolders_touches (prefix : string) (children : list Metadata) (w w' : World)
    (r : Result unit) :
  Forall (λ c, Pouch.under prefix (_id c) = true) children → wf_world w →
  Merge.trash_subfolders children w = (r, w') →
  wf_world w'
  ∧ ∀ k, Pouch.under prefix k = false → journal w' !! k = journal w !! k.
Proof.
  intros Hall. revert w. induction Hall as [|c children Hc _ IH]; intros w Hwf; simpl.
  - by intros [= <- <-].
  - intros [([] & w1 & Hfirst & E)|(e & Hfirst & ->)]%bind_inv.
    + assert (wf_world w1 ∧ ∀ k, Pouch.under prefix k = false →
                                 journal w1 !! k = journal w !! k) as [Hwf1 Hsame1].
      { destruct (docType c).
        - injection Hfirst as <-. done.
        - apply put_caught in Hfirst as [_ [r0 Hput]]. split; [by apply (put_wf _ _ _ _ Hwf Hput)|].
          intros k Hk. apply (put_other _ _ _ _ _ Hput).
          intros ->. assert (_id (set_deleted true c) = _id c) as Hid by (by destruct c).
          rewrite Hid in Hk. by rewrite Hc in Hk. }
      destruct (IH w1 Hwf1 E) as [Hwf' Hsame]. split; [done|].
      intros k Hk. rewrite (Hsame k Hk). by apply Hsame1.
    + exfalso. destruct (docType c); [done|]. by apply put_caught in Hfirst as [[=] _].
Qed.

(** The removals write nowhere else: after [deleteFileAsync] and
    [trashFileAsync] the journal is as before at every id but [was._id],
    and after [deleteFolderAsync] and [trashFolderAsync] at every id that
    is neither [was._id] nor below it, however the call ends. *)
Theorem removals_footprint (side : SideName) (was doc : Metadata) (w : World) (k : string) :
  wf_world w → k ≠ _id was →
  journal (Merge.deleteFileAsync side was w).2 !! k = journal w !! k
  ∧ journal (Merge.trashFileAsync side was doc w).2 !! k = journal w !! k
  ∧ (Pouch.under (_id was) k = false →
     journal (Merge.deleteFolderAsync side was w).2 !! k = journal w !! k
     ∧ journal (Merge.trashFolderAsync side was doc w).2 !! k = journal w !! k).
Proof.
  intros Hwf Hk. split; [|split].
  - destruct (Merge.deleteFileAsync side was w) as [r w'] eqn:E.
    by apply (deleteFile_touches side was w w' r k).
  - destruct (Merge.trashFileAsync side was doc w) as [r w'] eqn:E.
    by apply (trashFile_touches side was doc w w' r k).
  - intros Hu. split; [by apply deleteFolder_touches|].
    unfold Merge.trashFolderAsync, bind at 1, Pouch.byRecursivePath.
    destruct (find _ _) as [c|].
    + destruct ((x <- Pouch.put _ ;; ret (RPut x))%merge w) as [r w'] eqn:E.
      apply bind_inv in E as [(x & w1 & Hput & E)|(e & Hput & ->)].
      * unfold ret in E. injection E as <- <-. simpl.
        apply (put_other _ _ _ _ _ Hput). by destruct was.
      * simpl. apply (put_other _ _ _ _ _ Hput). by destruct was.
    + destruct ((Merge.trash_subfolders _ ;;; Merge.trashFileAsync side was doc)%merge w)
        as [r w'] eqn:E.
      apply bind_inv in E as [([] & w1 & Hsub & E)|(e & Hsub & ->)].
      * apply (trash_subfolders_touches (_id was)) in Hsub as [Hwf1 Hsame]; [|..|done].
        -- simpl. rewrite (trashFile_touches side was doc w1 w' r k Hwf1 E Hk).
           by apply Hsame.
        -- apply Forall_forall. intros c Hc.
           apply list_elem_of_In, in_rev, list_elem_of_In in Hc.
           by destruct (docs_in was w Hwf c Hc).
      * apply (trash_subfolders_touches (_id was)) in Hsub as [_ Hsame]; [|..|done].
        -- simpl. by apply Hsame.
        -- apply Forall_forall. intros c Hc.
           apply list_elem_of_In, in_rev, list_elem_of_In in Hc.
           by destruct (docs_in was w Hwf c Hc).
Qed.

End Footprint.

(* ===================================================================== *)
(** ** Moving a folder to a free place *)
(* ===================================================================== *)

(** Two places with something below both of them: they are the same, or
    one is below the other. *)
Lemma under_chain (a b r1 r2 : string) :
  a +:+ "/" +:+ r1 = b +:+ "/" +:+ r2 →
  a = b ∨ Pouch.under a b = true ∨ Pouch.under b a = true.
Proof.
  unfold Pouch.under. revert b. induction a as [|x a IH]; intros [|y b] Heq.
  - by left.
  - right. left. rewrite app_empty_l, app_cons in Heq. injection Heq as <- _.
    apply prefix_iff. by exists b.
  - right. right. rewrite app_empty_l, app_cons in Heq. injection Heq as -> _.
    apply prefix_iff. by exists a.
  - rewrite !app_cons in Heq. injection Heq as -> Heq.
    destruct (IH b Heq) as [->|[Hab|Hba]]; [by left|right; left|right; right];
      rewrite app_cons; simpl; by destruct (ascii_dec y y).
Qed.

Lemma under_apart (a b k : string) :
  a ≠ b → Pouch.under a b = false → Pouch.under b a = false →
  Pouch.under a k = true → Pouch.under b k = true → False.
Proof.
  intros Hne Hab Hba [r1 Ha]%prefix_iff [r2 Hb]%prefix_iff.
  rewrite app_assoc_s in Ha, Hb. rewrite Ha in Hb.
  destruct (under_chain a b r1 r2 Hb) as [?|[Hu|Hu]]; [done|..].
  - by rewrite Hu in Hab.
  - by rewrite Hu in Hba.
Qed.

Section MoveFolderFree.

Context `{PathModule} `{MetadataModule} `{FsUtils} `{Collaborators}.

(** [moveFolderAsync(side, doc, was)] where [was] is known to [side] and
    carries the revision of the live document at [was._id], nothing is
    live at [doc._id] or below it, [doc._id] is not below [was._id] and
    holds no dollar sign, and the parent of [doc._id] is there: the bulk
    of [moveFolderRecursivelyAsync] goes through. Afterwards nothing is
    live at [was._id] or below it, a document is live at [doc._id], and
    the ids outside the two trees are left alone. *)
Theorem moveFolder_free (fuel : nat) (side : SideName) (doc was cur : Metadata)
    (w : World) :
  wf_world w →
  JS.truthy (side_get side (sides was)) = true →
  Pouch.current w (_id was) = Some cur → _rev was = _rev cur →
  free_below w (_id doc) → _rev doc = None → _deleted doc = false →
  JS.dollarFree (_id doc) = true →
  Pouch.under (_id was) (_id doc) = false →
  path_dirname (_id doc) = "." ∨ live w (path_dirname (_id doc)) →
  ∃ bulk w',
    Merge.moveFolderAsync fuel side doc was w = (Ok (RBulk bulk), w')
    ∧ free_below w' (_id was)
    ∧ live w' (_id doc)
    ∧ (∀ id, id ≠ _id was → Pouch.under (_id was) id = false →
             id ≠ _id doc → Pouch.under (_id doc) id = false →
             journal w' !! id = journal w !! id)
    ∧ calls w' = calls w.
Proof.
  intros Hwf Hside Hcur Hrev Hfree Hnew Hlive Hdollar Hapart Hparent.
  set (doc' := set_trashed None
                 (set_tags (orElse (tags (markSide side doc None))
                                   (Some (default [] (tags (markSide side was (Some was))))))
                    (markSide side doc None))).
  set (was' := markSide side was (Some was)).
  assert (Hid' : _id doc' = _id doc) by (by destruct doc).
  assert (Hidw : _id was' = _id was) by (by destruct was).
  assert (Hne : _id was ≠ _id doc).
  { intros Heq. rewrite Heq, (Hfree (_id doc)) in Hcur; [done | by left]. }
  assert (Hback : Pouch.under (_id doc) (_id was) = false).
  { destruct (Pouch.under (_id doc) (_id was)) eqn:Hu; [|done].
    rewrite (Hfree (_id was)) in Hcur; [done | by right]. }
  destruct (bulk_commits side doc' was' w Hwf) as (j' & E & Hin & Hout).
  { exists cur. rewrite Hidw. split; [done | by destruct was]. }
  { by destruct doc. }
  { by rewrite Hid'. }
  { by rewrite Hid'. }
  rewrite Hidw in E, Hin, Hout.
  pose proof (bulk_alt side doc' was' w) as Halt. rewrite Hidw in Halt.
  assert (Hids : ∀ id, id ∈ map _id (Merge.move_bulk side doc' was'
                                       (Pouch.docs_under w (_id was))) →
            id = _id was ∨ id = _id doc
            ∨ (∃ d, d ∈ Pouch.docs_under w (_id was) ∧ id = _id d)
            ∨ Pouch.under (_id doc) id = true).
  { intros id Hid.
    pose proof (bulk_ids side doc' was' w Hwf) as Hperm.
    rewrite Hid', Hidw in Hperm. rewrite Hperm in Hid by done.
    apply elem_of_cons in Hid as [->|Hid]; [by left|].
    apply elem_of_cons in Hid as [->|Hid]; [by right; left|].
    apply elem_of_app in Hid as [Hid|Hid].
    - apply list_elem_of_fmap in Hid as (d & -> & Hd). right. right. left. by exists d.
    - apply list_elem_of_fmap in Hid as (d & -> & Hd). right. right. right.
      rewrite <- Hid'. apply (newId_under doc' was' w Hwf).
      by rewrite Hidw. }
  exists (Merge.move_bulk side doc' was' (Pouch.docs_under w (_id was))),
         (Pouch.with_journal j' w).
  split; [|split; [|split; [|split; [|done]]]].
  - unfold Merge.moveFolderAsync. rewrite Hside. unfold bind at 1.
    rewrite try_get_eq, (Hfree (_id doc)) by (by left).
    fold was' doc'. unfold bind at 1.
    rewrite (ensureParentExist_there fuel side doc' w) by (by rewrite Hid'). exact E.
  - intros k Hk.
    assert (Hdead : ∀ b, b ∈ Merge.move_bulk side doc' was' (Pouch.docs_under w (_id was)) →
              _deleted b = true → Pouch.current (Pouch.with_journal j' w) (_id b) = None).
    { intros b Hb Hd. unfold Pouch.current. simpl. rewrite (Hin b Hb). simpl.
      unfold Pouch.stored. by rewrite deleted_set_rev, Hd. }
    destruct Hk as [->|Hu].
    + rewrite <- Hidw. rewrite <- (id_moved_marks was' (Some (_id doc')) true).
      apply Hdead; [|by destruct was]. rewrite Halt. by left.
    + destruct (Pouch.current w k) as [d|] eqn:Hd.
      * assert (Hdocs : d ∈ Pouch.docs_under w (_id was)).
        { apply elem_of_docs_under. exists k. by apply lookup_descendants. }
        rewrite <- (wf_current _ _ _ Hwf Hd), <- (id_tomb_of side doc' was' d).
        apply Hdead; [|by destruct d]. rewrite Halt. right. right.
        apply list_elem_of_In, in_flat_map. exists d.
        split; [by apply list_elem_of_In | by left].
      * unfold Pouch.current. simpl. rewrite Hout; [exact Hd|].
        intros [->|[->|[(d & Hdocs & ->)|Hu']]]%Hids.
        -- by apply under_ne in Hu.
        -- by rewrite Hu in Hapart.
        -- destruct (docs_in was w Hwf d Hdocs) as [Hc _]. by rewrite Hc in Hd.
        -- by apply (under_apart (_id was) (_id doc) k).
  - exists (Pouch.stored (default [] (journal w !! _id doc')) doc').
    unfold Pouch.current. simpl. rewrite <- Hid', (Hin doc'); [|rewrite Halt; right; by left].
    simpl. unfold Pouch.stored. rewrite deleted_set_rev.
    assert (_deleted doc' = false) as -> by (by destruct doc). done.
  - intros id Hw Huw Hd Hud. simpl. apply Hout.
    intros [->|[->|[(d & Hdocs & ->)|Hu']]]%Hids; [done|done| |by rewrite Hud in Hu'].
    destruct (docs_in was w Hwf d Hdocs) as [_ Hu]. by rewrite Huw in Hu.
Qed.

End MoveFolderFree.

(* ===================================================================== *)
(** ** The handler of a conflict *)
(* ===================================================================== *)

Section Handler.

Context `{PathModule} `{MetadataModule} `{FsUtils} `{Collaborators}.


































End Handler.



(* ===================================================================== *)
(** ** The theorems at work *)
(* ===================================================================== *)

(** [tree_closed], as a check that runs over the journal. *)
Lemma tree_closed_check `{PathModule} (w : World) :
  map_Forall (λ id hist, is_Some (Pouch.head_live hist) →
                path_dirname id = "." ∨ live w (path_dirname id)) (journal w) →
  tree_closed w.
Proof.
  intros Hall id [d Hd]. unfold Pouch.current in Hd.
  destruct (journal w !! id) as [hist|] eqn:Hj; [|done]. simpl in Hd.
  apply (Hall id hist Hj). by exists d.
Qed.

Lemma pending_onUnlinkFile (p : string) (st : Watcher.State) :
  Watcher.pending (Watcher.onUnlinkFile p st)
  = <[p := Watcher.mkPending Watcher.OfFile (Some (Watcher.next_handle st)) None]>
      (Watcher.pending st).
Proof. reflexivity. Qed.

Lemma pending_onUnlinkDir (p : string) (st : Watcher.State) :
  Watcher.pending (Watcher.onUnlinkDir p st)
  = <[p := Watcher.mkPending Watcher.OfDir None (Some (Watcher.next_handle st))]>
      (Watcher.pending st).
Proof. reflexivity. Qed.

(** Into an empty store comes [a/b/c]: the folders [a] and [a/b] are made. *)
Lemma ensureParentExist_parent_live_witness :
  let doc := Sample.doc "a/b/c" File (Some "C") noSides in
  let w := Sample.world_of [] in
  let w' := (Merge.ensureParentExistAsync 2 LocalSide doc w).2 in
  live w' "a/b".
Proof.
  intros doc w w'.
  destruct (ensureParentExist_parent_live 2 LocalSide doc w w') as [Htop|Hl].
  - by vm_compute.
  - by vm_compute in Htop.
  - exact Hl.
Defined.

Lemma writes_keep_lives_witness :
  let dir := Sample.doc "dir" Folder None (Sample.both 1 1) in
  let w := Sample.world_of [dir] in
  let doc := Sample.doc "dir/sub/a" File (Some "A") noSides in
  keeps_lives w (Merge.addFileAsync 9 LocalSide doc w).2
  ∧ live (Merge.addFileAsync 9 LocalSide doc w).2 "dir".
Proof.
  intros dir w doc.
  destruct (writes_keep_lives 9 LocalSide doc w) as (Hadd & _); [reflexivity|].
  split; [done|]. apply Hadd. eexists. by vm_compute.
Defined.

Lemma writes_keep_tree_witness :
  let dir := Sample.doc "dir" Folder None (Sample.both 1 1) in
  let w := Sample.world_of [dir] in
  let doc := Sample.doc "dir/sub/a" File (Some "A") noSides in
  tree_closed w ∧ tree_closed (Merge.addFileAsync 9 LocalSide doc w).2.
Proof.
  intros dir w doc.
  assert (Hw : tree_closed w).
  { apply tree_closed_check, (bool_decide_unpack _). by vm_compute. }
  split; [done|].
  by destruct (writes_keep_tree 9 LocalSide doc w) as (Hadd & _); [reflexivity|done|].
Defined.

Lemma writes_leave_live_witness :
  let dir := Sample.doc "dir" Folder None (Sample.both 1 1) in
  let w := Sample.world_of [dir] in
  let doc := Sample.doc "dir/sub" Folder None noSides in
  live (Merge.putFolderAsync 9 LocalSide doc w).2 "dir/sub".
Proof.
  intros dir w doc.
  destruct (Merge.putFolderAsync 9 LocalSide doc w) as [r w'] eqn:E.
  assert (∃ x, r = Ok x) as [x ->].
  { vm_compute in E. inversion E. eauto. }
  apply (writes_leave_live 9 LocalSide doc w w' x); [reflexivity|].
  right. right. exact E.
Defined.

(** Scenario S2: [dir/a] is renamed to [dir/b]. *)
Lemma moveFile_free_witness :
  let dir := Sample.doc "dir" Folder None (Sample.both 1 1) in
  let a := Sample.doc "dir/a" File (Some "A") (Sample.both 1 1) in
  let w := Sample.world_of [dir; a] in
  let was := set_rev (Some 1) a in
  let doc := Sample.doc "dir/b" File (Some "A") noSides in
  ∃ r w', Merge.moveFileAsync 0 LocalSide doc was w = (Ok r, w')
          ∧ Pouch.current w' "dir/a" = None
          ∧ is_Some (Pouch.current w' "dir/b").
Proof.
  intros dir a w was doc.
  destruct (moveFile_free 0 LocalSide doc was was w)
    as (w' & tomb & hist & E & Hgone & _ & _ & _ & Hnew & _).
  - reflexivity.
  - by vm_compute.
  - reflexivity.
  - by vm_compute.
  - reflexivity.
  - reflexivity.
  - right. eexists. by vm_compute.
  - eexists _, w'. split; [exact E|]. split; [exact Hgone|]. eexists. exact Hnew.
Defined.

(** [dir] holds [dir/a], in step on both sides, and [dir/b], which the
    remote side has changed; the local side deletes [dir]. *)
Lemma deleteFolder_removes_only_witness :
  let dir := Sample.doc "dir" Folder None (Sample.both 1 1) in
  let a := Sample.doc "dir/a" File (Some "A") (Sample.both 1 1) in
  let b := Sample.doc "dir/b" File (Some "B") (Sample.both 1 2) in
  let w := Sample.world_of [dir; a; b] in
  ∃ d, Pouch.current w "dir/a" = Some d ∧ isUpToDate LocalSide d = true.
Proof.
  intros dir a b w.
  destruct (deleteFolder_removes_only LocalSide dir w "dir/a") as [_ Hd].
  - apply world_of_wf.
  - eexists. by vm_compute.
  - intros [x Hx]. by vm_compute in Hx.
  - exact Hd.
Defined.

Lemma deleteFolder_keeps_modified_witness :
  let dir := Sample.doc "dir" Folder None (Sample.both 1 1) in
  let a := Sample.doc "dir/a" File (Some "A") (Sample.both 1 1) in
  let b := Sample.doc "dir/b" File (Some "B") (Sample.both 1 2) in
  let w := Sample.world_of [dir; a; b] in
  ∃ bulk w' d', Merge.deleteFolderAsync LocalSide dir w = (Ok (RBulk bulk), w')
                ∧ Pouch.current w' "dir/b" = Some d'
                ∧ sides d' = mkSides (Some 1) None.
Proof.
  intros dir a b w.
  destruct (deleteFolder_keeps_modified LocalSide dir (set_rev (Some 1) dir)
              (set_rev (Some 1) b) w) as (bulk & w' & d' & E & Hcur & Hd' & _).
  - apply world_of_wf.
  - by vm_compute.
  - reflexivity.
  - apply (bool_decide_unpack _). by vm_compute.
  - reflexivity.
  - exists bulk, w', d'. split; [exact E|]. split; [exact Hcur|]. by rewrite Hd'.
Defined.

Lemma deleteFolder_empties_witness :
  let dir := Sample.doc "dir" Folder None (Sample.both 1 1) in
  let a := Sample.doc "dir/a" File (Some "A") (Sample.both 1 1) in
  let sub := Sample.doc "dir/sub" Folder None (Sample.both 1 1) in
  let b := Sample.doc "dir/sub/b" File (Some "B") (Sample.both 1 1) in
  let w := Sample.world_of [dir; a; sub; b] in
  ∃ w', (Merge.deleteFolderAsync LocalSide dir w).2 = w' ∧ free_below w' "dir".
Proof.
  intros dir a sub b w.
  destruct (deleteFolder_empties LocalSide dir (set_rev (Some 1) dir) w)
    as (w' & E & Hfree & _).
  - apply world_of_wf.
  - by vm_compute.
  - reflexivity.
  - apply Forall_forall, (bool_decide_unpack _). by vm_compute.
  - exists w'. split; [by rewrite E | exact Hfree].
Defined.

Lemma deleteFolder_keeps_parents_witness :
  let dir := Sample.doc "dir" Folder None (Sample.both 1 1) in
  let a := Sample.doc "dir/a" File (Some "A") (Sample.both 1 1) in
  let b := Sample.doc "dir/b" File (Some "B") (Sample.both 1 2) in
  let w := Sample.world_of [dir; a; b] in
  live (Merge.deleteFolderAsync LocalSide dir w).2 "dir".
Proof.
  intros dir a b w.
  apply (deleteFolder_keeps_parents LocalSide dir (set_rev (Some 1) dir)
           (set_rev (Some 1) b) (set_rev (Some 1) dir) w).
  - apply world_of_wf.
  - by vm_compute.
  - reflexivity.
  - apply (bool_decide_unpack _). by vm_compute.
  - apply (bool_decide_unpack _). by vm_compute.
  - reflexivity.
  - reflexivity.
  - eexists. by vm_compute.
Defined.

Lemma restore_spares_witness :
  let dir := Sample.doc "dir" Folder None (Sample.both 1 1) in
  let a := Sample.doc "dir/a" File (Some "A") (Sample.both 1 1) in
  let w := Sample.world_of [dir; a] in
  let doc := Sample.doc "back" File (Some "A") noSides in
  live (Merge.restoreFileAsync 4 LocalSide a doc w).2 "dir"
  ∧ live (Merge.restoreFolderAsync 4 LocalSide a doc w).2 "dir".
Proof.
  intros dir a w doc.
  destruct (restore_spares 4 LocalSide a doc w "dir") as (Hfile & Hfolder & _).
  - apply world_of_wf.
  - reflexivity.
  - eexists. by vm_compute.
  - done.
  - split; [exact Hfile|]. by apply Hfolder.
Defined.

Lemma fire_keeps_armed_witness :
  let st := Watcher.onUnlinkFile "a" Watcher.start in
  ∃ st', Watcher.fire 0 st = Ok st' ∧ armed st'.
Proof.
  intros st. apply fire_keeps_armed, armed_onUnlinkFile; [apply armed_start | done].
Defined.

Lemma handlers_keep_armed_witness :
  let st := Watcher.onUnlinkFile "a" Watcher.start in
  armed (Watcher.onUnlinkDir "d" st)
  ∧ ∃ st', Watcher.onAddFile "a" st = Ok st' ∧ armed st'.
Proof.
  intros st.
  destruct (handlers_keep_armed "d" Sample.stats [] (Watcher.createDoc "d" Sample.stats None)
              (inr []) st) as (_ & Hdir & _).
  { apply armed_onUnlinkFile; [apply armed_start | done]. }
  destruct (handlers_keep_armed "a" Sample.stats [] (Watcher.createDoc "a" Sample.stats None)
              (inr []) st) as (_ & _ & Hadd & _).
  { apply armed_onUnlinkFile; [apply armed_start | done]. }
  split; [by apply Hdir | exact Hadd].
Defined.

Lemma file_deletion_waits_witness :
  let st := Watcher.onUnlinkFile "a" Watcher.start in
  ∃ st', Watcher.fire 0 st = Ok st'
         ∧ Watcher.prepCalls st' = [Watcher.deleteFile LocalSide "a"].
Proof.
  intros st.
  destruct (file_deletion_waits "a" (Watcher.mkPending Watcher.OfFile (Some 0) None) 0
              (Watcher.mkTimer false 1250 (Watcher.FileCheck "a")) st)
    as (st' & E & _ & Hcalls & _).
  - by vm_compute.
  - reflexivity.
  - by vm_compute.
  - by repeat split.
  - exists st'. split; [exact E | exact Hcalls].
Defined.

Lemma onAddFile_checksums_balanced_witness :
  let st := Watcher.onUnlinkFile "a" Watcher.start in
  ∃ st1, Watcher.onAddFile "b" st = Ok st1
         ∧ Watcher.checksums st1 = 1%Z
         ∧ ∀ checksum answer st2,
             Watcher.onAddFile_checksummed "b" Sample.stats checksum answer st1 = Ok st2 →
             Watcher.checksums st2 = 0%Z.
Proof.
  intros st. eexists. split; [by vm_compute|]. split; [done|].
  refine (proj2 (onAddFile_checksums_balanced "b" Sample.stats st _ _)).
  by vm_compute.
Defined.

Lemma stop_finalizes_witness :
  let st := Watcher.onUnlinkDir "d" (Watcher.onUnlinkFile "a" Watcher.start) in
  ∃ st', Watcher.stop ["a"; "d"] st = Ok st'
         ∧ Watcher.pending st' = ∅
         ∧ Watcher.prepCalls st'
           = [Watcher.deleteFile LocalSide "a"; Watcher.deleteFolder LocalSide "d"]
         ∧ Watcher.timers st' = {[2 := Watcher.mkTimer false 3000 Watcher.Resolve]}.
Proof.
  intros st.
  destruct (stop_finalizes ["a"; "d"] st)
    as (st' & calls & E & Hpend & _ & _ & _ & _ & Htim).
  - apply (bool_decide_unpack _). by vm_compute.
  - intros k. unfold st. rewrite pending_onUnlinkDir, pending_onUnlinkFile.
    change (Watcher.pending Watcher.start) with (∅ : gmap string Watcher.Pending).
    rewrite !lookup_insert_is_Some, lookup_empty, !elem_of_cons, elem_of_nil.
    split.
    + intros [->|[->|[]]]; [right; split; [done|by left] | by left].
    + intros [<-|[_ [<-|[_ []%is_Some_None]]]]; [right; by left | by left].
  - exists st'. split; [exact E|]. split; [exact Hpend|]. split.
    + vm_compute in E. by injection E as <-.
    + apply Htim, armed_onUnlinkDir; [|done].
      apply armed_onUnlinkFile; [apply armed_start | done].
Defined.

Lemma ensureParentExist_posix_returns_witness :
  let doc := Sample.doc "a/b/c" File (Some "C") noSides in
  ∃ w', Merge.ensureParentExistAsync 5 LocalSide doc (Sample.world_of []) = (Ok tt, w')
        ∧ live w' "a/b".
Proof.
  intros doc.
  destruct (ensureParentExist_posix_returns 5 LocalSide doc (Sample.world_of []))
    as (w' & E & [Htop|Hl] & _).
  - reflexivity.
  - simpl. lia.
  - by vm_compute in Htop.
  - exists w'. split; [exact E | exact Hl].
Defined.

Lemma create_new_posix_witness :
  let doc := Sample.doc "a/b/c" File (Some "C") noSides in
  ∃ d w', Merge.addFileAsync 5 LocalSide doc (Sample.world_of []) = (Ok (RPut d), w')
          ∧ Pouch.current w' "a/b/c" = Some d
          ∧ sides d = mkSides (Some 1) None
          ∧ live w' "a/b".
Proof.
  intros doc.
  destruct (create_new_posix 5 LocalSide doc (Sample.world_of []))
    as (d & w' & E & _ & _ & Hd & Hcur & [Htop|Hl] & _).
  - reflexivity.
  - simpl. lia.
  - by vm_compute.
  - reflexivity.
  - reflexivity.
  - by vm_compute in Htop.
  - exists d, w'. split; [exact E|]. split; [exact Hcur|]. split; [by rewrite Hd | exact Hl].
Defined.

Lemma removals_footprint_witness :
  let dir := Sample.doc "dir" Folder None (Sample.both 1 1) in
  let a := Sample.doc "dir/a" File (Some "A") (Sample.both 1 1) in
  let x := Sample.doc "x" File (Some "X") (Sample.both 1 1) in
  let w := Sample.world_of [dir; a; x] in
  journal (Merge.deleteFolderAsync LocalSide dir w).2 !! "x" = journal w !! "x"
  ∧ journal (Merge.trashFolderAsync LocalSide dir dir w).2 !! "x" = journal w !! "x".
Proof.
  intros dir a x w.
  destruct (removals_footprint LocalSide dir dir w "x") as (_ & _ & Hfolder).
  - apply world_of_wf.
  - done.
  - by apply Hfolder.
Defined.

(** Scenario S1: [src], with [src/a] in it, is renamed to [dst]. *)
Lemma moveFolder_free_witness :
  let src := Sample.doc "src" Folder None (Sample.both 1 1) in
  let a := Sample.doc "src/a" File (Some "A") (Sample.both 1 1) in
  let w := Sample.world_of [src; a] in
  let dst := Sample.doc "dst" Folder None noSides in
  ∃ bulk w',
    Merge.moveFolderAsync 0 LocalSide dst (set_rev (Some 1) src) w = (Ok (RBulk bulk), w')
    ∧ free_below w' "src" ∧ live w' "dst".
Proof.
  intros src a w dst.
  destruct (moveFolder_free 0 LocalSide dst (set_rev (Some 1) src) (set_rev (Some 1) src) w)
    as (bulk & w' & E & Hsrc & Hdst & _).
  - apply world_of_wf.
  - reflexivity.
  - by vm_compute.
  - reflexivity.
  - apply free_below_check, (bool_decide_unpack _). by vm_compute.
  - reflexivity.
  - reflexivity.
  - reflexivity.
  - reflexivity.
  - by left.
  - exists bulk, w'. split; [exact E|]. split; [exact Hsrc | exact Hdst].
Defined.
